(** * NutritionalValue: the session protocol engine of the backend server

    A shallow embedding of [internal/server] (the WebSocket message handlers
    and the history aggregation), of the two structs of [internal/models]
    and of the SQLite repository of [internal/database], followed by the
    properties the specification states about them. The two models of
    [internal/ml] and the loader of [internal/config] come after the
    server, with further properties of the code at the end.

    Conventions of the embedding.
    - A [float64] is an IEEE 754 binary64 number, as the executable
      specification of the Standard Library has it ([SpecFloat], precision
      53, maximal exponent 1024); [+] is [SFadd], [<=] is [SFleb].
    - A [time.Time] is the instant it denotes, in nanoseconds since the Unix
      epoch, and [time.Local] is a fixed offset from UTC (no daylight
      saving).
    - [map[string]any] is a [gmap string any]; a nil map is the empty map
      (Go reads both the same way).
    - The handlers are written in a state monad over [World], which holds
      the two [sync.Map]s of the server, the two tables of the database,
      and the record of what was written to each connection and of what
      was handed to the model. Logging is left out.
    - What the environment decides (the identifiers drawn by [uuid.New],
      the clock, the answer of the model, the failures of the database, the
      two decoders of the Go library, the text the driver stores for a
      time and what [time.Parse] makes of a text) is read from an [Env];
      the [tick] of the world counts the calls answered so far, so that
      successive calls may be answered differently.
    - A table is the list of its rows in rowid order. A statement that
      fails leaves the table as it was. The two time columns are [TEXT]:
      a row is kept with the [time.Time] values it was written from, and
      the text the driver stored for them is taken where the code orders
      by it or reads it back.
    - Connections are served concurrently; here every handler call runs
      as a whole, and a run of the server is a sequence of such calls, in
      any order. *)

From Stdlib Require Import ZArith Sorted Floats.SpecFloat.
From stdpp Require Import gmap strings list fin_maps pretty.

Set Warnings "-register-all".

(** ** Numbers *)

Definition float64 : Type := spec_float.

Module f64.
Definition prec : Z := 53.
Definition emax : Z := 1024.
  (** The zero value of a [float64] variable. *)
Definition zero : float64 := S754_zero false.
  (** An integer literal, as the compiler converts it. *)
Definition of_Z (z : Z) : float64 := binary_normalize prec emax z 0 false.
Definition add (x y : float64) : float64 := SFadd prec emax x y.
Definition ltb (x y : float64) : bool := SFltb x y.
Definition leb (x y : float64) : bool := SFleb x y.
End f64.

(** ** Time *)

Module time.
Definition Time : Type := Z.
Definition Location : Type := Z.

Definition nsPerSecond : Z := 1000000000.
Definition nsPerDay : Z := 86400 * nsPerSecond.

  (** [time.Time{}]: January 1, year 1, 00:00:00 UTC. *)
Definition zero : Time := (-62135596800 * nsPerSecond)%Z.
Definition IsZero (t : Time) : bool := (t =? zero)%Z.

  (** [t.After(u)] *)
Definition After (t u : Time) : bool := (u <? t)%Z.

  (** The civil day of [t] in [loc], counted from 1970-01-01 (which stands
      for the triple [t.Year(), t.Month(), t.Day()]). *)
Definition civil_day (loc : Location) (t : Time) : Z :=
    ((t + loc * nsPerSecond) / nsPerDay)%Z.

  (** [t.Weekday()]: Sunday is 0; 1970-01-01 was a Thursday. *)
Definition Weekday (loc : Location) (t : Time) : Z :=
    ((civil_day loc t + 4) mod 7)%Z.

  (** [time.Date(y, m, d, 0, 0, 0, 0, loc)] for the civil day [day]. *)
Definition Date_midnight (loc : Location) (day : Z) : Time :=
    (day * nsPerDay - loc * nsPerSecond)%Z.

  (** [t.AddDate(0, 0, days)] *)
Definition AddDate_days (t : Time) (days : Z) : Time :=
    (t + days * nsPerDay)%Z.
End time.

(** ** Dynamic values

    What [json.Unmarshal] stores in an [any], and the [[]byte] the server
    itself stores in [tempImageData]. *)

Inductive any : Type :=
| ANil
| ABool (b : bool)
| AFloat64 (f : float64)
| AString (s : string)
| ASlice (l : list any)
| AMap (m : gmap string any)
| ABytes (b : list Byte.byte).

(** ** internal/models *)

Module NutritionalInfo.
Record t : Type := mk {
    ID : string;
    TotalWeight : float64;
    Calories : float64;
    Protein : float64;
    Carbs : float64;
    Fat : float64;
    Fiber : float64;
    Sugar : float64;
    ImagePath : string;
    CreatedAt : time.Time;
    UpdatedAt : time.Time
  }.

Definition with_times (created updated : time.Time) (i : t) : t :=
    mk (ID i) (TotalWeight i) (Calories i) (Protein i) (Carbs i) (Fat i)
       (Fiber i) (Sugar i) (ImagePath i) created updated.
End NutritionalInfo.

Module NutritionScan.
Record t : Type := mk {
    ID : string;
    ImageData : list Byte.byte;
    Status : string;
    Result : option NutritionalInfo.t;
    Error : string;
    CreatedAt : time.Time;
    UpdatedAt : time.Time
  }.

Definition with_times (created updated : time.Time) (s : t) : t :=
    mk (ID s) (ImageData s) (Status s) (Result s) (Error s) created updated.
End NutritionScan.

(** ** What goes over a connection *)

Definition Conn : Type := nat.
Definition error : Type := string.

(** The anonymous struct of [handleGetHistory]. *)
Module Totals.
Record t : Type := mk {
    Calories : float64;
    Protein : float64;
    Carbs : float64;
    Fat : float64
  }.
Definition zero : t := mk f64.zero f64.zero f64.zero f64.zero.
  (** The four [+=] of one loop iteration. *)
Definition add (s : t) (info : NutritionalInfo.t) : t :=
    mk (f64.add (Calories s) (NutritionalInfo.Calories info))
       (f64.add (Protein s) (NutritionalInfo.Protein info))
       (f64.add (Carbs s) (NutritionalInfo.Carbs info))
       (f64.add (Fat s) (NutritionalInfo.Fat info)).
End Totals.

Inductive payload : Type :=
| data_nil
| data_info (info : NutritionalInfo.t)
| data_history (items : list NutritionalInfo.t) (day_total week_total : Totals.t).

(** [{"type": ..., "data": ...}] and [{"type": "error", "message": ...}]. *)
Inductive Message : Type :=
| Envelope (type : string) (data : payload)
| ErrorEnvelope (message : string).

Definition message_type (m : Message) : string :=
  match m with
  | Envelope type _ => type
  | ErrorEnvelope _ => "error"
  end.

(** ** internal/database: the two tables of schema.sql *)

Module nutrition_scans.
Record row : Type := mk {
    id : string;
    image_data : list Byte.byte;
    status : string;
    error : string;
    created_at : time.Time;
    updated_at : time.Time
  }.
End nutrition_scans.

(** ** The world the handlers run in *)

Record World : Type := mkWorld {
  (** [Server.tempImageData] *)
  tempImageData : gmap string any;
  (** [Server.clients] *)
  clients : gmap string Conn;
  (** Table [nutritional_info], in rowid order; [id] is the primary key. *)
  nutritional_info : list NutritionalInfo.t;
  (** Table [nutrition_scans], in rowid order; [id] is the primary key. *)
  scans : list nutrition_scans.row;
  (** Every [conn.WriteJSON], oldest first. *)
  wire : list (Conn * Message);
  (** Every image handed to [model.ProcessImage], oldest first. *)
  analyzed : list (list Byte.byte);
  (** Number of calls answered by the environment so far. *)
  tick : nat
}.

Record Env : Type := mkEnv {
  (** [uuid.New().String()] *)
  uuid_New : nat -> string;
  (** [time.Now()] *)
  time_Now : nat -> time.Time;
  (** [time.Local], as seconds east of UTC *)
  Local : time.Location;
  (** [model.ProcessImage] *)
  ProcessImage : nat -> list Byte.byte -> NutritionalInfo.t + error;
  (** The error, if any, of a statement sent to SQLite. *)
  ExecContext_err : nat -> option error;
  (** The error, if any, of a query sent to SQLite or of scanning its rows. *)
  QueryContext_err : nat -> option error;
  (** [base64.StdEncoding.DecodeString] *)
  base64_DecodeString : string -> option (list Byte.byte);
  (** [json.Unmarshal] into a [map[string]any] *)
  json_Unmarshal : list Byte.byte -> option (gmap string any);
  (** The text the SQLite driver stores for a [time.Time] argument (by
      default what [t.String()] prints). *)
  driver_time_text : time.Time -> string;
  (** [time.Parse(time.RFC3339, _)] *)
  time_Parse_RFC3339 : string -> option time.Time
}.

Definition M (A : Type) : Type := World -> A * World.

Definition ret {A} (a : A) : M A := fun w => (a, w).
Definition bind {A B} (m : M A) (f : A -> M B) : M B :=
  fun w => let (a, w') := m w in f a w'.

Notation "x <- m ;; k" := (bind m (fun x => k))
  (at level 100, m at next level, right associativity).
Notation "m ;;; k" := (bind m (fun _ => k))
  (at level 100, right associativity).

Definition exec {A} (m : M A) (w : World) : World := snd (m w).

(** *** Primitive effects *)

Definition next_tick : M nat :=
  fun w => (tick w,
            mkWorld (tempImageData w) (clients w) (nutritional_info w) (scans w)
                    (wire w) (analyzed w) (S (tick w))).

Definition WriteJSON (conn : Conn) (m : Message) : M unit :=
  fun w => (tt,
            mkWorld (tempImageData w) (clients w) (nutritional_info w) (scans w)
                    (wire w ++ [(conn, m)]) (analyzed w) (tick w)).

Definition record_analyzed (img : list Byte.byte) : M unit :=
  fun w => (tt,
            mkWorld (tempImageData w) (clients w) (nutritional_info w) (scans w)
                    (wire w) (analyzed w ++ [img]) (tick w)).

Definition tempImageData_Store (key : string) (value : any) : M unit :=
  fun w => (tt,
            mkWorld (<[key := value]> (tempImageData w)) (clients w)
                    (nutritional_info w) (scans w) (wire w) (analyzed w) (tick w)).

Definition tempImageData_Load (key : string) : M (option any) :=
  fun w => (tempImageData w !! key, w).

Definition tempImageData_Delete (key : string) : M unit :=
  fun w => (tt,
            mkWorld (delete key (tempImageData w)) (clients w)
                    (nutritional_info w) (scans w) (wire w) (analyzed w) (tick w)).

Definition clients_Store (key : string) (conn : Conn) : M unit :=
  fun w => (tt,
            mkWorld (tempImageData w) (<[key := conn]> (clients w))
                    (nutritional_info w) (scans w) (wire w) (analyzed w) (tick w)).

Definition clients_Delete (key : string) : M unit :=
  fun w => (tt,
            mkWorld (tempImageData w) (delete key (clients w))
                    (nutritional_info w) (scans w) (wire w) (analyzed w) (tick w)).

Definition set_nutritional_info (tbl : list NutritionalInfo.t) : M unit :=
  fun w => (tt,
            mkWorld (tempImageData w) (clients w) tbl (scans w)
                    (wire w) (analyzed w) (tick w)).

Definition set_scans (tbl : list nutrition_scans.row) : M unit :=
  fun w => (tt,
            mkWorld (tempImageData w) (clients w) (nutritional_info w) tbl
                    (wire w) (analyzed w) (tick w)).

Definition get {A} (f : World -> A) : M A := fun w => (f w, w).

(** ** The server, over a given environment *)

Section Server.
Context (E : Env).

Definition uuid_New_String : M string :=
    k <- next_tick;; ret (uuid_New E k).

Definition Now : M time.Time :=
    k <- next_tick;; ret (time_Now E k).

Definition model_ProcessImage (imageData : list Byte.byte)
    : M (NutritionalInfo.t + error) :=
    k <- next_tick;;
    record_analyzed imageData;;;
    ret (ProcessImage E k imageData).

  (** *** internal/database/database.go *)

  (** [INSERT ... ON CONFLICT(id) DO UPDATE SET ...]: on a conflict every
      column but [id] and [created_at] is taken from the new row. *)
Fixpoint upsert_nutritional_info (info : NutritionalInfo.t)
      (tbl : list NutritionalInfo.t) : list NutritionalInfo.t :=
    match tbl with
    | [] => [info]
    | r :: tbl' =>
        if String.eqb (NutritionalInfo.ID r) (NutritionalInfo.ID info)
        then NutritionalInfo.with_times
               (NutritionalInfo.CreatedAt r) (NutritionalInfo.UpdatedAt info) info
             :: tbl'
        else r :: upsert_nutritional_info info tbl'
    end.

  (** [INSERT OR REPLACE]: a row with the same key is deleted first. *)
Definition replace_scan (r : nutrition_scans.row)
      (tbl : list nutrition_scans.row) : list nutrition_scans.row :=
    filter (fun r' => nutrition_scans.id r' ≠ nutrition_scans.id r) tbl ++ [r].

  (** [db.ExecContext]: the statement fails and changes nothing, or it is
      applied as a whole. *)
Definition ExecContext (stmt : M unit) : M (option error) :=
    k <- next_tick;;
    match ExecContext_err E k with
    | Some err => ret (Some err)
    | None => stmt;;; ret None
    end.

  (** The struct is passed by pointer: the caller sees the timestamps set
      here, so the updated struct is returned with the error. *)
Definition SaveNutritionalInfo (info : NutritionalInfo.t)
    : M (NutritionalInfo.t * option error) :=
    now <- Now;;
    let info :=
      NutritionalInfo.with_times
        (if time.IsZero (NutritionalInfo.CreatedAt info) then now
         else NutritionalInfo.CreatedAt info)
        now info in
    err <- ExecContext
             (tbl <- get nutritional_info;;
              set_nutritional_info (upsert_nutritional_info info tbl));;
    ret (info, err).

Definition SaveScan (scan : NutritionScan.t)
    : M (NutritionScan.t * option error) :=
    now <- Now;;
    let scan :=
      NutritionScan.with_times
        (if time.IsZero (NutritionScan.CreatedAt scan) then now
         else NutritionScan.CreatedAt scan)
        now scan in
    err <- ExecContext
             (tbl <- get scans;;
              set_scans
                (replace_scan
                   (nutrition_scans.mk (NutritionScan.ID scan)
                      (NutritionScan.ImageData scan) (NutritionScan.Status scan)
                      (NutritionScan.Error scan) (NutritionScan.CreatedAt scan)
                      (NutritionScan.UpdatedAt scan))
                   tbl));;
    ret (scan, err).

  (** [SELECT ... WHERE id = ?] *)
Definition select_by_id (id : string) (tbl : list NutritionalInfo.t)
    : option NutritionalInfo.t :=
    List.find (fun r => String.eqb (NutritionalInfo.ID r) id) tbl.

  (** The column [created_at] of a row. *)
Definition created_at_text (r : NutritionalInfo.t) : string :=
    driver_time_text E (NutritionalInfo.CreatedAt r).

  (** [ORDER BY created_at DESC]: the column is [TEXT], compared byte by
      byte; rows with equal [created_at] stay in rowid order. *)
Fixpoint insert_desc (x : NutritionalInfo.t) (l : list NutritionalInfo.t)
    : list NutritionalInfo.t :=
    match l with
    | [] => [x]
    | y :: l' =>
        if String.leb (created_at_text y) (created_at_text x)
        then x :: l
        else y :: insert_desc x l'
    end.

Definition order_by_created_at_desc (tbl : list NutritionalInfo.t)
    : list NutritionalInfo.t :=
    foldr insert_desc [] tbl.

Definition select_recent (limit : nat) (tbl : list NutritionalInfo.t)
    : list NutritionalInfo.t :=
    take limit (order_by_created_at_desc tbl).

  (** [t, _ = time.Parse(time.RFC3339, text)]: the zero time when the text
      does not parse. *)
Definition parse_time (text : string) : time.Time :=
    default time.zero (time_Parse_RFC3339 E text).

  (** One turn of the loop over the rows: the two time columns are
      scanned as text and parsed, the other columns are scanned as they
      are. *)
Definition scan_row (r : NutritionalInfo.t) : NutritionalInfo.t :=
    NutritionalInfo.with_times
      (parse_time (driver_time_text E (NutritionalInfo.CreatedAt r)))
      (parse_time (driver_time_text E (NutritionalInfo.UpdatedAt r)))
      r.

Definition GetRecentNutritionalInfo (limit : nat)
    : M (list NutritionalInfo.t + error) :=
    k <- next_tick;;
    match QueryContext_err E k with
    | Some err => ret (inr err)
    | None =>
        tbl <- get nutritional_info;;
        ret (inl (scan_row <$> select_recent limit tbl))
    end.

  (** *** internal/server *)

Definition sendMessage (conn : Conn) (messageType : string) (data : payload)
    : M unit :=
    WriteJSON conn (Envelope messageType data).

Definition sendError (conn : Conn) (message : string) : M unit :=
    WriteJSON conn (ErrorEnvelope message).

Definition handleScan (conn : Conn) (data : gmap string any) : M unit :=
    match data !! "image" with
    | Some (AString imageStr) =>
        match data !! "totalWeight" with
        | Some (AFloat64 totalWeight) =>
            match base64_DecodeString E imageStr with
            | None => sendError conn "Invalid image format"
            | Some imageData =>
                r <- model_ProcessImage imageData;;
                match r with
                | inr _ => sendError conn "Failed to process image"
                | inl nutritionInfo =>
                    id <- uuid_New_String;;
                    created <- Now;;
                    updated <- Now;;
                    let nutritionInfo :=
                      NutritionalInfo.mk id totalWeight
                        (NutritionalInfo.Calories nutritionInfo)
                        (NutritionalInfo.Protein nutritionInfo)
                        (NutritionalInfo.Carbs nutritionInfo)
                        (NutritionalInfo.Fat nutritionInfo)
                        (NutritionalInfo.Fiber nutritionInfo)
                        (NutritionalInfo.Sugar nutritionInfo)
                        (NutritionalInfo.ImagePath nutritionInfo)
                        created updated in
                    tempImageData_Store id (ABytes imageData);;;
                    sendMessage conn "scan_result" (data_info nutritionInfo)
                end
            end
        | _ => sendError conn "Invalid weight value"
        end
    | _ => sendError conn "Invalid image data"
    end.

  (** The body of the loop over the records. *)
Definition accumulate (startOfDay startOfWeek : time.Time)
      (totals : Totals.t * Totals.t) (info : NutritionalInfo.t)
    : Totals.t * Totals.t :=
    let (dayTotal, weekTotal) := totals in
    if time.After (NutritionalInfo.CreatedAt info) startOfWeek then
      let weekTotal := Totals.add weekTotal info in
      if time.After (NutritionalInfo.CreatedAt info) startOfDay then
        (Totals.add dayTotal info, weekTotal)
      else (dayTotal, weekTotal)
    else (dayTotal, weekTotal).

Definition startOfDay (now : time.Time) : time.Time :=
    time.Date_midnight (Local E) (time.civil_day (Local E) now).

Definition startOfWeek (now : time.Time) : time.Time :=
    let startOfWeek :=
      time.AddDate_days now (- time.Weekday (Local E) now) in
    time.Date_midnight (Local E) (time.civil_day (Local E) startOfWeek).

  (** [(dayTotal, weekTotal)] after the loop. *)
Definition history_totals (now : time.Time)
      (nutritionInfos : list NutritionalInfo.t) : Totals.t * Totals.t :=
    fold_left (accumulate (startOfDay now) (startOfWeek now))
      nutritionInfos (Totals.zero, Totals.zero).

Definition handleGetHistory (conn : Conn) : M unit :=
    r <- GetRecentNutritionalInfo 20;;
    match r with
    | inr _ => sendError conn "Failed to retrieve history"
    | inl nutritionInfos =>
        now <- Now;;
        let (dayTotal, weekTotal) := history_totals now nutritionInfos in
        sendMessage conn "history"
          (data_history nutritionInfos dayTotal weekTotal)
    end.

  (** [data[key].(float64)], with the value kept when the assertion fails. *)
Definition float64_field (data : gmap string any) (key : string)
      (default : float64) : float64 :=
    match data !! key with
    | Some (AFloat64 v) => v
    | _ => default
    end.

Definition handleConfirmScan (conn : Conn) (data : gmap string any) : M unit :=
    match data !! "id" with
    | Some (AString nutritionInfoID) =>
        imageDataAny <- tempImageData_Load nutritionInfoID;;
        match imageDataAny with
        | None => sendError conn "Image data not found"
        | Some (ABytes imageData) =>
            tempImageData_Delete nutritionInfoID;;;
            let totalWeight := float64_field data "total_weight" (f64.of_Z 100) in
            let calories := float64_field data "calories" f64.zero in
            let protein := float64_field data "protein" f64.zero in
            let carbs := float64_field data "carbs" f64.zero in
            let fat := float64_field data "fat" f64.zero in
            let fiber := float64_field data "fiber" f64.zero in
            let sugar := float64_field data "sugar" f64.zero in
            created <- Now;;
            updated <- Now;;
            let nutritionInfo :=
              NutritionalInfo.mk nutritionInfoID totalWeight calories protein
                carbs fat fiber sugar "" created updated in
            saved <- SaveNutritionalInfo nutritionInfo;;
            match snd saved with
            | Some _ => sendError conn "Failed to save results"
            | None =>
                let nutritionInfo := fst saved in
                id <- uuid_New_String;;
                created <- Now;;
                updated <- Now;;
                let scan :=
                  NutritionScan.mk id imageData "completed" (Some nutritionInfo)
                    "" created updated in
                saved <- SaveScan scan;;
                match snd saved with
                | Some _ => sendError conn "Failed to save scan"
                | None => sendMessage conn "scan_saved" data_nil
                end
            end
        | Some _ => sendError conn "Invalid stored image data"
        end
    | Some _ => sendError conn "Invalid nutrition info ID format"
    | None => sendError conn "Missing nutrition info ID"
    end.

Definition handleWebSocketMessage (conn : Conn) (message : gmap string any)
    : M unit :=
    match message !! "type" with
    | Some (AString messageType) =>
        let data :=
          match message !! "data" with
          | Some (AMap data) => data
          | _ => ∅
          end in
        if String.eqb messageType "scan" then handleScan conn data
        else if String.eqb messageType "confirm_scan" then handleConfirmScan conn data
        else if String.eqb messageType "get_history" then handleGetHistory conn
        else sendError conn "Unknown message type"
    | _ => sendError conn "Invalid message format"
    end.

  (** One turn of the loop of [handleWebSocket], for a message that was
      read: a message that does not parse is logged and skipped. *)
Definition serve (conn : Conn) (message : list Byte.byte) : M unit :=
    match json_Unmarshal E message with
    | None => ret tt
    | Some msg => handleWebSocketMessage conn msg
    end.

  (** The loop runs until [conn.ReadMessage] fails, that is over the
      messages the connection delivers. *)
Fixpoint read_loop (conn : Conn) (messages : list (list Byte.byte)) : M unit :=
    match messages with
    | [] => ret tt
    | message :: rest => serve conn message;;; read_loop conn rest
    end.

Definition handleWebSocket (conn : Conn) (messages : list (list Byte.byte))
    : M unit :=
    clientID <- uuid_New_String;;
    clients_Store clientID conn;;;
    read_loop conn messages;;;
    clients_Delete clientID.

  (** [server.New]: empty maps, the database as it is found. *)
Definition New (nutritional_info0 : list NutritionalInfo.t)
      (scans0 : list nutrition_scans.row) : World :=
    mkWorld ∅ ∅ nutritional_info0 scans0 [] [] 0.

  (** Connections are served concurrently; a run of the server is taken
      here as a sequence of steps, each one whole: a connection is accepted
      and registered, a message is read and handled, or a connection is
      dropped from the registry. *)
Inductive event : Type :=
  | Accept (conn : Conn)
  | Read (conn : Conn) (message : list Byte.byte)
  | Hangup (clientID : string).

Definition step (w : World) (ev : event) : World :=
    match ev with
    | Accept conn =>
        exec (clientID <- uuid_New_String;; clients_Store clientID conn) w
    | Read conn message => exec (serve conn message) w
    | Hangup clientID => exec (clients_Delete clientID) w
    end.

Definition run (w : World) (evs : list event) : World :=
    fold_left step evs w.

End Server.

(** * Stating the properties

    The definitions of this part are not code of the server: they name what
    the theorems speak about. *)

(** The world after more was written to the connections. *)
Definition with_wire (w : World) (sent : list (Conn * Message)) : World :=
  mkWorld (tempImageData w) (clients w) (nutritional_info w) (scans w)
          (wire w ++ sent) (analyzed w) (tick w).

(** What a nutrient field of a confirmed record is: the number the payload
    carries under [key], or [default] when the key is absent or carries
    anything else. *)
Definition supplied_or (data : gmap string any) (key : string)
    (default value : float64) : Prop :=
  (forall x, data !! key = Some (AFloat64 x) -> value = x)
  /\ ((forall x, data !! key <> Some (AFloat64 x)) -> value = default).

Definition scan_result_id (cm : Conn * Message) : option string :=
  match snd cm with
  | Envelope type (data_info info) =>
      if String.eqb type "scan_result" then Some (NutritionalInfo.ID info)
      else None
  | _ => None
  end.

(** The identifiers sent in a [scan_result] so far, oldest first. *)
Definition issued (w : World) : list string := omap scan_result_id (wire w).

Definition scan_ids (w : World) : list string :=
  nutrition_scans.id <$> scans w.

(** The messages of a given type written to the connections. *)
Definition sent_of_type (type : string) (w : World) : list (Conn * Message) :=
  filter (fun cm => message_type (snd cm) = type) (wire w).

(** No step deletes from [nutritional_info]. *)
Definition stored (w w' : World) : Prop :=
  forall id, is_Some (select_by_id id (nutritional_info w)) ->
             is_Some (select_by_id id (nutritional_info w')).

(** [ORDER BY created_at DESC]: the [created_at] of a later row is not
    greater, as text. *)
Definition not_after (E : Env) (a b : NutritionalInfo.t) : Prop :=
  String.leb (created_at_text E b) (created_at_text E a) = true.


(** The driver writes no [time.Time] as a text that [time.Parse] takes
    for RFC 3339. *)
Definition times_unreadable (E : Env) : Prop :=
  forall t, time_Parse_RFC3339 E (driver_time_text E t) = None.

Section Outcomes.
Context (E : Env).

(** The record a [confirm_scan] builds from its payload at tick [k], as
    [SaveNutritionalInfo] sends it to the database. *)
Definition confirmed_info (data : gmap string any) (id : string) (k : nat)
  : NutritionalInfo.t :=
  NutritionalInfo.mk id
    (float64_field data "total_weight" (f64.of_Z 100))
    (float64_field data "calories" f64.zero)
    (float64_field data "protein" f64.zero)
    (float64_field data "carbs" f64.zero)
    (float64_field data "fat" f64.zero)
    (float64_field data "fiber" f64.zero)
    (float64_field data "sugar" f64.zero)
    ""
    (if time.IsZero (time_Now E k) then time_Now E (2 + k) else time_Now E k)
    (time_Now E (2 + k)).

(** The row of [nutrition_scans] the same [confirm_scan] writes. *)
Definition confirmed_scan (imageData : list Byte.byte) (k : nat)
  : nutrition_scans.row :=
  nutrition_scans.mk (uuid_New E (4 + k)) imageData "completed" ""
    (if time.IsZero (time_Now E (5 + k)) then time_Now E (7 + k)
     else time_Now E (5 + k))
    (time_Now E (7 + k)).

(** The record a successful [scan] sends back, drawn at tick [k]: the
    model's values under a new identifier, with the client's weight. *)
Definition scanned_info (totalWeight : float64) (draft : NutritionalInfo.t)
    (k : nat) : NutritionalInfo.t :=
  NutritionalInfo.mk (uuid_New E (1 + k)) totalWeight
    (NutritionalInfo.Calories draft) (NutritionalInfo.Protein draft)
    (NutritionalInfo.Carbs draft) (NutritionalInfo.Fat draft)
    (NutritionalInfo.Fiber draft) (NutritionalInfo.Sugar draft)
    (NutritionalInfo.ImagePath draft)
    (time_Now E (2 + k)) (time_Now E (3 + k)).

(** What one step can do to the pending scans, to the identifiers sent
    and to the stored scans: nothing that adds to them, a successful
    [scan], or a successful [confirm_scan]. *)
Inductive effect (w w' : World) : Prop :=
| effect_quiet :
    tick w <= tick w' ->
    tempImageData w' ⊆ tempImageData w ->
    issued w' = issued w ->
    scans w' = scans w ->
    analyzed w `prefix_of` analyzed w' ->
    stored w w' ->
    effect w w'
| effect_scan (img : list Byte.byte) :
    tick w' = 4 + tick w ->
    tempImageData w' = <[uuid_New E (1 + tick w) := ABytes img]> (tempImageData w) ->
    issued w' = issued w ++ [uuid_New E (1 + tick w)] ->
    scans w' = scans w ->
    analyzed w' = analyzed w ++ [img] ->
    stored w w' ->
    effect w w'
| effect_confirm (id : string) (img : list Byte.byte) :
    tick w' = 9 + tick w ->
    tempImageData w !! id = Some (ABytes img) ->
    tempImageData w' = delete id (tempImageData w) ->
    issued w' = issued w ->
    scans w' = replace_scan (confirmed_scan img (tick w)) (scans w) ->
    analyzed w' = analyzed w ->
    stored w w' ->
    effect w w'.

(** The records that pass the week filter, and those that would pass the
    day filter on its own. *)
Definition counts_week (now : time.Time) (info : NutritionalInfo.t) : bool :=
  time.After (NutritionalInfo.CreatedAt info) (startOfWeek E now).

Definition counts_day (now : time.Time) (info : NutritionalInfo.t) : bool :=
  time.After (NutritionalInfo.CreatedAt info) (startOfDay E now).

End Outcomes.

(** ** Runs of the server *)

Section Runs.
Context (E : Env).
Context (nutritional_info0 : list NutritionalInfo.t).
Context (scans0 : list nutrition_scans.row).

(** The worlds a server started on the given database can be in. *)
Definition reachable (w : World) : Prop :=
  exists evs, w = run E (New nutritional_info0 scans0) evs.

(** Only [handleScan] stores into [tempImageData]: what is pending is a
    byte slice, under an identifier that was sent in a [scan_result]. *)
Definition pending_issued (w : World) : Prop :=
  forall id v, tempImageData w !! id = Some v ->
    (exists img, v = ABytes img /\ img ∈ analyzed w) /\ id ∈ issued w.

(** What was sent in a [scan_result] was drawn from [uuid.New] before. *)
Definition issued_drawn (w : World) : Prop :=
  forall id, id ∈ issued w -> exists k, k < tick w /\ id = uuid_New E k.

(** With identifiers that are never drawn twice: what was sent was drawn
    before and sent once, what was stored is ["completed"] under an
    identifier drawn before, and no stored scan carries an identifier that
    was sent. *)
Record ids_ok (w : World) : Prop := {
  ids_issued_drawn : issued_drawn w;
  issued_NoDup : NoDup (issued w);
  scans_drawn : forall r, r ∈ scans w ->
    r ∈ scans0
    \/ (nutrition_scans.status r = "completed"
        /\ nutrition_scans.error r = ""
        /\ exists k, k < tick w /\ nutrition_scans.id r = uuid_New E k);
  scans_not_issued : forall r id, r ∈ scans w -> id ∈ issued w ->
    nutrition_scans.id r <> id
}.

End Runs.

(** ** Binary64 numbers as integers

    A non-negative binary64 number is a whole number of units of 2^-1074;
    [+infinity] is given the value 2^1024 (that is [2 ^ 2098] units), the
    first power of two that is not a binary64 number. *)

(** The quotient of [n] by [2 ^ s], rounded to nearest, ties to even. *)
Definition rnq (n s : Z) : Z :=
  let q := (n / 2 ^ s)%Z in
  let r := (n mod 2 ^ s)%Z in
  if (2 * r <? 2 ^ s)%Z then q
  else if (2 * r =? 2 ^ s)%Z then (if Z.even q then q else (q + 1)%Z)
  else (q + 1)%Z.

(** The position at which a number of units is rounded: what lies beyond
    its 53 leading digits. *)
Definition round_pos (n : Z) : Z := Z.max (Zdigits2 n - 53) 0.

Definition round64 (n : Z) : Z := (rnq n (round_pos n) * 2 ^ round_pos n)%Z.

Definition top64 : Z := (2 ^ 2098)%Z.

Definition round64_capped (n : Z) : Z := Z.min (round64 n) top64.

Definition value64 (x : float64) : Z :=
  match x with
  | S754_finite false m e => (Zpos m * 2 ^ (e + 1074))%Z
  | S754_infinity false => top64
  | _ => 0%Z
  end.

(** A well formed binary64 number that is zero, positive or [+infinity]. *)
Definition nonneg64 (x : float64) : Prop :=
  valid_binary f64.prec f64.emax x = true /\ f64.leb f64.zero x = true.

Definition fexp64 (x : Z) : Z := Z.max (x - 53) (-1074).

(** The four values that the totals add up are well formed and not
    negative. *)
Definition macros_nonneg (info : NutritionalInfo.t) : Prop :=
  nonneg64 (NutritionalInfo.Calories info)
  /\ nonneg64 (NutritionalInfo.Protein info)
  /\ nonneg64 (NutritionalInfo.Carbs info)
  /\ nonneg64 (NutritionalInfo.Fat info).

Definition totals_nonneg (s : Totals.t) : Prop :=
  nonneg64 (Totals.Calories s) /\ nonneg64 (Totals.Protein s)
  /\ nonneg64 (Totals.Carbs s) /\ nonneg64 (Totals.Fat s).

(** Each component of [a] is less than or equal to that of [b]. *)
Definition totals_le (a b : Totals.t) : Prop :=
  f64.leb (Totals.Calories a) (Totals.Calories b) = true
  /\ f64.leb (Totals.Protein a) (Totals.Protein b) = true
  /\ f64.leb (Totals.Carbs a) (Totals.Carbs b) = true
  /\ f64.leb (Totals.Fat a) (Totals.Fat b) = true.

(** Two records that differ at most in what the totals do not read. *)
Definition same_macros (a b : NutritionalInfo.t) : Prop :=
  NutritionalInfo.CreatedAt a = NutritionalInfo.CreatedAt b
  /\ NutritionalInfo.Calories a = NutritionalInfo.Calories b
  /\ NutritionalInfo.Protein a = NutritionalInfo.Protein b
  /\ NutritionalInfo.Carbs a = NutritionalInfo.Carbs b
  /\ NutritionalInfo.Fat a = NutritionalInfo.Fat b.

(** ** A small environment to run the handlers in

    Identifiers are the decimal numerals of the tick they are drawn at,
    the clock advances by one minute per reading from 2024-01-03 12:00 UTC
    (a Wednesday), the server runs in UTC, the model reads every image as an
    apple and the database accepts every statement. Of the two decoders
    only the entries used below are given: the base64 text of [apple], and
    the JSON texts of a [scan], of a [ping] and of a [get_history]
    message. The driver stores a time as [utc_text] prints it, and
    [time.Parse], which wants a [T] between the date and the time of day,
    reads none of these texts (other texts are not parsed below). *)

(** The civil date [(year, month, day)] of a day counted from
    1970-01-01. *)
Definition civil_of_days (day : Z) : Z * Z * Z :=
  let z := (day + 719468)%Z in
  let era := (z / 146097)%Z in
  let doe := (z - era * 146097)%Z in
  let yoe := ((doe - doe / 1460 + doe / 36524 - doe / 146096) / 365)%Z in
  let doy := (doe - (365 * yoe + yoe / 4 - yoe / 100))%Z in
  let mp := ((5 * doy + 2) / 153)%Z in
  let d := (doy - (153 * mp + 2) / 5 + 1)%Z in
  let m := (if mp <? 10 then mp + 3 else mp - 9)%Z in
  ((yoe + era * 400 + (if m <=? 2 then 1 else 0))%Z, m, d).

(** The last [width] decimal digits of [n]. *)
Fixpoint digits (width : nat) (n : Z) : string :=
  match width with
  | 0 => ""
  | S width' => digits width' (n / 10) +:+ pretty (n mod 10)%Z
  end.

(** The same without the zeros at the end. *)
Fixpoint significant_digits (width : nat) (n : Z) : string :=
  match width with
  | 0 => ""
  | S width' =>
      if (n mod 10 =? 0)%Z then significant_digits width' (n / 10)
      else digits width n
  end.

(** [t.String()] for a time in UTC, as in
    ["2006-01-02 15:04:05.999999999 +0000 UTC"] (the reading of the
    monotonic clock, which follows when the time was read from the clock,
    is left out). *)
Definition utc_text (t : time.Time) : string :=
  let '(y, m, d) := civil_of_days (t / time.nsPerDay) in
  let ns := (t mod time.nsPerDay)%Z in
  let s := (ns / time.nsPerSecond)%Z in
  let fraction := (ns mod time.nsPerSecond)%Z in
  digits 4 y +:+ "-" +:+ digits 2 m +:+ "-" +:+ digits 2 d +:+ " "
  +:+ digits 2 (s / 3600) +:+ ":" +:+ digits 2 (s / 60 mod 60) +:+ ":"
  +:+ digits 2 (s mod 60)
  +:+ (if (fraction =? 0)%Z then ""
       else "." +:+ significant_digits 9 fraction)
  +:+ " +0000 UTC".

Definition quoted (s : string) : list Byte.byte :=
  [Byte.x22] ++ String.list_byte_of_string s ++ [Byte.x22].

(** The bytes of the JSON object with the one field [type]. *)
Definition message_of_type (t : string) : list Byte.byte :=
  String.list_byte_of_string "{" ++ quoted "type"
  ++ String.list_byte_of_string ":" ++ quoted t
  ++ String.list_byte_of_string "}".

Definition apple : NutritionalInfo.t :=
  NutritionalInfo.mk "draft" f64.zero (f64.of_Z 52) (f64.of_Z 1) (f64.of_Z 14)
    (f64.of_Z 0) (f64.of_Z 2) (f64.of_Z 10) "" time.zero time.zero.

Definition noon : time.Time := (1704283200 * time.nsPerSecond)%Z.

Definition scan_apple : gmap string any :=
  {[ "image" := AString "YXBwbGU="; "totalWeight" := AFloat64 (f64.of_Z 250) ]}.

(** The bytes of a [scan] message carrying [scan_apple]. *)
Definition scan_apple_text : list Byte.byte :=
  String.list_byte_of_string "{" ++ quoted "type"
  ++ String.list_byte_of_string ":" ++ quoted "scan"
  ++ String.list_byte_of_string "," ++ quoted "data"
  ++ String.list_byte_of_string ":{" ++ quoted "image"
  ++ String.list_byte_of_string ":" ++ quoted "YXBwbGU="
  ++ String.list_byte_of_string "," ++ quoted "totalWeight"
  ++ String.list_byte_of_string ":250}}".

Definition small_env : Env :=
  mkEnv (fun k => pretty k)
        (fun k => (noon + Z.of_nat k * 60 * time.nsPerSecond)%Z)
        0%Z
        (fun _ _ => inl apple)
        (fun _ => None)
        (fun _ => None)
        (fun s =>
           if String.eqb s "YXBwbGU="
           then Some (String.list_byte_of_string "apple") else None)
        (fun message =>
           if List.list_eq_dec Byte.byte_eq_dec message scan_apple_text
           then Some {[ "type" := AString "scan"; "data" := AMap scan_apple ]}
           else if List.list_eq_dec Byte.byte_eq_dec message
                     (message_of_type "ping")
           then Some {[ "type" := AString "ping" ]}
           else if List.list_eq_dec Byte.byte_eq_dec message
                     (message_of_type "get_history")
           then Some {[ "type" := AString "get_history" ]}
           else None)
        utc_text
        (fun _ => None).

(** The world after one successful [scan] on connection 7: the identifier
    ["1"] is pending. *)
Definition one_pending : World :=
  exec (handleScan small_env 7 scan_apple) (New [] []).

(** A database that refuses the statement sent at tick 12 (that of
    [SaveScan], when a [confirm_scan] follows the [scan] of [one_pending])
    and accepts every other one. *)
Definition scan_refused_env : Env :=
  mkEnv (uuid_New small_env) (time_Now small_env) (Local small_env)
        (ProcessImage small_env)
        (fun k => if Nat.eqb k 12 then Some "disk full" else None)
        (QueryContext_err small_env)
        (base64_DecodeString small_env) (json_Unmarshal small_env)
        (driver_time_text small_env) (time_Parse_RFC3339 small_env).

Definition confirm_apple : gmap string any :=
  {[ "id" := AString "1"; "total_weight" := AFloat64 (f64.of_Z 250);
     "calories" := AFloat64 (f64.of_Z 52); "protein" := AString "a lot";
     "carbs" := AFloat64 (f64.of_Z 14) ]}.

(** An apple eaten at the given instant. *)
Definition apple_at (t : time.Time) : NutritionalInfo.t :=
  NutritionalInfo.with_times t t apple.

(** 2023-12-31 00:00 UTC, the Sunday before [noon], and 2024-01-03 00:00. *)
Definition sunday_midnight : time.Time := (1703980800 * time.nsPerSecond)%Z.
Definition wednesday_midnight : time.Time := (1704240000 * time.nsPerSecond)%Z.

(** A correction entered by hand: 40 kcal taken back. *)
Definition refund_at (t : time.Time) : NutritionalInfo.t :=
  NutritionalInfo.mk "refund" (f64.of_Z 100) (f64.of_Z (-40)) f64.zero
    f64.zero f64.zero f64.zero f64.zero "" t t.


(** * More of the code

    The methods of the repository that the handlers do not call, the two
    models of [internal/ml] behind [model.ProcessImage], and the loader of
    [internal/config]. *)

(** ** internal/database: [GetNutritionalInfo] and [UpdateScanStatus] *)

Module schema.
(** [CHECK(status IN ('pending', 'processing', 'completed', 'failed'))] *)
Definition status_allowed (status : string) : bool :=
  String.eqb status "pending" || String.eqb status "processing"
  || String.eqb status "completed" || String.eqb status "failed".
End schema.

Section Repository.
Context (E : Env).
(** The error of the driver for a row that violates the [CHECK]. *)
Context (check_failed : error).
(** The error of [Scan] for a column that holds a text and a destination
    of type [*time.Time]. *)
Context (scan_failed : error).

(** [(nil, nil)] when no row has the id, [(nil, err)] when the query
    fails. When a row has the id, [Scan] is given [&info.CreatedAt] for
    the column [created_at], which is [TEXT]: it fails, and the row is
    not returned. *)
Definition GetNutritionalInfo (id : string)
  : M (option NutritionalInfo.t + error) :=
  k <- next_tick;;
  match QueryContext_err E k with
  | Some err => ret (inr err)
  | None =>
      tbl <- get nutritional_info;;
      match select_by_id id tbl with
      | None => ret (inl None)
      | Some _ => ret (inr scan_failed)
      end
  end.

(** [UPDATE nutrition_scans SET status = ?, error = ?, updated_at = ?
    WHERE id = ?] *)
Definition update_scan_status (id status errMsg : string) (now : time.Time)
    (tbl : list nutrition_scans.row) : list nutrition_scans.row :=
  (fun r =>
     if String.eqb (nutrition_scans.id r) id
     then nutrition_scans.mk (nutrition_scans.id r)
            (nutrition_scans.image_data r) status errMsg
            (nutrition_scans.created_at r) now
     else r) <$> tbl.

(** The statement is refused by the database for a reason of its own, or
    because a row it updates would break the [CHECK] on [status]; a
    statement that matches no row updates nothing and succeeds. *)
Definition UpdateScanStatus (id status errMsg : string) : M (option error) :=
  now <- Now E;;
  k <- next_tick;;
  match ExecContext_err E k with
  | Some err => ret (Some err)
  | None =>
      tbl <- get scans;;
      if existsb (fun r => String.eqb (nutrition_scans.id r) id) tbl
         && negb (schema.status_allowed status)
      then ret (Some check_failed)
      else set_scans (update_scan_status id status errMsg now tbl);;;
           ret None
  end.

End Repository.

(** ** internal/ml: the local model *)

Module LocalModel.
Definition Load : option error := None.

Definition ProcessImage (imageData : list Byte.byte)
  : NutritionalInfo.t + error :=
  inr "unimplemented: local model processing not yet implemented".
End LocalModel.

(** ** internal/ml: the Google model *)

Module GoogleModel.

(** The anonymous struct [output]. *)
Record output : Type := mk_output {
  Error_ErrorReason : string;
  Error_Suggestion : string;
  Success_Calories : float64;
  Success_Protein : float64;
  Success_Carbs : float64;
  Success_Fat : float64;
  Success_Fiber : float64;
  Success_Sugar : float64
}.

(** What the model and the Go library decide: the candidates of
    [GenerateContent], each one the parts of its content as [%v] prints
    them ([None] for a candidate without content), and the two calls of
    [json.Unmarshal], into a map and into [output]. *)
Record Gemini : Type := mk_Gemini {
  GenerateContent : list Byte.byte -> list (option (list string)) + error;
  Unmarshal_map : string -> gmap string any + error;
  Unmarshal_output : string -> output + error
}.

(** A call returns, or dereferences a nil pointer. *)
Inductive outcome : Type :=
| returned (r : NutritionalInfo.t + error)
| panicked.

Definition newline : string := String (Ascii.ascii_of_nat 10) "".

(** [" ```json\n"] and ["\n```"] *)
Definition fence_open : string := " ```json" +:+ newline.
Definition fence_close : string := newline +:+ "```".

Fixpoint strip_prefix (prefix s : string) : option string :=
  match prefix, s with
  | EmptyString, _ => Some s
  | String p prefix', String c s' =>
      if Ascii.eqb p c then strip_prefix prefix' s' else None
  | String _ _, EmptyString => None
  end.

(** [strings.TrimPrefix] *)
Definition TrimPrefix (s prefix : string) : string :=
  default s (strip_prefix prefix s).

(** [strings.TrimSuffix]: [s] up to the place where what remains is
    [suffix], if there is one. *)
Fixpoint TrimSuffix (s suffix : string) : string :=
  if String.eqb s suffix then ""
  else match s with
       | EmptyString => ""
       | String c s' => String c (TrimSuffix s' suffix)
       end.

Definition requiredFields : list string :=
  ["calories"; "protein"; "carbs"; "fat"].

(** The first required field that [successObj] lacks. *)
Definition missing_field (successObj : gmap string any) : option string :=
  List.find
    (fun field =>
       match successObj !! field with
       | None => true
       | Some _ => false
       end)
    requiredFields.

(** [loaded] tells whether [m.model] is set, [new_uuid] is what
    [uuid.New().String()] returns if it is called. *)
Definition ProcessImage (G : Gemini) (loaded : bool) (new_uuid : string)
    (imageData : list Byte.byte) : outcome :=
  if negb loaded then returned (inr "model not loaded")
  else
    match GenerateContent G imageData with
    | inr err => returned (inr ("failed to call ai: " +:+ err))
    | inl [] => returned (inr "no response generated")
    | inl (None :: _) => panicked
    | inl (Some [] :: _) => returned (inr "no content in response")
    | inl (Some (part :: _) :: _) =>
        let textContent := TrimPrefix part fence_open in
        let textContent := TrimSuffix textContent fence_close in
        match Unmarshal_map G textContent with
        | inr err =>
            returned (inr ("failed to parse model response: " +:+ err
                           +:+ " while parsing " +:+ textContent))
        | inl rawMap =>
            match rawMap !! "success" with
            | Some (AMap successObj) =>
                match missing_field successObj with
                | Some field =>
                    returned (inr ("missing required field '" +:+ field
                                   +:+ "' in response"))
                | None =>
                    match Unmarshal_output G textContent with
                    | inr err =>
                        returned
                          (inr ("failed to parse model response: " +:+ err))
                    | inl output =>
                        if negb (String.eqb (Error_ErrorReason output) "")
                        then returned
                               (inr ("error: " +:+ Error_ErrorReason output
                                     +:+ "; suggestion: "
                                     +:+ Error_Suggestion output))
                        else returned
                               (inl (NutritionalInfo.mk new_uuid f64.zero
                                       (Success_Calories output)
                                       (Success_Protein output)
                                       (Success_Carbs output)
                                       (Success_Fat output)
                                       (Success_Fiber output)
                                       (Success_Sugar output)
                                       "" time.zero time.zero))
                    end
                end
            | _ =>
                returned
                  (inr "missing or invalid success object in response")
            end
        end
    end.

End GoogleModel.

(** ** internal/config *)

Module config.

Record Config : Type := mk {
  Server_Port : string;
  Server_StaticDir : string;
  Server_Debug : bool;
  Database_Path : string;
  ML_Type : string
}.

Section LoadConfig.
(** [os.ReadFile], and [json.Unmarshal] into a zero [Config]. *)
Context (ReadFile : string -> list Byte.byte + error).
Context (Unmarshal : list Byte.byte -> Config + error).

Definition LoadConfig (configPath : string) : Config + error :=
  match ReadFile configPath with
  | inr err => inr ("failed to read config file: " +:+ err)
  | inl data =>
      match Unmarshal data with
      | inr err => inr ("failed to parse config file: " +:+ err)
      | inl config =>
          if String.eqb (Server_Port config) ""
          then inr "server port is not set in config file"
          else
            let config :=
              if String.eqb (Server_StaticDir config) ""
              then mk (Server_Port config) "./static" (Server_Debug config)
                     (Database_Path config) (ML_Type config)
              else config in
            let config :=
              if String.eqb (Database_Path config) ""
              then mk (Server_Port config) (Server_StaticDir config)
                     (Server_Debug config) "nutritional.db" (ML_Type config)
              else config in
            inl config
      end
  end.

End LoadConfig.

End config.

(** * Stating further properties *)

(** The primary keys of [nutritional_info], in rowid order. *)
Definition info_ids (tbl : list NutritionalInfo.t) : list string :=
  NutritionalInfo.ID <$> tbl.

(** The number of [scan_saved] written so far. *)
Definition saved (w : World) : nat := length (sent_of_type "scan_saved" w).

(** A midnight of the zone [loc]. *)
Definition local_midnight (loc : time.Location) (t : time.Time) : Prop :=
  ((t + loc * time.nsPerSecond) mod time.nsPerDay = 0)%Z.

(** A handler writes one message, to the connection it was called with,
    and leaves the registry of connections alone. *)
Definition answers (conn : Conn) (w w' : World) : Prop :=
  (exists m, wire w' = wire w ++ [(conn, m)]) /\ clients w' = clients w.

(** The server runs the local model. *)
Definition runs_LocalModel (E : Env) : Prop :=
  forall k img, ProcessImage E k img = LocalModel.ProcessImage img.

Section Changes.
Context (E : Env).

(** What one step can do to the pending scans and to the two tables,
    with what it writes: nothing, a [scan] that the model answered, a
    [confirm_scan] that the database refused, or one that was saved. *)
Inductive change (w w' : World) : Prop :=
| change_none :
    tempImageData w' = tempImageData w ->
    nutritional_info w' = nutritional_info w ->
    scans w' = scans w ->
    issued w' = issued w ->
    saved w' = saved w ->
    change w w'
| change_scanned (img : list Byte.byte) (draft : NutritionalInfo.t) :
    ProcessImage E (tick w) img = inl draft ->
    tempImageData w'
    = <[uuid_New E (1 + tick w) := ABytes img]> (tempImageData w) ->
    nutritional_info w' = nutritional_info w ->
    scans w' = scans w ->
    issued w' = issued w ++ [uuid_New E (1 + tick w)] ->
    saved w' = saved w ->
    change w w'
| change_refused (data : gmap string any) (id : string)
    (img : list Byte.byte) :
    tempImageData w !! id = Some (ABytes img) ->
    tempImageData w' = delete id (tempImageData w) ->
    nutritional_info w' = nutritional_info w
    \/ nutritional_info w'
       = upsert_nutritional_info (confirmed_info E data id (tick w))
           (nutritional_info w) ->
    scans w' = scans w ->
    issued w' = issued w ->
    saved w' = saved w ->
    change w w'
| change_saved (data : gmap string any) (id : string)
    (img : list Byte.byte) :
    tempImageData w !! id = Some (ABytes img) ->
    tempImageData w' = delete id (tempImageData w) ->
    nutritional_info w'
    = upsert_nutritional_info (confirmed_info E data id (tick w))
        (nutritional_info w) ->
    scans w' = replace_scan (confirmed_scan E img (tick w)) (scans w) ->
    issued w' = issued w ->
    saved w' = S (saved w) ->
    change w w'.

End Changes.

(** ** More environments and data to run the code on *)

(** [small_env] with the local model behind [model.ProcessImage]. *)
Definition local_env : Env :=
  mkEnv (uuid_New small_env) (time_Now small_env) (Local small_env)
        (fun _ => LocalModel.ProcessImage)
        (ExecContext_err small_env) (QueryContext_err small_env)
        (base64_DecodeString small_env) (json_Unmarshal small_env)
        (driver_time_text small_env) (time_Parse_RFC3339 small_env).

(** [small_env] with a database that refuses every query. *)
Definition query_refused_env : Env :=
  mkEnv (uuid_New small_env) (time_Now small_env) (Local small_env)
        (ProcessImage small_env) (ExecContext_err small_env)
        (fun _ => Some "database is locked")
        (base64_DecodeString small_env) (json_Unmarshal small_env)
        (driver_time_text small_env) (time_Parse_RFC3339 small_env).

(** The world after the scan of [one_pending] was confirmed. *)
Definition one_saved : World :=
  exec (handleConfirmScan small_env 7 confirm_apple) one_pending.

(** A scan that is being processed. *)
Definition processing_row : nutrition_scans.row :=
  nutrition_scans.mk "s1" (String.list_byte_of_string "apple") "processing"
    "" wednesday_midnight wednesday_midnight.

Definition one_processing : World :=
  mkWorld ∅ ∅ [] [processing_row] [] [] 0.

(** A string between double quotes. *)
Definition in_quotes (s : string) : string :=
  String (Ascii.ascii_of_nat 34) s +:+ String (Ascii.ascii_of_nat 34) "".

(** A response of the model as the prompt asks for it, between fences:
    a JSON text with a [success] object that holds the four required
    values and neither fiber nor sugar, and the two decoders on it. *)
Definition apple_body : string :=
  "{" +:+ in_quotes "success" +:+ ":{" +:+ in_quotes "calories" +:+ ":52,"
  +:+ in_quotes "protein" +:+ ":1," +:+ in_quotes "carbs" +:+ ":14,"
  +:+ in_quotes "fat" +:+ ":0}}".

Definition apple_success : gmap string any :=
  {[ "calories" := AFloat64 (f64.of_Z 52); "protein" := AFloat64 (f64.of_Z 1);
     "carbs" := AFloat64 (f64.of_Z 14); "fat" := AFloat64 (f64.of_Z 0) ]}.

Definition apple_output : GoogleModel.output :=
  GoogleModel.mk_output "" "" (f64.of_Z 52) (f64.of_Z 1) (f64.of_Z 14)
    (f64.of_Z 0) f64.zero f64.zero.

Definition apple_gemini : GoogleModel.Gemini :=
  GoogleModel.mk_Gemini
    (fun _ =>
       inl [Some [GoogleModel.fence_open +:+ apple_body
                  +:+ GoogleModel.fence_close]])
    (fun text =>
       if String.eqb text apple_body
       then inl {[ "success" := AMap apple_success ]}
       else inr "invalid character")
    (fun text =>
       if String.eqb text apple_body then inl apple_output
       else inr "invalid character").

(** A model that reports a blurred picture the way the prompt asks for:
    an [error] object and no [success] object. *)
Definition blurred_output : GoogleModel.output :=
  GoogleModel.mk_output "image is blurred" "hold the camera still"
    f64.zero f64.zero f64.zero f64.zero f64.zero f64.zero.

Definition blurred_body : string :=
  "{" +:+ in_quotes "error" +:+ ":{" +:+ in_quotes "error_reason" +:+ ":"
  +:+ in_quotes "image is blurred" +:+ ","
  +:+ in_quotes "suggestion_for_better_results" +:+ ":"
  +:+ in_quotes "hold the camera still" +:+ "}}".

Definition blurred_gemini : GoogleModel.Gemini :=
  GoogleModel.mk_Gemini
    (fun _ => inl [Some [blurred_body]])
    (fun _ =>
       inl {[ "error" :=
                AMap {[ "error_reason" := AString "image is blurred";
                        "suggestion_for_better_results"
                        := AString "hold the camera still" ]} ]})
    (fun _ => inl blurred_output).

(** A configuration file that sets the port only. *)
Definition port_only : config.Config := config.mk "8080" "" false "" "".

Definition port_only_text : list Byte.byte :=
  String.list_byte_of_string "{" ++ quoted "server"
  ++ String.list_byte_of_string ":{" ++ quoted "port"
  ++ String.list_byte_of_string ":" ++ quoted "8080"
  ++ String.list_byte_of_string "}}".

Definition one_file (path : string) : list Byte.byte + error :=
  if String.eqb path "config.json" then inl port_only_text
  else inr "no such file or directory".

Definition read_port_only (data : list Byte.byte) : config.Config + error :=
  inl port_only.

(** The bytes of a [confirm_scan] message carrying [confirm_apple]. *)
Definition confirm_apple_text : list Byte.byte :=
  String.list_byte_of_string "{" ++ quoted "type"
  ++ String.list_byte_of_string ":" ++ quoted "confirm_scan"
  ++ String.list_byte_of_string "," ++ quoted "data"
  ++ String.list_byte_of_string ":{" ++ quoted "id"
  ++ String.list_byte_of_string ":" ++ quoted "1"
  ++ String.list_byte_of_string "," ++ quoted "total_weight"
  ++ String.list_byte_of_string ":250," ++ quoted "calories"
  ++ String.list_byte_of_string ":52," ++ quoted "protein"
  ++ String.list_byte_of_string ":" ++ quoted "a lot"
  ++ String.list_byte_of_string "," ++ quoted "carbs"
  ++ String.list_byte_of_string ":14}}".

(** [small_env] with a decoder that reads this message as well. *)
Definition chat_env : Env :=
  mkEnv (uuid_New small_env) (time_Now small_env) (Local small_env)
        (ProcessImage small_env) (ExecContext_err small_env)
        (QueryContext_err small_env) (base64_DecodeString small_env)
        (fun message =>
           if List.list_eq_dec Byte.byte_eq_dec message confirm_apple_text
           then Some {[ "type" := AString "confirm_scan";
                        "data" := AMap confirm_apple ]}
           else json_Unmarshal small_env message)
        (driver_time_text small_env) (time_Parse_RFC3339 small_env).

(** A scan, its confirmation and a message that does not parse, all on
    connection 7. *)
Definition chat : list (list Byte.byte) :=
  [scan_apple_text; confirm_apple_text; [Byte.x7b; Byte.x7b]].

(** An apple to store under the id of [one_saved]'s record, stamped by
    the caller with the zero time. *)
Definition apple_again : NutritionalInfo.t :=
  NutritionalInfo.mk "1" (f64.of_Z 120) (f64.of_Z 52) (f64.of_Z 1)
    (f64.of_Z 14) (f64.of_Z 0) (f64.of_Z 2) (f64.of_Z 10) "" time.zero
    time.zero.

(** A scan to store under the id of [processing_row]. *)
Definition failed_scan : NutritionScan.t :=
  NutritionScan.mk "s1" (String.list_byte_of_string "pear") "failed"
    (Some apple) "no label found" time.zero time.zero.

(** What [UpdateScanStatus] may do to a row when it is called with [id]:
    the id, the image and the creation time stay, and a row under another
    id stays as a whole. *)
Definition same_scan (id : string) (old new : nutrition_scans.row) : Prop :=
  nutrition_scans.id new = nutrition_scans.id old
  /\ nutrition_scans.image_data new = nutrition_scans.image_data old
  /\ nutrition_scans.created_at new = nutrition_scans.created_at old
  /\ (nutrition_scans.id old <> id -> new = old).

(** The payload of the [confirm_scan] that the page sends for the scan
    result it was shown (app.js, the click on the confirm button): the id
    and the seven values of the result, as they came. *)
Definition confirm_payload (info : NutritionalInfo.t) : gmap string any :=
  {[ "id" := AString (NutritionalInfo.ID info);
     "total_weight" := AFloat64 (NutritionalInfo.TotalWeight info);
     "calories" := AFloat64 (NutritionalInfo.Calories info);
     "protein" := AFloat64 (NutritionalInfo.Protein info);
     "carbs" := AFloat64 (NutritionalInfo.Carbs info);
     "fat" := AFloat64 (NutritionalInfo.Fat info);
     "fiber" := AFloat64 (NutritionalInfo.Fiber info);
     "sugar" := AFloat64 (NutritionalInfo.Sugar info) ]}.

(** * Binary64 addition of non-negative numbers

    [SFadd] on well formed non-negative numbers is the exact sum of the
    values, rounded; the rounding is monotone and keeps the numbers that are
    representable. *)

Section Binary64.
Local Open Scope Z_scope.

(** ** Digits and shifts *)

Lemma digits2_pos_bounds (p : positive) :
  2 ^ (Zpos (digits2_pos p) - 1) <= Zpos p < 2 ^ Zpos (digits2_pos p).
Proof.
  induction p as [p IH|p IH|]; cbn [digits2_pos].
  - rewrite Pos2Z.inj_succ.
    replace (Z.succ (Zpos (digits2_pos p)) - 1) with (Zpos (digits2_pos p) - 1 + 1) by lia.
    rewrite !Z.pow_succ_r, Z.pow_add_r by lia. lia.
  - rewrite Pos2Z.inj_succ.
    replace (Z.succ (Zpos (digits2_pos p)) - 1) with (Zpos (digits2_pos p) - 1 + 1) by lia.
    rewrite !Z.pow_succ_r, Z.pow_add_r by lia. lia.
  - cbn. lia.
Qed.

(** [iter_pos] repeats its function as many times as [Nat.iter] does. *)
Lemma iter_pos_nat {A} (f : A -> A) (p : positive) (x : A) :
  SpecFloat.iter_pos f p x = Nat.iter (Pos.to_nat p) f x.
Proof.
  revert x. induction p as [p IH|p IH|]; intros x; cbn [SpecFloat.iter_pos].
  - rewrite !IH. rewrite Pos2Nat.inj_xI.
    replace (S (2 * Pos.to_nat p))%nat with (Pos.to_nat p + (Pos.to_nat p + 1))%nat by lia.
    rewrite !Nat.iter_add. cbn. reflexivity.
  - rewrite !IH. rewrite Pos2Nat.inj_xO.
    replace (2 * Pos.to_nat p)%nat with (Pos.to_nat p + Pos.to_nat p)%nat by lia.
    rewrite Nat.iter_add. reflexivity.
  - reflexivity.
Qed.

Lemma shr_1_spec m r s :
  0 <= m ->
  shr_1 (Build_shr_record m r s)
  = Build_shr_record (m / 2) (Z.odd m) (r || s).
Proof.
  intros Hm. destruct m as [|[p|p|]|p]; try lia; cbn [shr_1].
  - reflexivity.
  - replace (Zpos p~1 / 2) with (Zpos p); [reflexivity|].
    rewrite Pos2Z.inj_xI. apply Z.div_unique with 1; lia.
  - replace (Zpos p~0 / 2) with (Zpos p); [reflexivity|].
    rewrite Pos2Z.inj_xO. apply Z.div_unique with 0; lia.
  - reflexivity.
Qed.

(** After [k + 1] single shifts of an exact record: the quotient, the bit
    just below it, and whether anything lower is set. *)
Lemma shr_iter m k :
  0 <= m ->
  Nat.iter (S k) shr_1 (Build_shr_record m false false)
  = Build_shr_record (m / 2 ^ Z.of_nat (S k))
      (Z.odd (m / 2 ^ Z.of_nat k))
      (negb (m mod 2 ^ Z.of_nat k =? 0)).
Proof.
  intros Hm. induction k as [|k IH].
  - cbn [Nat.iter]. rewrite shr_1_spec by assumption.
    change (2 ^ Z.of_nat 1) with 2. change (2 ^ Z.of_nat 0) with 1.
    rewrite Z.div_1_r, Z.mod_1_r. reflexivity.
  - rewrite Nat.iter_succ, IH.
    assert (H2k : 0 < 2 ^ Z.of_nat k) by (apply Z.pow_pos_nonneg; lia).
    assert (H2k' : 2 ^ Z.of_nat (S k) = 2 ^ Z.of_nat k * 2)
      by (rewrite Nat2Z.inj_succ, Z.pow_succ_r; lia).
    assert (H2k'' : 2 ^ Z.of_nat (S (S k)) = 2 ^ Z.of_nat (S k) * 2)
      by (rewrite (Nat2Z.inj_succ (S k)), Z.pow_succ_r; lia).
    rewrite shr_1_spec by (apply Z.div_pos; lia).
    rewrite Z.div_div by lia. rewrite <- H2k''. f_equal.
    (* sticky: odd (m / 2^k) || (m mod 2^k <> 0)  =  m mod 2^(k+1) <> 0 *)
    rewrite H2k'. rewrite Z.rem_mul_r by lia.
    rewrite Zmod_odd.
    destruct (Z.odd (m / 2 ^ Z.of_nat k)); cbn [orb].
    + pose proof (Z.mod_pos_bound m (2 ^ Z.of_nat k) H2k).
      symmetry. apply negb_true_iff, Z.eqb_neq. lia.
    + rewrite Z.mul_0_r, Z.add_0_r. reflexivity.
Qed.

(** ** Rounding to nearest, ties to even, on integers *)

Lemma pow2_pos k : 0 <= k -> 0 < 2 ^ k.
Proof. intros. apply Z.pow_pos_nonneg; lia. Qed.

Lemma pow2_split a b : 0 <= a <= b -> 2 ^ b = 2 ^ a * 2 ^ (b - a).
Proof. intros. rewrite <- Z.pow_add_r by lia. f_equal. lia. Qed.

Lemma pow2_le a b : 0 <= a <= b -> 2 ^ a <= 2 ^ b.
Proof. intros. apply Z.pow_le_mono_r; lia. Qed.

Lemma pow2_lt a b : 0 <= a < b -> 2 ^ a < 2 ^ b.
Proof. intros. apply Z.pow_lt_mono_r; lia. Qed.

Lemma rnq_bounds n s :
  0 <= s -> n / 2 ^ s <= rnq n s <= n / 2 ^ s + 1.
Proof.
  intros Hs. unfold rnq.
  destruct (_ <? _); [lia|]. destruct (_ =? _); [|lia].
  destruct (Z.even _); lia.
Qed.

Lemma rnq_mono n1 n2 s :
  0 <= s -> n1 <= n2 -> rnq n1 s <= rnq n2 s.
Proof.
  intros Hs Hle. pose proof (pow2_pos s Hs) as HP.
  pose proof (Z.div_le_mono n1 n2 (2 ^ s) HP Hle) as Hq.
  pose proof (rnq_bounds n1 s Hs). pose proof (rnq_bounds n2 s Hs).
  destruct (Z.eq_dec (n1 / 2 ^ s) (n2 / 2 ^ s)) as [Heq|Hne]; [|lia].
  pose proof (Z.div_mod n1 (2 ^ s) ltac:(lia)) as H1.
  pose proof (Z.div_mod n2 (2 ^ s) ltac:(lia)) as H2.
  assert (Hr : n1 mod 2 ^ s <= n2 mod 2 ^ s) by (rewrite Heq in H1; lia).
  unfold rnq. rewrite Heq.
  destruct (Z.ltb_spec (2 * (n1 mod 2 ^ s)) (2 ^ s));
    destruct (Z.ltb_spec (2 * (n2 mod 2 ^ s)) (2 ^ s));
    destruct (Z.eqb_spec (2 * (n1 mod 2 ^ s)) (2 ^ s));
    destruct (Z.eqb_spec (2 * (n2 mod 2 ^ s)) (2 ^ s));
    destruct (Z.even (n2 / 2 ^ s)); lia.
Qed.

Lemma rnq_exact a s : 0 <= s -> rnq (a * 2 ^ s) s = a.
Proof.
  intros Hs. pose proof (pow2_pos s Hs) as HP. unfold rnq.
  rewrite Z.div_mul, Z.mod_mul by lia.
  destruct (Z.ltb_spec (2 * 0) (2 ^ s)); [reflexivity | lia].
Qed.

Lemma ltb_mul_r a b t : 0 < t -> (a * t <? b * t) = (a <? b).
Proof.
  intros. destruct (Z.ltb_spec a b), (Z.ltb_spec (a * t) (b * t));
    try reflexivity; nia.
Qed.

Lemma eqb_mul_r a b t : 0 < t -> (a * t =? b * t) = (a =? b).
Proof.
  intros. destruct (Z.eqb_spec a b), (Z.eqb_spec (a * t) (b * t));
    try reflexivity; nia.
Qed.

(** Scaling the number and the position by the same power of two does not
    change the rounded quotient. *)
Lemma rnq_scale n s t :
  0 <= s -> 0 <= t -> rnq (n * 2 ^ t) (s + t) = rnq n s.
Proof.
  intros Hs Ht. pose proof (pow2_pos s Hs) as HP. pose proof (pow2_pos t Ht) as HT.
  unfold rnq. rewrite Z.pow_add_r by lia.
  rewrite Z.div_mul_cancel_r by lia.
  rewrite Z.mul_mod_distr_r by lia.
  rewrite (Z.mul_assoc 2).
  now rewrite ltb_mul_r, eqb_mul_r by assumption.
Qed.

Lemma Zdigits2_bounds n :
  0 < n -> 2 ^ (Zdigits2 n - 1) <= n < 2 ^ Zdigits2 n.
Proof.
  destruct n as [|p|p]; try lia. intros _. apply digits2_pos_bounds.
Qed.

Lemma Zdigits2_pos n : 0 < n -> 0 < Zdigits2 n.
Proof. destruct n; cbn; lia. Qed.

Lemma Zdigits2_unique n k :
  0 < k -> 2 ^ (k - 1) <= n < 2 ^ k -> Zdigits2 n = k.
Proof.
  intros Hk [Hlo Hhi].
  assert (Hn : 0 < n) by (pose proof (pow2_pos (k - 1)); lia).
  pose proof (Zdigits2_bounds n Hn) as [Hlo' Hhi'].
  pose proof (Zdigits2_pos n Hn) as Hd.
  destruct (Z.lt_trichotomy (Zdigits2 n) k) as [Hlt|[Heq|Hgt]]; [|exact Heq|].
  - pose proof (pow2_le (Zdigits2 n) (k - 1) ltac:(lia)). lia.
  - pose proof (pow2_le k (Zdigits2 n - 1) ltac:(lia)). lia.
Qed.

Lemma Zdigits2_mono n1 n2 : 0 <= n1 <= n2 -> Zdigits2 n1 <= Zdigits2 n2.
Proof.
  intros [H1 H12]. destruct (Z.eq_dec n1 0) as [->|Hne].
  - destruct n2; cbn; lia.
  - pose proof (Zdigits2_bounds n1 ltac:(lia)) as [Hlo1 _].
    pose proof (Zdigits2_bounds n2 ltac:(lia)) as [_ Hhi2].
    pose proof (Zdigits2_pos n1 ltac:(lia)).
    destruct (Z.le_gt_cases (Zdigits2 n1) (Zdigits2 n2)) as [|Hgt]; [assumption|].
    pose proof (Zdigits2_pos n2 ltac:(lia)).
    pose proof (pow2_le (Zdigits2 n2) (Zdigits2 n1 - 1) ltac:(lia)). lia.
Qed.

Lemma Zdigits2_mul_pow2 n t :
  0 < n -> 0 <= t -> Zdigits2 (n * 2 ^ t) = Zdigits2 n + t.
Proof.
  intros Hn Ht. pose proof (Zdigits2_bounds n Hn) as [Hlo Hhi].
  pose proof (Zdigits2_pos n Hn). pose proof (pow2_pos t Ht).
  apply Zdigits2_unique; [lia|].
  replace (Zdigits2 n + t - 1) with (Zdigits2 n - 1 + t) by lia.
  rewrite !Z.pow_add_r by lia. nia.
Qed.

Lemma round_pos_nonneg n : 0 <= round_pos n.
Proof. unfold round_pos. lia. Qed.

Lemma round64_nonneg n : 0 <= n -> 0 <= round64 n.
Proof.
  intros Hn. unfold round64. pose proof (round_pos_nonneg n) as Hs.
  pose proof (pow2_pos _ Hs). pose proof (rnq_bounds n _ Hs).
  pose proof (Z.div_pos n (2 ^ round_pos n) Hn ltac:(lia)). nia.
Qed.

Lemma round64_mono n1 n2 : 0 <= n1 <= n2 -> round64 n1 <= round64 n2.
Proof.
  intros [H1 H12]. destruct (Z.eq_dec n1 0) as [->|Hne].
  { transitivity 0; [reflexivity | apply round64_nonneg; lia]. }
  assert (Hd : Zdigits2 n1 <= Zdigits2 n2) by (apply Zdigits2_mono; lia).
  pose proof (Zdigits2_pos n1 ltac:(lia)) as Hd1.
  pose proof (Zdigits2_bounds n1 ltac:(lia)) as [_ Hhi1].
  pose proof (Zdigits2_bounds n2 ltac:(lia)) as [Hlo2 _].
  unfold round64. set (s1 := round_pos n1). set (s2 := round_pos n2).
  assert (Hs1 : 0 <= s1) by apply round_pos_nonneg.
  assert (Hs2 : 0 <= s2) by apply round_pos_nonneg.
  pose proof (pow2_pos s1 Hs1). pose proof (pow2_pos s2 Hs2).
  destruct (Z.eq_dec s1 s2) as [Heq|Hneq].
  - rewrite <- Heq. pose proof (rnq_mono n1 n2 s1 Hs1 H12). nia.
  - assert (Hlt : s1 < s2) by (unfold s1, s2, round_pos in *; lia).
    assert (Hs1d : s1 <= Zdigits2 n1) by (unfold s1, round_pos; lia).
    assert (Hs2d : s2 = Zdigits2 n2 - 53) by (unfold s1, s2, round_pos in *; lia).
    assert (Hdd : Zdigits2 n1 < Zdigits2 n2) by (unfold s1, s2, round_pos in *; lia).
    transitivity (2 ^ Zdigits2 n1).
    + rewrite (pow2_split s1 (Zdigits2 n1)) by lia.
      rewrite (Z.mul_comm (2 ^ s1)).
      pose proof (rnq_mono n1 (2 ^ (Zdigits2 n1 - s1) * 2 ^ s1) s1 Hs1) as Hm.
      rewrite rnq_exact in Hm by lia.
      rewrite (pow2_split s1 (Zdigits2 n1)) in Hhi1 by lia. nia.
    + transitivity (2 ^ (Zdigits2 n2 - 1)); [apply pow2_le; lia|].
      replace (Zdigits2 n2 - 1) with (52 + s2) by lia.
      rewrite Z.pow_add_r by lia.
      pose proof (rnq_mono (2 ^ 52 * 2 ^ s2) n2 s2 Hs2) as Hm.
      rewrite rnq_exact in Hm by lia.
      replace (Zdigits2 n2 - 1) with (52 + s2) in Hlo2 by lia.
      rewrite Z.pow_add_r in Hlo2 by lia.
      specialize (Hm Hlo2). nia.
Qed.

Lemma round64_capped_mono n1 n2 : 0 <= n1 <= n2 -> round64_capped n1 <= round64_capped n2.
Proof. intros H. unfold round64_capped. pose proof (round64_mono n1 n2 H). lia. Qed.

(** ** What [binary_round] computes *)

Lemma fexp_64 x : fexp 53 1024 x = fexp64 x.
Proof. reflexivity. Qed.

Lemma bounded_64 m e :
  bounded 53 1024 m e = true
  <-> fexp64 (Zpos (digits2_pos m) + e) = e /\ e <= 971.
Proof.
  unfold bounded, canonical_mantissa. rewrite fexp_64.
  rewrite andb_true_iff, Z.eqb_eq, Z.leb_le. reflexivity.
Qed.

Lemma nonneg64_cases x :
  nonneg64 x <->
  (exists s, x = S754_zero s) \/ x = S754_infinity false
  \/ exists m e, x = S754_finite false m e
                 /\ fexp64 (Zpos (digits2_pos m) + e) = e /\ e <= 971.
Proof.
  unfold nonneg64. split.
  - intros [Hv Hle]. destruct x as [s|[|]| |[|] m e]; try discriminate; eauto.
    right. right. exists m, e. split; [reflexivity|]. now apply bounded_64.
  - intros [[s ->]|[->|(m & e & -> & H)]]; try (split; reflexivity).
    split; [now apply bounded_64 | reflexivity].
Qed.

Lemma pos_iter_xO m d : Zpos (Pos.iter xO m d) = Zpos m * 2 ^ Zpos d.
Proof.
  induction d as [|d IH] using Pos.peano_ind.
  - cbn. lia.
  - rewrite Pos.iter_succ, Pos2Z.inj_xO, IH, Pos2Z.inj_succ, Z.pow_succ_r; lia.
Qed.

Lemma shl_align_spec m e e' :
  let (m', e'') := shl_align m e e' in
  e'' = Z.min e e' /\ Zpos m' = Zpos m * 2 ^ (e - e'').
Proof.
  unfold shl_align. destruct (e' - e) as [|d|d] eqn:Hd.
  - split; [lia|]. replace (e - e) with 0 by lia. lia.
  - split; [lia|]. replace (e - e) with 0 by lia. lia.
  - split; [lia|]. rewrite pos_iter_xO. f_equal. f_equal. lia.
Qed.

(** A mantissa that is already in canonical position is kept as it is. *)
Lemma binary_round_aux_canonical m e :
  fexp64 (Zpos (digits2_pos m) + e) = e ->
  binary_round_aux 53 1024 false (Zpos m) e loc_Exact
  = if e <=? 971 then S754_finite false m e else S754_infinity false.
Proof.
  intros Hcan. unfold binary_round_aux, shr_fexp. cbn [Zdigits2].
  rewrite fexp_64, Hcan, Z.sub_diag. cbn [shr shr_record_of_loc].
  cbn [shr_m loc_of_shr_record round_nearest_even Zdigits2].
  rewrite fexp_64, Hcan, Z.sub_diag. cbn [shr shr_record_of_loc shr_m].
  reflexivity.
Qed.

Lemma below_top q x : q < 2 ^ 53 -> 0 <= x <= 2045 -> q * 2 ^ x < top64.
Proof.
  intros Hq Hx. pose proof (pow2_pos x ltac:(lia)).
  apply Z.lt_le_trans with (2 ^ 53 * 2 ^ x); [nia|].
  rewrite <- Z.pow_add_r by lia. apply pow2_le. lia.
Qed.

Lemma above_top q x : 2 ^ 52 <= q -> 2046 <= x -> top64 <= q * 2 ^ x.
Proof.
  intros Hq Hx. pose proof (pow2_pos x ltac:(lia)).
  apply Z.le_trans with (2 ^ 52 * 2 ^ x); [|nia].
  rewrite <- Z.pow_add_r by lia. apply pow2_le. lia.
Qed.

(** What the guard and sticky bits of a shifted record say is where the
    remainder stands with respect to the half. *)
Lemma round_nearest_even_record m k :
  0 <= m -> 0 <= k ->
  round_nearest_even (m / 2 ^ (k + 1))
    (loc_of_shr_record
       (Build_shr_record (m / 2 ^ (k + 1)) (Z.odd (m / 2 ^ k))
          (negb (m mod 2 ^ k =? 0))))
  = rnq m (k + 1).
Proof.
  intros Hm Hk. pose proof (pow2_pos k Hk) as HP.
  unfold rnq. rewrite Z.pow_add_r by lia. change (2 ^ 1) with 2.
  rewrite Z.rem_mul_r by lia. rewrite Zmod_odd.
  pose proof (Z.mod_pos_bound m (2 ^ k) HP) as Hlow.
  destruct (Z.odd (m / 2 ^ k)); destruct (Z.eqb_spec (m mod 2 ^ k) 0) as [H0|H0];
    cbn [negb loc_of_shr_record round_nearest_even].
  - rewrite H0.
    destruct (Z.ltb_spec (2 * (0 + 2 ^ k * 1)) (2 ^ k * 2)); [lia|].
    destruct (Z.eqb_spec (2 * (0 + 2 ^ k * 1)) (2 ^ k * 2)); [reflexivity | lia].
  - destruct (Z.ltb_spec (2 * (m mod 2 ^ k + 2 ^ k * 1)) (2 ^ k * 2)); [lia|].
    destruct (Z.eqb_spec (2 * (m mod 2 ^ k + 2 ^ k * 1)) (2 ^ k * 2));
      [lia | reflexivity].
  - rewrite H0.
    destruct (Z.ltb_spec (2 * (0 + 2 ^ k * 0)) (2 ^ k * 2)); [reflexivity | lia].
  - destruct (Z.ltb_spec (2 * (m mod 2 ^ k + 2 ^ k * 0)) (2 ^ k * 2));
      [reflexivity | lia].
Qed.

Lemma shr_shift m p :
  let mrs := SpecFloat.iter_pos shr_1 p (Build_shr_record (Zpos m) false false) in
  shr_m mrs = Zpos m / 2 ^ Zpos p
  /\ round_nearest_even (shr_m mrs) (loc_of_shr_record mrs) = rnq (Zpos m) (Zpos p).
Proof.
  intros mrs. subst mrs. rewrite iter_pos_nat.
  destruct (Pos.to_nat p) as [|k] eqn:Hp; [pose proof (Pos2Nat.is_pos p); lia|].
  rewrite shr_iter by lia.
  replace (Zpos p) with (Z.of_nat k + 1) by lia.
  replace (Z.of_nat (S k)) with (Z.of_nat k + 1) by lia.
  split; [reflexivity|]. cbn [shr_m].
  apply round_nearest_even_record; lia.
Qed.

Lemma rnq_leading m s :
  0 <= s -> Zdigits2 m = 53 + s -> 0 < m ->
  2 ^ 52 <= rnq m s <= 2 ^ 53.
Proof.
  intros Hs Hd Hm. pose proof (Zdigits2_bounds m Hm) as [Hlo Hhi].
  rewrite Hd in Hlo, Hhi. pose proof (pow2_pos s Hs) as HP.
  replace (53 + s - 1) with (52 + s) in Hlo by lia.
  rewrite Z.pow_add_r in Hlo, Hhi by lia.
  pose proof (rnq_mono _ _ s Hs Hlo) as H1. rewrite rnq_exact in H1 by lia.
  pose proof (rnq_mono m (2 ^ 53 * 2 ^ s) s Hs ltac:(lia)) as H2.
  rewrite rnq_exact in H2 by lia. lia.
Qed.

(** A mantissa of more than 53 digits is shifted to 53 digits and rounded;
    when the rounding carries into a 54th digit it is shifted once more. *)
Lemma binary_round_aux_shift m e :
  -1074 <= e -> 53 < Zpos (digits2_pos m) ->
  let s := Zpos (digits2_pos m) - 53 in
  let z := binary_round_aux 53 1024 false (Zpos m) e loc_Exact in
  nonneg64 z /\ value64 z = Z.min (rnq (Zpos m) s * 2 ^ (s + e + 1074)) top64.
Proof.
  intros He Hd s z.
  assert (Hshift : fexp64 (Zpos (digits2_pos m) + e) - e = s)
    by (unfold fexp64, s; lia).
  assert (Hq := rnq_leading (Zpos m) s ltac:(lia) ltac:(cbn [Zdigits2]; lia)
                  ltac:(lia)).
  destruct s as [|p|p] eqn:Hs; try lia.
  subst z. unfold binary_round_aux, shr_fexp. cbn [Zdigits2 shr_record_of_loc].
  rewrite fexp_64, Hshift. cbn [shr].
  destruct (shr_shift m p) as [_ Hround]. cbv zeta in Hround. rewrite Hround.
  set (q := rnq (Zpos m) (Zpos p)) in *.
  set (e' := e + Zpos p).
  pose proof (pow2_pos (e' + 1074) ltac:(lia)) as HP.
  replace (Zpos p + e + 1074) with (e' + 1074) by lia.
  destruct (Z.eq_dec q (2 ^ 53)) as [Hcarry|Hnocarry].
  - (* the mantissa overflowed to 2^53: one more shift *)
    rewrite Hcarry.
    assert (Hdig : Zdigits2 (2 ^ 53) = 54) by reflexivity.
    rewrite Hdig, fexp_64.
    replace (fexp64 (54 + e') - e') with 1 by (unfold fexp64; lia).
    cbn [shr SpecFloat.iter_pos]. rewrite shr_1_spec by lia.
    cbn [shr_m]. change (2 ^ 53 / 2) with (Zpos (2 ^ 52)%positive).
    cbv iota. change (1024 - 53) with 971.
    destruct (Z.leb_spec (e' + 1) 971) as [Hfin|Hinf].
    + split.
      * apply nonneg64_cases. right. right. do 2 eexists. split; [reflexivity|].
        split; [|lia]. change (Zpos (digits2_pos (2 ^ 52))) with 53.
        unfold fexp64. lia.
      * cbn [value64]. replace (e' + 1 + 1074) with (1 + (e' + 1074)) by lia.
        rewrite Z.pow_add_r by lia.
        change (Zpos (2 ^ 52)) with (2 ^ 52). change (2 ^ 1) with 2.
        pose proof (below_top (2 ^ 53 - 1) (e' + 1074) ltac:(lia) ltac:(lia)).
        assert (2 ^ 53 * 2 ^ (e' + 1074) < top64).
        { unfold top64. rewrite <- Z.pow_add_r by lia. apply pow2_lt. lia. }
        change (2 ^ 53) with (2 ^ 52 * 2) in *. lia.
    + split; [apply nonneg64_cases; now right; left|].
      cbn [value64].
      assert (top64 <= 2 ^ 53 * 2 ^ (e' + 1074)).
      { unfold top64. rewrite <- Z.pow_add_r by lia. apply pow2_le. lia. }
      lia.
  - assert (Hdig : Zdigits2 q = 53) by (apply Zdigits2_unique; lia).
    rewrite Hdig, fexp_64.
    replace (fexp64 (53 + e') - e') with 0 by (unfold fexp64; lia).
    cbn [shr shr_m].
    destruct q as [|qp|qp] eqn:Hqp; try (pose proof (pow2_pos 52); lia).
    change (1024 - 53) with 971.
    destruct (Z.leb_spec e' 971) as [Hfin|Hinf].
    + split.
      * apply nonneg64_cases. right. right. do 2 eexists. split; [reflexivity|].
        split; [|lia]. cbn [Zdigits2] in Hdig. rewrite Hdig.
        unfold fexp64. lia.
      * cbn [value64].
        pose proof (below_top (Zpos qp) (e' + 1074) ltac:(lia) ltac:(lia)). lia.
    + split; [apply nonneg64_cases; now right; left|].
      cbn [value64].
      pose proof (above_top (Zpos qp) (e' + 1074) ltac:(lia) ltac:(lia)). lia.
Qed.

Lemma round64_exact m t :
  0 < m -> round_pos (m * 2 ^ t) = t -> 0 <= t -> round64 (m * 2 ^ t) = m * 2 ^ t.
Proof. intros Hm Hpos Ht. unfold round64. rewrite Hpos, rnq_exact; lia. Qed.

(** Rounding a positive mantissa at an exponent of the format gives a well
    formed number whose value is the rounding of the exact value. *)
Lemma binary_round_spec m e :
  -1074 <= e <= 971 ->
  let z := binary_round 53 1024 false m e in
  nonneg64 z /\ value64 z = round64_capped (Zpos m * 2 ^ (e + 1074)).
Proof.
  intros He z. subst z. unfold binary_round. rewrite fexp_64.
  set (d := Zpos (digits2_pos m)).
  assert (Hdpos : 0 < d) by (unfold d; lia).
  pose proof (shl_align_spec m e (fexp64 (d + e))) as Halign.
  destruct (shl_align m e (fexp64 (d + e))) as [mz ez].
  destruct Halign as [Hez Hmz].
  assert (Hdig : Zdigits2 (Zpos m * 2 ^ (e + 1074)) = d + (e + 1074))
    by (rewrite Zdigits2_mul_pow2 by lia; reflexivity).
  unfold round64_capped.
  destruct (Z.le_gt_cases d 53) as [Hsmall|Hbig].
  - (* at most 53 digits: the sum is exact *)
    assert (Hfe : ez = fexp64 (d + e)) by (unfold fexp64 in *; lia).
    assert (Hcan : fexp64 (Zpos (digits2_pos mz) + ez) = ez).
    { change (Zpos (digits2_pos mz)) with (Zdigits2 (Zpos mz)).
      rewrite Hmz, Zdigits2_mul_pow2 by lia. cbn [Zdigits2]. fold d.
      replace (d + (e - ez) + ez) with (d + e) by lia. now symmetry. }
    rewrite binary_round_aux_canonical by exact Hcan.
    destruct (Z.leb_spec ez 971) as [_|]; [|lia].
    split.
    + apply nonneg64_cases. right. right. exists mz, ez. split; [reflexivity|].
      split; [exact Hcan | lia].
    + cbn [value64]. rewrite Hmz.
      assert (Heq : Zpos m * 2 ^ (e - ez) * 2 ^ (ez + 1074)
                    = Zpos m * 2 ^ (e + 1074)).
      { rewrite <- Z.mul_assoc, <- Z.pow_add_r by (unfold fexp64 in *; lia).
        do 2 f_equal. lia. }
      rewrite Heq. rewrite <- Heq at 2.
      rewrite round64_exact.
      * rewrite Heq.
        pose proof (Zdigits2_bounds (Zpos m * 2 ^ (e + 1074))
                      ltac:(pose proof (pow2_pos (e + 1074)); nia)) as [_ Hhi].
        rewrite Hdig in Hhi.
        pose proof (pow2_le (d + (e + 1074)) 2098 ltac:(lia)). unfold top64. lia.
      * pose proof (pow2_pos (e - ez) ltac:(unfold fexp64 in *; lia)). nia.
      * rewrite Heq. unfold round_pos. rewrite Hdig.
        unfold fexp64 in *. lia.
      * unfold fexp64 in *. lia.
  - (* more than 53 digits: round *)
    assert (Hez' : ez = e) by (unfold fexp64 in *; lia).
    assert (Hmz' : mz = m).
    { rewrite Hez', Z.sub_diag in Hmz. change (2 ^ 0) with 1 in Hmz.
      rewrite Z.mul_1_r in Hmz. now injection Hmz. }
    rewrite Hez', Hmz'.
    destruct (binary_round_aux_shift m e ltac:(lia) Hbig) as [Hnn Hval].
    split; [exact Hnn|]. cbv zeta in Hval. rewrite Hval. fold d.
    unfold round64, round_pos. rewrite Hdig.
    replace (Z.max (d + (e + 1074) - 53) 0) with (d - 53 + (e + 1074)) by lia.
    rewrite rnq_scale by lia. do 3 f_equal. lia.
Qed.

Lemma value64_finite_bound m e :
  fexp64 (Zpos (digits2_pos m) + e) = e -> e <= 971 ->
  0 < Zpos m * 2 ^ (e + 1074) < top64
  /\ round_pos (Zpos m * 2 ^ (e + 1074)) = e + 1074.
Proof.
  intros Hcan He.
  assert (H0 : 0 <= e + 1074) by (unfold fexp64 in Hcan; lia).
  pose proof (pow2_pos _ H0).
  assert (Hdig : Zdigits2 (Zpos m * 2 ^ (e + 1074))
                 = Zpos (digits2_pos m) + (e + 1074))
    by (rewrite Zdigits2_mul_pow2 by lia; reflexivity).
  pose proof (Zdigits2_bounds (Zpos m * 2 ^ (e + 1074)) ltac:(nia)) as [_ Hhi].
  rewrite Hdig in Hhi.
  pose proof (pow2_le (Zpos (digits2_pos m) + (e + 1074)) 2098
                ltac:(unfold fexp64 in Hcan; lia)).
  split; [unfold top64; nia|].
  unfold round_pos. rewrite Hdig. unfold fexp64 in Hcan. lia.
Qed.

Lemma value64_nonneg x : nonneg64 x -> 0 <= value64 x <= top64.
Proof.
  intros [[s ->]|[->|(m & e & -> & Hcan & He)]]%nonneg64_cases; cbn [value64].
  - unfold top64. pose proof (pow2_pos 2098). lia.
  - unfold top64. pose proof (pow2_pos 2098). lia.
  - pose proof (value64_finite_bound m e Hcan He). lia.
Qed.

(** Representable values are fixed points of the rounding. *)
Lemma round64_capped_value x : nonneg64 x -> round64_capped (value64 x) = value64 x.
Proof.
  intros [[s ->]|[->|(m & e & -> & Hcan & He)]]%nonneg64_cases; cbn [value64].
  - reflexivity.
  - vm_compute. reflexivity.
  - destruct (value64_finite_bound m e Hcan He) as [Hb Hpos].
    unfold round64_capped. rewrite round64_exact; unfold fexp64 in Hcan; lia.
Qed.

Lemma round64_capped_top v : 0 <= v -> round64_capped (top64 + v) = top64.
Proof.
  intros Hv. pose proof (round64_capped_mono top64 (top64 + v)) as Hm.
  assert (Htop : round64_capped top64 = top64) by (vm_compute; reflexivity).
  assert (0 <= top64) by (unfold top64; pose proof (pow2_pos 2098); lia).
  rewrite Htop in Hm. unfold round64_capped in *. lia.
Qed.

(** ** Addition and order *)

(** The sum of two non-negative numbers is the rounding of the exact sum
    of their values. *)
Lemma SFadd_spec x y :
  nonneg64 x -> nonneg64 y ->
  nonneg64 (SFadd 53 1024 x y)
  /\ value64 (SFadd 53 1024 x y) = round64_capped (value64 x + value64 y).
Proof.
  intros Hx Hy. pose proof (value64_nonneg y Hy) as Hvy.
  pose proof (value64_nonneg x Hx) as Hvx.
  pose proof (round64_capped_value x Hx) as Hfx. pose proof (round64_capped_value y Hy) as Hfy.
  pose proof Hx as Hx'. pose proof Hy as Hy'.
  apply nonneg64_cases in Hx' as [[sx ->]|[->|(mx & ex & -> & Hcx & Hex)]];
    apply nonneg64_cases in Hy' as [[sy ->]|[->|(my & ey & -> & Hcy & Hey)]].
  - split; [|destruct sx, sy; reflexivity].
    apply nonneg64_cases. left. destruct sx, sy; cbn; eauto.
  - split; [exact Hy|]. cbn [SFadd]. change (value64 (S754_zero sx)) with 0.
    now rewrite Z.add_0_l.
  - split; [exact Hy|]. cbn [SFadd]. change (value64 (S754_zero sx)) with 0.
    now rewrite Z.add_0_l.
  - split; [exact Hx|]. cbn [SFadd]. change (value64 (S754_zero sy)) with 0.
    now rewrite Z.add_0_r.
  - split; [exact Hx|]. cbn [SFadd]. symmetry.
    change (value64 (S754_infinity false)) with top64. apply round64_capped_top. lia.
  - split; [exact Hx|]. cbn [SFadd]. symmetry.
    change (value64 (S754_infinity false)) with top64. apply round64_capped_top. lia.
  - split; [exact Hx|]. cbn [SFadd]. change (value64 (S754_zero sy)) with 0.
    now rewrite Z.add_0_r.
  - split; [exact Hy|]. cbn [SFadd]. symmetry.
    change (value64 (S754_infinity false)) with top64.
    rewrite Z.add_comm. apply round64_capped_top. lia.
  - cbn [SFadd cond_Zopp].
    pose proof (shl_align_spec mx ex (Z.min ex ey)) as Hax.
    pose proof (shl_align_spec my ey (Z.min ex ey)) as Hay.
    destruct (shl_align mx ex (Z.min ex ey)) as [mx' ex'].
    destruct (shl_align my ey (Z.min ex ey)) as [my' ey'].
    destruct Hax as [Hex' Hmx']. destruct Hay as [Hey' Hmy'].
    cbn [fst].
    change (Zpos mx' + Zpos my') with (Zpos (mx' + my')).
    cbn [binary_normalize].
    assert (Hmin : -1074 <= Z.min ex ey <= 971) by (unfold fexp64 in *; lia).
    destruct (binary_round_spec (mx' + my') (Z.min ex ey) Hmin) as [Hnn Hval].
    split; [exact Hnn|]. cbv zeta in Hval. rewrite Hval. f_equal.
    cbn [value64]. rewrite Pos2Z.inj_add, Hmx', Hmy', Z.mul_add_distr_r.
    rewrite <- !Z.mul_assoc, <- !Z.pow_add_r by lia.
    f_equal; do 2 f_equal; lia.
Qed.

(** A canonical mantissa has at most 53 digits, and exactly 53 above the
    least exponent. *)
Lemma canonical_digits m e :
  fexp64 (Zpos (digits2_pos m) + e) = e ->
  -1074 <= e /\ Zpos m < 2 ^ 53 /\ (-1074 < e -> 2 ^ 52 <= Zpos m).
Proof.
  intros Hcan. pose proof (digits2_pos_bounds m) as [Hlo Hhi].
  unfold fexp64 in Hcan. split; [lia|]. split.
  - pose proof (pow2_le (Zpos (digits2_pos m)) 53 ltac:(lia)). lia.
  - intros He. replace (Zpos (digits2_pos m)) with 53 in Hlo by lia.
    exact Hlo.
Qed.

Lemma value64_lt_exponent m1 e1 m2 e2 :
  fexp64 (Zpos (digits2_pos m1) + e1) = e1 ->
  fexp64 (Zpos (digits2_pos m2) + e2) = e2 ->
  e1 < e2 ->
  Zpos m1 * 2 ^ (e1 + 1074) < Zpos m2 * 2 ^ (e2 + 1074).
Proof.
  intros H1 H2 Hlt.
  destruct (canonical_digits m1 e1 H1) as (He1 & Hm1 & _).
  destruct (canonical_digits m2 e2 H2) as (He2 & _ & Hm2).
  specialize (Hm2 ltac:(lia)).
  pose proof (pow2_pos (e1 + 1074) ltac:(lia)).
  pose proof (pow2_le (e1 + 1 + 1074) (e2 + 1074) ltac:(lia)) as Hp.
  replace (e1 + 1 + 1074) with (1 + (e1 + 1074)) in Hp by lia.
  rewrite Z.pow_add_r in Hp by lia. change (2 ^ 1) with 2 in Hp.
  change (2 ^ 53) with (2 ^ 52 * 2) in Hm1.
  pose proof (pow2_pos 52 ltac:(lia)). nia.
Qed.

Lemma top_pos : 0 < top64.
Proof. unfold top64. now apply pow2_pos. Qed.

(** On well formed non-negative numbers, [<=] is the order of the values. *)
Lemma SFleb_value x y :
  nonneg64 x -> nonneg64 y -> SFleb x y = (value64 x <=? value64 y).
Proof.
  intros Hx Hy. pose proof top_pos as Htop.
  pose proof (value64_nonneg x Hx) as Hvx. pose proof (value64_nonneg y Hy) as Hvy.
  apply nonneg64_cases in Hx as [[sx ->]|[->|(mx & ex & -> & Hcx & Hex)]];
    apply nonneg64_cases in Hy as [[sy ->]|[->|(my & ey & -> & Hcy & Hey)]];
    try pose proof (value64_finite_bound mx ex Hcx Hex) as [Hbx _];
    try pose proof (value64_finite_bound my ey Hcy Hey) as [Hby _];
    cbn [value64] in *; unfold SFleb; cbn [SFcompare]; symmetry.
  - reflexivity.
  - apply Z.leb_le. lia.
  - apply Z.leb_le. lia.
  - apply Z.leb_gt. lia.
  - apply Z.leb_le. lia.
  - apply Z.leb_gt. lia.
  - apply Z.leb_gt. lia.
  - apply Z.leb_le. lia.
  - destruct (Z.compare_spec ex ey) as [Heq|Hlt|Hgt].
    + subst ey. change (Pos.compare_cont Eq mx my) with (Pos.compare mx my).
      pose proof (pow2_pos (ex + 1074) ltac:(unfold fexp64 in Hcx; lia)).
      destruct (Pos.compare_spec mx my) as [->|Hm|Hm].
      * apply Z.leb_le. lia.
      * apply Z.leb_le. nia.
      * apply Z.leb_gt. nia.
    + apply Z.leb_le.
      pose proof (value64_lt_exponent mx ex my ey Hcx Hcy Hlt). lia.
    + apply Z.leb_gt.
      apply (value64_lt_exponent my ey mx ex Hcy Hcx). lia.
Qed.

(** ** What the history totals need *)

Lemma nonneg64_zero : nonneg64 (S754_zero false).
Proof. split; reflexivity. Qed.

Lemma SFadd_nonneg x y :
  nonneg64 x -> nonneg64 y -> nonneg64 (SFadd 53 1024 x y).
Proof. intros Hx Hy. apply SFadd_spec; assumption. Qed.

Lemma SFleb_refl x : nonneg64 x -> SFleb x x = true.
Proof. intros Hx. rewrite SFleb_value by assumption. apply Z.leb_refl. Qed.

Lemma SFleb_trans x y z :
  nonneg64 x -> nonneg64 y -> nonneg64 z ->
  SFleb x y = true -> SFleb y z = true -> SFleb x z = true.
Proof.
  intros Hx Hy Hz. rewrite !SFleb_value by assumption.
  rewrite !Z.leb_le. lia.
Qed.

Lemma SFleb_add_r x y :
  nonneg64 x -> nonneg64 y -> SFleb x (SFadd 53 1024 x y) = true.
Proof.
  intros Hx Hy. destruct (SFadd_spec x y Hx Hy) as [Hnn Hval].
  rewrite SFleb_value, Hval by assumption. apply Z.leb_le.
  rewrite <- (round64_capped_value x Hx) at 1. apply round64_capped_mono.
  pose proof (value64_nonneg x Hx). pose proof (value64_nonneg y Hy). lia.
Qed.

Lemma SFadd_mono a b x :
  nonneg64 a -> nonneg64 b -> nonneg64 x ->
  SFleb a b = true ->
  SFleb (SFadd 53 1024 a x) (SFadd 53 1024 b x) = true.
Proof.
  intros Ha Hb Hx Hle.
  destruct (SFadd_spec a x Ha Hx) as [Hnna Hva].
  destruct (SFadd_spec b x Hb Hx) as [Hnnb Hvb].
  rewrite SFleb_value in Hle |- * by assumption.
  rewrite Hva, Hvb. apply Z.leb_le in Hle. apply Z.leb_le. apply round64_capped_mono.
  pose proof (value64_nonneg a Ha). pose proof (value64_nonneg x Hx). lia.
Qed.

End Binary64.

(** * The handlers, case by case *)

(** Unfolds the monadic plumbing of a handler, leaving the lookups, the
    environment and the table operations as they are. *)
Ltac run_monad :=
  cbv [bind ret get exec next_tick WriteJSON record_analyzed
       tempImageData_Store tempImageData_Load tempImageData_Delete
       clients_Store clients_Delete set_nutritional_info set_scans
       uuid_New_String Now model_ProcessImage ExecContext
       SaveNutritionalInfo SaveScan GetRecentNutritionalInfo
       sendMessage sendError with_wire fst snd];
  cbn [tempImageData clients nutritional_info scans wire analyzed tick].

Section Confirm.
Context (E : Env).
Local Abbreviation confirmed_info := (confirmed_info E).
Local Abbreviation confirmed_scan := (confirmed_scan E).

Lemma handleConfirmScan_miss conn (data : gmap string any) id w :
  data !! "id" = Some (AString id) ->
  tempImageData w !! id = None ->
  handleConfirmScan E conn data w
  = (tt, with_wire w [(conn, ErrorEnvelope "Image data not found")]).
Proof.
  intros Hid Hmiss. unfold handleConfirmScan. rewrite Hid. run_monad.
  rewrite Hmiss. reflexivity.
Qed.

Lemma handleConfirmScan_info_fails conn (data : gmap string any) id img w :
  data !! "id" = Some (AString id) ->
  tempImageData w !! id = Some (ABytes img) ->
  is_Some (ExecContext_err E (3 + tick w)) ->
  handleConfirmScan E conn data w
  = (tt, mkWorld (delete id (tempImageData w)) (clients w)
           (nutritional_info w) (scans w)
           (wire w ++ [(conn, ErrorEnvelope "Failed to save results")])
           (analyzed w) (4 + tick w)).
Proof.
  intros Hid Hhit [e He]. cbn [Nat.add] in He.
  unfold handleConfirmScan. rewrite Hid. run_monad.
  rewrite Hhit. run_monad. rewrite He. reflexivity.
Qed.

Lemma handleConfirmScan_scan_fails conn (data : gmap string any) id img w :
  data !! "id" = Some (AString id) ->
  tempImageData w !! id = Some (ABytes img) ->
  ExecContext_err E (3 + tick w) = None ->
  is_Some (ExecContext_err E (8 + tick w)) ->
  handleConfirmScan E conn data w
  = (tt, mkWorld (delete id (tempImageData w)) (clients w)
           (upsert_nutritional_info (confirmed_info data id (tick w))
              (nutritional_info w))
           (scans w)
           (wire w ++ [(conn, ErrorEnvelope "Failed to save scan")])
           (analyzed w) (9 + tick w)).
Proof.
  intros Hid Hhit Hok [e He]. cbn [Nat.add] in Hok, He.
  unfold handleConfirmScan. rewrite Hid. run_monad.
  rewrite Hhit. run_monad. rewrite Hok. run_monad. rewrite He. reflexivity.
Qed.

Lemma handleConfirmScan_saved conn (data : gmap string any) id img w :
  data !! "id" = Some (AString id) ->
  tempImageData w !! id = Some (ABytes img) ->
  ExecContext_err E (3 + tick w) = None ->
  ExecContext_err E (8 + tick w) = None ->
  handleConfirmScan E conn data w
  = (tt, mkWorld (delete id (tempImageData w)) (clients w)
           (upsert_nutritional_info (confirmed_info data id (tick w))
              (nutritional_info w))
           (replace_scan (confirmed_scan img (tick w)) (scans w))
           (wire w ++ [(conn, Envelope "scan_saved" data_nil)])
           (analyzed w) (9 + tick w)).
Proof.
  intros Hid Hhit Hok Hok'. cbn [Nat.add] in Hok, Hok'.
  unfold handleConfirmScan. rewrite Hid. run_monad.
  rewrite Hhit. run_monad. rewrite Hok. run_monad. rewrite Hok'. reflexivity.
Qed.

End Confirm.

Section Scan.
Context (E : Env).
Local Abbreviation scanned_info := (scanned_info E).

Lemma handleScan_invalid_image conn (data : gmap string any) w :
  (forall s, data !! "image" <> Some (AString s)) ->
  handleScan E conn data w
  = (tt, with_wire w [(conn, ErrorEnvelope "Invalid image data")]).
Proof.
  intros Himg. unfold handleScan.
  destruct (data !! "image") as [[]|]; try reflexivity.
  now destruct (Himg s).
Qed.

Lemma handleScan_invalid_weight conn (data : gmap string any) s w :
  data !! "image" = Some (AString s) ->
  (forall x, data !! "totalWeight" <> Some (AFloat64 x)) ->
  handleScan E conn data w
  = (tt, with_wire w [(conn, ErrorEnvelope "Invalid weight value")]).
Proof.
  intros Himg Hw. unfold handleScan. rewrite Himg.
  destruct (data !! "totalWeight") as [[]|]; try reflexivity.
  now destruct (Hw f).
Qed.

Lemma handleScan_invalid_format conn (data : gmap string any) s x w :
  data !! "image" = Some (AString s) ->
  data !! "totalWeight" = Some (AFloat64 x) ->
  base64_DecodeString E s = None ->
  handleScan E conn data w
  = (tt, with_wire w [(conn, ErrorEnvelope "Invalid image format")]).
Proof.
  intros Himg Hw Hdec. unfold handleScan. rewrite Himg, Hw, Hdec. reflexivity.
Qed.

Lemma handleScan_model_fails conn (data : gmap string any) s x img e w :
  data !! "image" = Some (AString s) ->
  data !! "totalWeight" = Some (AFloat64 x) ->
  base64_DecodeString E s = Some img ->
  ProcessImage E (tick w) img = inr e ->
  handleScan E conn data w
  = (tt, mkWorld (tempImageData w) (clients w) (nutritional_info w) (scans w)
           (wire w ++ [(conn, ErrorEnvelope "Failed to process image")])
           (analyzed w ++ [img]) (1 + tick w)).
Proof.
  intros Himg Hw Hdec Hmodel. unfold handleScan. rewrite Himg, Hw, Hdec.
  run_monad. rewrite Hmodel. reflexivity.
Qed.

Lemma handleScan_result conn (data : gmap string any) s x img draft w :
  data !! "image" = Some (AString s) ->
  data !! "totalWeight" = Some (AFloat64 x) ->
  base64_DecodeString E s = Some img ->
  ProcessImage E (tick w) img = inl draft ->
  handleScan E conn data w
  = (tt, mkWorld (<[uuid_New E (1 + tick w) := ABytes img]> (tempImageData w))
           (clients w) (nutritional_info w) (scans w)
           (wire w ++ [(conn, Envelope "scan_result"
                                 (data_info (scanned_info x draft (tick w))))])
           (analyzed w ++ [img]) (4 + tick w)).
Proof.
  intros Himg Hw Hdec Hmodel. unfold handleScan. rewrite Himg, Hw, Hdec.
  run_monad. rewrite Hmodel. reflexivity.
Qed.

End Scan.

Section Upsert.

Lemma with_times_same (info : NutritionalInfo.t) :
  NutritionalInfo.with_times (NutritionalInfo.CreatedAt info)
    (NutritionalInfo.UpdatedAt info) info = info.
Proof. now destruct info. Qed.

(** After the upsert, the row found under the id carries every column of
    the new record but [created_at], which an existing row keeps. *)
Lemma select_upsert (info : NutritionalInfo.t) tbl :
  exists created,
    select_by_id (NutritionalInfo.ID info) (upsert_nutritional_info info tbl)
    = Some (NutritionalInfo.with_times created
              (NutritionalInfo.UpdatedAt info) info)
    /\ (select_by_id (NutritionalInfo.ID info) tbl = None ->
        created = NutritionalInfo.CreatedAt info).
Proof.
  unfold select_by_id.
  induction tbl as [|r tbl IH]; cbn [upsert_nutritional_info].
  - exists (NutritionalInfo.CreatedAt info). cbn [List.find].
    rewrite String.eqb_refl, with_times_same. split; reflexivity.
  - destruct (String.eqb (NutritionalInfo.ID r) (NutritionalInfo.ID info))
      eqn:Heq.
    + exists (NutritionalInfo.CreatedAt r). cbn [List.find].
      cbn [NutritionalInfo.with_times NutritionalInfo.ID].
      rewrite String.eqb_refl, Heq. split; [reflexivity | discriminate].
    + destruct IH as (created & Hfind & Hnew). exists created.
      cbn [List.find]. rewrite Heq. split; assumption.
Qed.

Lemma select_upsert_other id (info : NutritionalInfo.t) tbl :
  is_Some (select_by_id id tbl) ->
  is_Some (select_by_id id (upsert_nutritional_info info tbl)).
Proof.
  unfold select_by_id.
  induction tbl as [|r tbl IH]; cbn [upsert_nutritional_info List.find].
  - intros [? [=]].
  - destruct (String.eqb (NutritionalInfo.ID r) (NutritionalInfo.ID info))
      eqn:Heq; cbn [List.find].
    + cbn [NutritionalInfo.with_times NutritionalInfo.ID].
      destruct (String.eqb (NutritionalInfo.ID r) id) eqn:Hr.
      * apply String.eqb_eq in Heq, Hr. rewrite <- Heq, Hr, String.eqb_refl.
        eauto.
      * apply String.eqb_eq in Heq. rewrite <- Heq, Hr. trivial.
    + destruct (String.eqb (NutritionalInfo.ID r) id); eauto.
Qed.

Lemma select_by_id_elem id tbl r :
  select_by_id id tbl = Some r -> r ∈ tbl /\ NutritionalInfo.ID r = id.
Proof.
  unfold select_by_id. intros H. apply List.find_some in H as [Hin Heq].
  split; [now apply list_elem_of_In | now apply String.eqb_eq].
Qed.

End Upsert.

Lemma float64_field_supplied_or (data : gmap string any) key default :
  supplied_or data key default (float64_field data key default).
Proof.
  unfold supplied_or, float64_field. split.
  - intros x ->. reflexivity.
  - intros Hno. destruct (data !! key) as [[]|]; try reflexivity.
    now destruct (Hno f).
Qed.

(** ** What a step does to the identifiers in circulation *)

Section Effects.
Context (E : Env).
Local Abbreviation effect := (effect E).

Lemma issued_with_wire_error w conn m :
  issued (with_wire w [(conn, ErrorEnvelope m)]) = issued w.
Proof.
  unfold issued, with_wire. cbn [wire]. rewrite omap_app. cbn.
  apply app_nil_r.
Qed.

Lemma effect_with_wire_error w conn m :
  effect w (with_wire w [(conn, ErrorEnvelope m)]).
Proof.
  apply effect_quiet;
    [reflexivity | reflexivity | | reflexivity | reflexivity | now intros id].
  apply issued_with_wire_error.
Qed.

Ltac keep_stored :=
  intros ? ?; cbn [nutritional_info];
  solve [assumption | apply select_upsert_other; assumption].

Lemma handleScan_effect conn (data : gmap string any) w :
  effect w (exec (handleScan E conn data) w).
Proof.
  unfold exec.
  destruct (data !! "image") as [[| | |s| | |]|] eqn:Himg;
    try (rewrite handleScan_invalid_image by (intros s'; congruence);
         apply effect_with_wire_error).
  destruct (data !! "totalWeight") as [[| |x| | | |]|] eqn:Hw;
    try (rewrite (handleScan_invalid_weight E conn data s)
           by (trivial || intros x'; congruence);
         apply effect_with_wire_error).
  destruct (base64_DecodeString E s) as [img|] eqn:Hdec.
  2:{ rewrite (handleScan_invalid_format E conn data s x) by trivial.
      apply effect_with_wire_error. }
  destruct (ProcessImage E (tick w) img) as [draft|e] eqn:Hmodel.
  - rewrite (handleScan_result E conn data s x img draft) by trivial.
    apply (effect_scan E _ _ img); cbn [snd tick tempImageData scans analyzed];
      try reflexivity; try keep_stored.
    unfold issued. cbn [wire]. rewrite omap_app. reflexivity.
  - rewrite (handleScan_model_fails E conn data s x img e) by trivial.
    apply effect_quiet; cbn [snd tick tempImageData scans analyzed];
      try reflexivity; try keep_stored.
    + lia.
    + unfold issued. cbn [wire]. rewrite omap_app. apply app_nil_r.
    + now apply prefix_app_r.
Qed.

(** Every way a [confirm_scan] can end. *)
Lemma handleConfirmScan_cases conn (data : gmap string any) w :
  (exists m, handleConfirmScan E conn data w
             = (tt, with_wire w [(conn, ErrorEnvelope m)])
             /\ (forall id img, data !! "id" = Some (AString id) ->
                                tempImageData w !! id <> Some (ABytes img)))
  \/ exists id img,
       data !! "id" = Some (AString id)
       /\ tempImageData w !! id = Some (ABytes img)
       /\ (is_Some (ExecContext_err E (3 + tick w))
           \/ (ExecContext_err E (3 + tick w) = None
               /\ is_Some (ExecContext_err E (8 + tick w)))
           \/ (ExecContext_err E (3 + tick w) = None
               /\ ExecContext_err E (8 + tick w) = None)).
Proof.
  destruct (data !! "id") as [[| | |id| | |]|] eqn:Hid;
    try (left; eexists; split;
         [unfold handleConfirmScan; rewrite Hid; reflexivity
         | intros; congruence]).
  destruct (tempImageData w !! id) as [[| | | | | |img]|] eqn:Hhit;
    try (left; eexists; split;
         [unfold handleConfirmScan; rewrite Hid; run_monad; rewrite Hhit;
          reflexivity
         | intros ? ? [= <-]; congruence]).
  right. exists id, img. split; [reflexivity|]. split; [assumption|].
  destruct (ExecContext_err E (3 + tick w)); [left; eauto|].
  destruct (ExecContext_err E (8 + tick w)); [right; left; eauto|].
  right; right; eauto.
Qed.

Lemma handleConfirmScan_effect conn (data : gmap string any) w :
  effect w (exec (handleConfirmScan E conn data) w).
Proof.
  unfold exec.
  destruct (handleConfirmScan_cases conn data w)
    as [(m & -> & _)|(id & img & Hid & Hhit & [Hf|[[Hok Hf]|[Hok Hok']]])].
  - apply effect_with_wire_error.
  - rewrite (handleConfirmScan_info_fails E conn data id img) by trivial.
    apply effect_quiet; cbn [snd tick tempImageData scans analyzed];
      try reflexivity; try keep_stored.
    + lia.
    + apply delete_subseteq.
    + unfold issued. cbn [wire]. rewrite omap_app. apply app_nil_r.
  - rewrite (handleConfirmScan_scan_fails E conn data id img) by trivial.
    apply effect_quiet; cbn [snd tick tempImageData scans analyzed];
      try reflexivity; try keep_stored.
    + lia.
    + apply delete_subseteq.
    + unfold issued. cbn [wire]. rewrite omap_app. apply app_nil_r.
  - rewrite (handleConfirmScan_saved E conn data id img) by trivial.
    apply (effect_confirm E _ _ id img); cbn [snd tick tempImageData scans analyzed];
      try reflexivity; try assumption; try keep_stored.
    unfold issued. cbn [wire]. rewrite omap_app. apply app_nil_r.
Qed.

(** Every way a [get_history] can end. *)
Lemma handleGetHistory_cases conn w :
  (is_Some (QueryContext_err E (tick w))
   /\ handleGetHistory E conn w
      = (tt, mkWorld (tempImageData w) (clients w) (nutritional_info w)
               (scans w)
               (wire w ++ [(conn, ErrorEnvelope "Failed to retrieve history")])
               (analyzed w) (1 + tick w)))
  \/ (QueryContext_err E (tick w) = None
      /\ handleGetHistory E conn w
         = (tt, mkWorld (tempImageData w) (clients w) (nutritional_info w)
                  (scans w)
                  (wire w ++
                   [(conn,
                     let items :=
                       scan_row E <$> select_recent E 20 (nutritional_info w) in
                     let totals :=
                       history_totals E (time_Now E (1 + tick w)) items in
                     Envelope "history"
                       (data_history items (fst totals) (snd totals)))])
                  (analyzed w) (2 + tick w))).
Proof.
  unfold handleGetHistory. run_monad.
  destruct (QueryContext_err E (tick w)) as [e|]; [left|right];
    (split; [eauto|]); run_monad; [reflexivity|].
  destruct (history_totals E _ _); reflexivity.
Qed.

Lemma handleGetHistory_effect conn w :
  effect w (exec (handleGetHistory E conn) w).
Proof.
  unfold exec.
  destruct (handleGetHistory_cases conn w) as [[_ ->]|[_ ->]];
    apply effect_quiet; cbn [snd tick tempImageData scans analyzed];
    try reflexivity; try lia; try keep_stored;
    unfold issued; cbn [wire]; rewrite omap_app; apply app_nil_r.
Qed.

Lemma handleWebSocketMessage_effect conn (message : gmap string any) w :
  effect w (exec (handleWebSocketMessage E conn message) w).
Proof.
  unfold handleWebSocketMessage.
  destruct (message !! "type") as [[| | |messageType| | |]|];
    try apply effect_with_wire_error.
  destruct (String.eqb messageType "scan"); [apply handleScan_effect|].
  destruct (String.eqb messageType "confirm_scan");
    [apply handleConfirmScan_effect|].
  destruct (String.eqb messageType "get_history");
    [apply handleGetHistory_effect|].
  apply effect_with_wire_error.
Qed.

(** The life of one connection is a run: the connection is accepted, its
    messages are read one after the other, and it is dropped from the
    registry. *)
Lemma read_loop_run conn messages w :
  exec (read_loop E conn messages) w = run E w (Read conn <$> messages).
Proof.
  revert w. induction messages as [|message rest IH]; intros w; [reflexivity|].
  change (run E w (Read conn <$> message :: rest))
    with (run E (exec (serve E conn message) w) (Read conn <$> rest)).
  rewrite <- IH. unfold exec. cbn [read_loop]. unfold bind.
  now destruct (serve E conn message w).
Qed.

Lemma handleWebSocket_run conn messages w :
  exec (handleWebSocket E conn messages) w
  = run E w (Accept conn :: (Read conn <$> messages)
             ++ [Hangup (uuid_New E (tick w))]).
Proof.
  change (run E w (Accept conn :: (Read conn <$> messages)
                   ++ [Hangup (uuid_New E (tick w))]))
    with (run E (step E w (Accept conn))
            ((Read conn <$> messages) ++ [Hangup (uuid_New E (tick w))])).
  unfold run at 1. rewrite fold_left_app.
  fold (run E (step E w (Accept conn)) (Read conn <$> messages)).
  rewrite <- read_loop_run. cbn [fold_left step].
  unfold handleWebSocket. run_monad.
  now destruct (read_loop E conn messages _) as [[] w3].
Qed.

Lemma step_effect w ev : effect w (step E w ev).
Proof.
  destruct ev as [conn|conn message|clientID]; cbn [step].
  - apply effect_quiet; cbn; try reflexivity; try keep_stored. lia.
  - unfold serve. destruct (json_Unmarshal E message).
    + apply handleWebSocketMessage_effect.
    + apply effect_quiet; reflexivity || keep_stored.
  - apply effect_quiet; reflexivity || keep_stored.
Qed.

End Effects.

(** ** Invariants of a run *)

Section Invariants.
Context (E : Env).
Context (nutritional_info0 : list NutritionalInfo.t).
Context (scans0 : list nutrition_scans.row).
Local Abbreviation reachable := (reachable E nutritional_info0 scans0).
Local Abbreviation issued_drawn := (issued_drawn E).
Local Abbreviation ids_ok := (ids_ok E scans0).

Lemma reachable_ind (P : World -> Prop) :
  P (New nutritional_info0 scans0) ->
  (forall w ev, reachable w -> P w -> P (step E w ev)) ->
  forall w, reachable w -> P w.
Proof.
  intros Hinit Hstep w [evs ->]. unfold run.
  induction evs as [|ev evs IH] using rev_ind; [exact Hinit|].
  rewrite fold_left_app. cbn [fold_left].
  apply Hstep; [now exists evs | exact IH].
Qed.

Lemma reachable_step w ev : reachable w -> reachable (step E w ev).
Proof.
  intros [evs ->]. exists (evs ++ [ev]). unfold run.
  now rewrite fold_left_app.
Qed.

Lemma pending_issued_effect w w' :
  effect E w w' -> pending_issued w -> pending_issued w'.
Proof.
  intros [Ht Hsub Hiss Hsc Han _|img Ht Hst Hiss Hsc Han _
          |id0 img Ht Hhit Hst Hiss Hsc Han _] Hinv id v Hlook.
  - rewrite Hiss.
    destruct (Hinv id v) as [(img & -> & Hin) Hid];
      [eapply lookup_weaken; eassumption|].
    split; [|assumption]. exists img. split; [reflexivity|].
    destruct Han as [more ->]. apply elem_of_app. now left.
  - rewrite Hst in Hlook. rewrite Hiss, Han.
    destruct (decide (uuid_New E (1 + tick w) = id)) as [<-|Hne].
    + rewrite lookup_insert_eq in Hlook. injection Hlook as <-.
      split.
      * exists img. split; [reflexivity|]. apply elem_of_app. right.
        now apply list_elem_of_singleton.
      * apply elem_of_app. right. now apply list_elem_of_singleton.
    + rewrite lookup_insert_ne in Hlook by assumption.
      destruct (Hinv id v Hlook) as [(img' & -> & Hin') Hin].
      split; [|apply elem_of_app; now left].
      exists img'. split; [reflexivity|]. apply elem_of_app. now left.
  - rewrite Hst in Hlook. rewrite Hiss, Han. apply Hinv.
    apply lookup_delete_Some in Hlook. tauto.
Qed.

Lemma reachable_pending_issued w : reachable w -> pending_issued w.
Proof.
  revert w. apply reachable_ind.
  - intros id v Hlook. cbn in Hlook. now rewrite lookup_empty in Hlook.
  - intros w ev _. apply pending_issued_effect, step_effect.
Qed.

Lemma issued_drawn_effect w w' :
  effect E w w' -> issued_drawn w -> issued_drawn w'.
Proof.
  intros [Ht Hsub Hiss Hsc Han _|img Ht Hst Hiss Hsc Han _
          |id0 img Ht Hhit Hst Hiss Hsc Han _] Hinv id; rewrite Hiss.
  - intros Hin. destruct (Hinv id Hin) as (k & Hk & ->).
    exists k. split; [lia | reflexivity].
  - intros [Hin|Hin%list_elem_of_singleton]%elem_of_app.
    + destruct (Hinv id Hin) as (k & Hk & ->).
      exists k. split; [lia | reflexivity].
    + exists (1 + tick w). split; [lia | assumption].
  - intros Hin. destruct (Hinv id Hin) as (k & Hk & ->).
    exists k. split; [lia | reflexivity].
Qed.

Lemma reachable_issued_drawn w : reachable w -> issued_drawn w.
Proof.
  revert w. apply reachable_ind.
  - intros id Hin. now apply elem_of_nil in Hin.
  - intros w ev _. apply issued_drawn_effect, step_effect.
Qed.

(** Identifiers come from [uuid.New], which does not repeat itself, and
    none of them was already the key of a scan in the database. *)
Hypothesis uuid_unique : forall j k, uuid_New E j = uuid_New E k -> j = k.
Hypothesis scans0_older :
  forall r k, r ∈ scans0 -> nutrition_scans.id r <> uuid_New E k.

(** An identifier that was sent and has no pending entry never gets one
    again. *)
Lemma consumed_stays_consumed id evs :
  forall w,
    issued_drawn w -> id ∈ issued w -> tempImageData w !! id = None ->
    tempImageData (run E w evs) !! id = None.
Proof.
  induction evs as [|ev evs IH]; intros w Hdrawn Hin Hnone; [exact Hnone|].
  cbn [run fold_left]. pose proof (step_effect E w ev) as Heff.
  apply IH.
  - eapply issued_drawn_effect; eassumption.
  - destruct Heff as [_ _ -> _ _ _|img _ _ -> _ _ _|id0 img _ _ _ -> _ _ _];
      try assumption.
    apply elem_of_app. now left.
  - destruct Heff as [_ Hsub _ _ _ _|img _ -> _ _ _ _|id0 img _ _ -> _ _ _ _].
    + eapply lookup_weaken_None; eassumption.
    + rewrite lookup_insert_ne; [assumption|].
      destruct (Hdrawn id Hin) as (k & Hk & ->).
      intros Heq%uuid_unique. lia.
    + apply lookup_delete_None. now right.
Qed.

Lemma elem_of_replace_scan r r' tbl :
  r' ∈ replace_scan r tbl -> r' ∈ tbl \/ r' = r.
Proof.
  unfold replace_scan. rewrite elem_of_app, list_elem_of_filter.
  rewrite list_elem_of_singleton. tauto.
Qed.

Lemma ids_ok_effect w w' : effect E w w' -> ids_ok w -> ids_ok w'.
Proof.
  intros Heff [Hdrawn Hnodup Hscans Hdisj].
  assert (Hdrawn' := issued_drawn_effect w w' Heff Hdrawn).
  destruct Heff as [Ht Hsub Hiss Hsc Han _|img Ht Hst Hiss Hsc Han _
                    |id0 img Ht Hhit Hst Hiss Hsc Han _];
    split; try exact Hdrawn'; rewrite ?Hiss, ?Hsc; try assumption.
  - intros r Hin.
    destruct (Hscans r Hin) as [?|(? & ? & k & Hk & Hr)]; [now left|].
    right. repeat split; try assumption. exists k. split; [lia | assumption].
  - apply NoDup_app. split; [assumption|]. split; [|apply NoDup_singleton].
    intros id Hin Heq%list_elem_of_singleton. subst id.
    destruct (Hdrawn _ Hin) as (k & Hk & Heq).
    apply uuid_unique in Heq. lia.
  - intros r Hin.
    destruct (Hscans r Hin) as [?|(? & ? & k & Hk & Hr)]; [now left|].
    right. repeat split; try assumption. exists k. split; [lia | assumption].
  - intros r id Hr [Hin|Heq%list_elem_of_singleton]%elem_of_app.
    + now apply Hdisj.
    + subst id. destruct (Hscans r Hr) as [Hold|(_ & _ & k & Hk & ->)].
      * now apply scans0_older.
      * intros Heq%uuid_unique. lia.
  - intros r [Hin| ->]%elem_of_replace_scan.
    + destruct (Hscans r Hin) as [?|(? & ? & k & Hk & Hr)]; [now left|].
      right. repeat split; try assumption. exists k. split; [lia | assumption].
    + right. repeat split. exists (4 + tick w). split; [lia | reflexivity].
  - intros r id [Hin| ->]%elem_of_replace_scan Hid.
    + now apply Hdisj.
    + destruct (Hdrawn id Hid) as (k & Hk & ->).
      cbn [confirmed_scan nutrition_scans.id].
      intros Heq%uuid_unique. lia.
Qed.

Lemma reachable_ids_ok w : reachable w -> ids_ok w.
Proof.
  revert w. apply reachable_ind.
  - split; cbn.
    + intros id Hin. now apply elem_of_nil in Hin.
    + apply NoDup_nil_2.
    + now left.
    + intros r id _ Hin. now apply elem_of_nil in Hin.
  - intros w ev _. apply ids_ok_effect, step_effect.
Qed.

End Invariants.


(** ** The history *)

Section History.
Context (E : Env).

Lemma history_totals_app now infos (r : NutritionalInfo.t) :
  history_totals E now (infos ++ [r])
  = accumulate (startOfDay E now) (startOfWeek E now)
      (history_totals E now infos) r.
Proof. unfold history_totals. now rewrite fold_left_app. Qed.

Lemma accumulate_not_after sod sow totals (r : NutritionalInfo.t) :
  (NutritionalInfo.CreatedAt r <= sow)%Z ->
  accumulate sod sow totals r = totals.
Proof.
  intros Hle. unfold accumulate, time.After. destruct totals as [day week].
  destruct (Z.ltb_spec sow (NutritionalInfo.CreatedAt r)); [lia | reflexivity].
Qed.

(** The start of the week is a midnight at or before the start of the day,
    which is at or before now. *)
Lemma startOfWeek_le_startOfDay now :
  (startOfWeek E now <= startOfDay E now <= now)%Z.
Proof.
  unfold startOfWeek, startOfDay, time.Date_midnight, time.AddDate_days,
    time.Weekday, time.civil_day.
  set (off := (Local E * time.nsPerSecond)%Z).
  assert (Hday : (0 < time.nsPerDay)%Z) by reflexivity.
  set (d := ((now + off) / time.nsPerDay)%Z).
  assert (Hwd : (0 <= (d + 4) mod 7 < 7)%Z) by (apply Z.mod_pos_bound; lia).
  replace (now + - ((d + 4) mod 7) * time.nsPerDay + off)%Z
    with ((now + off) + - ((d + 4) mod 7) * time.nsPerDay)%Z by lia.
  rewrite Z.div_add by lia. fold d.
  split.
  - apply Z.sub_le_mono_r. apply Z.mul_le_mono_nonneg_r; lia.
  - pose proof (Z.mul_div_le (now + off) time.nsPerDay Hday) as Hle.
    fold d in Hle. lia.
Qed.

End History.

Section Recent.
Context (E : Env).

Lemma ascii_compare_refl c : Ascii.compare c c = Eq.
Proof. unfold Ascii.compare. apply N.compare_refl. Qed.

Lemma ascii_compare_Lt_trans a b c :
  Ascii.compare a b = Lt -> Ascii.compare b c = Lt -> Ascii.compare a c = Lt.
Proof. unfold Ascii.compare. rewrite !N.compare_lt_iff. lia. Qed.

Lemma string_compare_Lt_trans s1 :
  forall s2 s3,
    String.compare s1 s2 = Lt -> String.compare s2 s3 = Lt ->
    String.compare s1 s3 = Lt.
Proof.
  induction s1 as [|c1 s1 IH]; intros [|c2 s2] [|c3 s3]; cbn [String.compare];
    try discriminate; try reflexivity.
  destruct (Ascii.compare c1 c2) eqn:H12; try discriminate;
    destruct (Ascii.compare c2 c3) eqn:H23; try discriminate.
  - apply Ascii.compare_eq_iff in H12, H23. subst.
    rewrite ascii_compare_refl. apply IH.
  - apply Ascii.compare_eq_iff in H12. subst. now rewrite H23.
  - apply Ascii.compare_eq_iff in H23. subst. now rewrite H12.
  - now rewrite (ascii_compare_Lt_trans _ _ _ H12 H23).
Qed.

(** The order of the texts is a total preorder. *)
Lemma string_leb_trans s1 s2 s3 :
  String.leb s1 s2 = true -> String.leb s2 s3 = true ->
  String.leb s1 s3 = true.
Proof.
  unfold String.leb.
  destruct (String.compare s1 s2) eqn:H12; try discriminate;
    destruct (String.compare s2 s3) eqn:H23; try discriminate; intros _ _.
  - apply String.compare_eq_iff in H12. subst. now rewrite H23.
  - apply String.compare_eq_iff in H12. subst. now rewrite H23.
  - apply String.compare_eq_iff in H23. subst. now rewrite H12.
  - now rewrite (string_compare_Lt_trans _ _ _ H12 H23).
Qed.


Lemma insert_desc_Permutation x l : insert_desc E x l ≡ₚ x :: l.
Proof.
  induction l as [|y l IH]; cbn [insert_desc]; [reflexivity|].
  destruct (String.leb _ _); [reflexivity|].
  rewrite IH. apply Permutation_swap.
Qed.

Lemma order_by_created_at_desc_Permutation tbl :
  order_by_created_at_desc E tbl ≡ₚ tbl.
Proof.
  unfold order_by_created_at_desc.
  induction tbl as [|x tbl IH]; cbn [foldr]; [reflexivity|].
  now rewrite insert_desc_Permutation, IH.
Qed.

Lemma insert_desc_sorted x l :
  StronglySorted (not_after E) l -> StronglySorted (not_after E) (insert_desc E x l).
Proof.
  induction 1 as [|y l Hsorted IH Hall]; cbn [insert_desc].
  - repeat constructor.
  - destruct (String.leb (created_at_text E y) (created_at_text E x))
      eqn:Hle.
    + constructor; [now constructor|].
      constructor; [exact Hle|].
      eapply List.Forall_impl; [|exact Hall].
      unfold not_after. intros z Hz. eapply string_leb_trans; eassumption.
    + constructor; [exact IH|].
      rewrite insert_desc_Permutation. constructor; [|exact Hall].
      unfold not_after.
      destruct (String.leb_total (created_at_text E x) (created_at_text E y));
        [assumption | congruence].
Qed.

Lemma order_by_created_at_desc_sorted tbl :
  StronglySorted (not_after E) (order_by_created_at_desc E tbl).
Proof.
  unfold order_by_created_at_desc.
  induction tbl as [|x tbl IH]; cbn [foldr]; [constructor|].
  now apply insert_desc_sorted.
Qed.



(** Rows that come back with a creation time at or before the start of
    the week add nothing to the totals. *)
Lemma history_totals_old now infos :
  Forall (fun r => (NutritionalInfo.CreatedAt r <= startOfWeek E now)%Z) infos ->
  history_totals E now infos = (Totals.zero, Totals.zero).
Proof.
  intros Hall. unfold history_totals. generalize (Totals.zero, Totals.zero).
  induction Hall as [|r infos Hr _ IH]; intros totals; [reflexivity|].
  cbn [fold_left]. rewrite accumulate_not_after by exact Hr. apply IH.
Qed.

End Recent.

Section Totals.

Lemma accumulate_sums sod sow infos day week :
  fold_left (accumulate sod sow) infos (day, week)
  = (fold_left Totals.add
       (List.filter (fun r => time.After (NutritionalInfo.CreatedAt r) sow
                              && time.After (NutritionalInfo.CreatedAt r) sod)
          infos) day,
     fold_left Totals.add
       (List.filter (fun r => time.After (NutritionalInfo.CreatedAt r) sow)
          infos) week).
Proof.
  revert day week. induction infos as [|r infos IH]; intros day week.
  - reflexivity.
  - cbn [fold_left List.filter accumulate].
    destruct (time.After (NutritionalInfo.CreatedAt r) sow);
      destruct (time.After (NutritionalInfo.CreatedAt r) sod);
      cbn [andb fold_left]; apply IH.
Qed.

Lemma totals_add_nonneg s (r : NutritionalInfo.t) :
  totals_nonneg s -> macros_nonneg r -> totals_nonneg (Totals.add s r).
Proof.
  intros (H1 & H2 & H3 & H4) (R1 & R2 & R3 & R4).
  repeat split; now apply SFadd_nonneg.
Qed.

Lemma totals_le_add day week (r : NutritionalInfo.t) :
  totals_nonneg day -> totals_nonneg week -> macros_nonneg r ->
  totals_le day week ->
  totals_le (Totals.add day r) (Totals.add week r)
  /\ totals_le day (Totals.add week r).
Proof.
  intros (D1 & D2 & D3 & D4) (W1 & W2 & W3 & W4) (R1 & R2 & R3 & R4)
    (L1 & L2 & L3 & L4).
  split; repeat split; cbn [Totals.add Totals.Calories Totals.Protein
                             Totals.Carbs Totals.Fat].
  1-4: now apply SFadd_mono.
  all: eapply SFleb_trans; [| |apply SFadd_nonneg| |apply SFleb_add_r];
    eassumption.
Qed.

Lemma accumulate_le sod sow infos day week :
  Forall macros_nonneg infos ->
  totals_nonneg day -> totals_nonneg week -> totals_le day week ->
  let totals := fold_left (accumulate sod sow) infos (day, week) in
  totals_le (fst totals) (snd totals).
Proof.
  intros Hall. revert day week.
  induction Hall as [|r infos Hr Hall IH]; intros day week Hd Hw Hle.
  - exact Hle.
  - cbn [fold_left accumulate].
    destruct (totals_le_add day week r Hd Hw Hr Hle) as [Hboth Hweek].
    destruct (time.After (NutritionalInfo.CreatedAt r) sow);
      [destruct (time.After (NutritionalInfo.CreatedAt r) sod)|];
      apply IH; auto using totals_add_nonneg.
Qed.

Lemma accumulate_same_macros sod sow totals (a b : NutritionalInfo.t) :
  same_macros a b -> accumulate sod sow totals b = accumulate sod sow totals a.
Proof.
  intros (Ht & H1 & H2 & H3 & H4). unfold accumulate, Totals.add.
  now rewrite Ht, H1, H2, H3, H4.
Qed.

Lemma totals_zero_nonneg : totals_nonneg Totals.zero.
Proof. repeat split. Qed.

Lemma totals_le_zero : totals_le Totals.zero Totals.zero.
Proof. repeat split. Qed.

End Totals.

(** ** The small environment *)

Lemma small_env_uuid_unique j k :
  uuid_New small_env j = uuid_New small_env k -> j = k.
Proof. cbn. apply (inj pretty). Qed.

Lemma one_pending_reachable : reachable small_env [] [] one_pending.
Proof. exists [Read 7 scan_apple_text]. vm_compute. reflexivity. Qed.

(** A scan of 250 g, its confirmation and a look at the history: three
    answers. The record is listed with its 52 kcal, but its creation time
    was stored as the text below, which does not parse: it comes back with
    the zero time, and neither total counts it. *)
Example scan_confirm_history :
  let w := exec (handleGetHistory small_env 7)
             (exec (handleConfirmScan small_env 7 confirm_apple) one_pending) in
  message_type <$> (snd <$> wire w) = ["scan_result"; "scan_saved"; "history"]
  /\ created_at_text small_env <$> nutritional_info w
     = ["2024-01-03 12:04:00 +0000 UTC"]
  /\ exists items day_total week_total,
       last (wire w)
       = Some (7, Envelope "history" (data_history items day_total week_total))
       /\ NutritionalInfo.ID <$> items = ["1"]
       /\ NutritionalInfo.Calories <$> items = [f64.of_Z 52]
       /\ NutritionalInfo.CreatedAt <$> items = [time.zero]
       /\ day_total = Totals.zero
       /\ week_total = Totals.zero.
Proof.
  intros w. split; [reflexivity|]. split; [vm_compute; reflexivity|].
  do 3 eexists. split; [vm_compute; reflexivity|]. repeat split.
Qed.

(** * The claims *)

(** C1. A [confirm_scan] whose id has no entry in [tempImageData] is
    answered by one error message and by nothing else: no [scan_saved], no
    write to either table, the pending entries as they were. An id that was
    never sent in a [scan_result] has no entry. When the same id is
    confirmed twice in a row, the first confirm is answered [scan_saved]
    if the database accepts its statements, it removes the entry whatever
    the database does, and the second confirm misses. In a run where
    [uuid.New] does not repeat itself, an entry that was confirmed is gone
    for good, whatever comes next: it is consumed at most once. *)
Theorem confirm_scan_without_pending_entry (E : Env) :
  (forall conn (data : gmap string any) id w,
     data !! "id" = Some (AString id) ->
     tempImageData w !! id = None ->
     let w' := exec (handleConfirmScan E conn data) w in
     wire w' = wire w ++ [(conn, ErrorEnvelope "Image data not found")]
     /\ nutritional_info w' = nutritional_info w
     /\ scans w' = scans w
     /\ tempImageData w' = tempImageData w)
  /\ (forall nutritional_info0 scans0 w id,
        reachable E nutritional_info0 scans0 w ->
        id ∉ issued w ->
        tempImageData w !! id = None)
  /\ (forall conn1 conn2 (data1 data2 : gmap string any) id img w,
        data1 !! "id" = Some (AString id) ->
        data2 !! "id" = Some (AString id) ->
        tempImageData w !! id = Some (ABytes img) ->
        let w1 := exec (handleConfirmScan E conn1 data1) w in
        let w2 := exec (handleConfirmScan E conn2 data2) w1 in
        ((forall k, tick w <= k -> ExecContext_err E k = None) ->
         wire w1 = wire w ++ [(conn1, Envelope "scan_saved" data_nil)])
        /\ tempImageData w1 !! id = None
        /\ wire w2 = wire w1 ++ [(conn2, ErrorEnvelope "Image data not found")]
        /\ nutritional_info w2 = nutritional_info w1
        /\ scans w2 = scans w1)
  /\ (forall nutritional_info0 scans0 conn (data : gmap string any) id w evs,
        (forall j k, uuid_New E j = uuid_New E k -> j = k) ->
        reachable E nutritional_info0 scans0 w ->
        data !! "id" = Some (AString id) ->
        is_Some (tempImageData w !! id) ->
        tempImageData (run E (exec (handleConfirmScan E conn data) w) evs) !! id
        = None).
Proof.
  split; [|split; [|split]].
  - intros conn data id w Hid Hmiss w'. subst w'. unfold exec.
    rewrite (handleConfirmScan_miss E conn data id) by assumption.
    repeat split.
  - intros i0 s0 w id Hreach Hnew.
    destruct (tempImageData w !! id) as [v|] eqn:Hlook; [|reflexivity].
    destruct (reachable_pending_issued E i0 s0 w Hreach id v Hlook) as [_ Hin].
    contradiction.
  - intros conn1 conn2 data1 data2 id img w Hid1 Hid2 Hhit w1 w2.
    assert (Hgone : tempImageData w1 !! id = None).
    { subst w1. unfold exec.
      destruct (handleConfirmScan_cases E conn1 data1 w)
        as [(m & _ & Hno)|(id' & img' & Hid' & Hhit' & [Hf|[[Hok Hf]|[Hok Hok']]])].
      - now destruct (Hno id img Hid1).
      - rewrite (handleConfirmScan_info_fails E conn1 data1 id img) by trivial.
        apply lookup_delete_eq.
      - rewrite (handleConfirmScan_scan_fails E conn1 data1 id img) by trivial.
        apply lookup_delete_eq.
      - rewrite (handleConfirmScan_saved E conn1 data1 id img) by trivial.
        apply lookup_delete_eq. }
    split; [|split; [exact Hgone|]].
    + intros Hdb. subst w1. unfold exec.
      rewrite (handleConfirmScan_saved E conn1 data1 id img);
        try assumption; try (apply Hdb; lia). reflexivity.
    + subst w2. unfold exec.
      rewrite (handleConfirmScan_miss E conn2 data2 id) by assumption.
      repeat split.
  - intros i0 s0 conn data id w evs Huniq Hreach Hid [v Hhit].
    destruct (reachable_pending_issued E i0 s0 w Hreach id v Hhit)
      as [(img & -> & _) Hissued].
    pose proof (handleConfirmScan_effect E conn data w) as Heff.
    apply (consumed_stays_consumed E Huniq).
    + eapply issued_drawn_effect; [exact Heff|].
      now apply (reachable_issued_drawn E i0 s0).
    + destruct Heff as [_ _ -> _ _ _|img' _ _ -> _ _ _|id0 img' _ _ _ -> _ _ _];
        try assumption.
      apply elem_of_app. now left.
    + unfold exec.
      destruct (handleConfirmScan_cases E conn data w)
        as [(m & _ & Hno)|(id' & img' & Hid' & Hhit' & [Hf|[[Hok Hf]|[Hok Hok']]])].
      * now destruct (Hno id img Hid).
      * rewrite (handleConfirmScan_info_fails E conn data id img) by trivial.
        apply lookup_delete_eq.
      * rewrite (handleConfirmScan_scan_fails E conn data id img) by trivial.
        apply lookup_delete_eq.
      * rewrite (handleConfirmScan_saved E conn data id img) by trivial.
        apply lookup_delete_eq.
Qed.

Lemma confirm_scan_without_pending_entry_example :
  let data : gmap string any := {[ "id" := AString "1" ]} in
  let w1 := exec (handleConfirmScan small_env 7 data) one_pending in
  let w2 := exec (handleConfirmScan small_env 8 data) w1 in
  (data !! "id" = Some (AString "1")
   /\ tempImageData one_pending !! "1"
      = Some (ABytes (String.list_byte_of_string "apple"))
   /\ (forall k, tick one_pending <= k -> ExecContext_err small_env k = None))
  /\ wire w1 = wire one_pending ++ [(7, Envelope "scan_saved" data_nil)]
  /\ tempImageData w1 !! "1" = None
  /\ wire w2 = wire w1 ++ [(8, ErrorEnvelope "Image data not found")]
  /\ nutritional_info w2 = nutritional_info w1
  /\ scans w2 = scans w1.
Proof.
  intros data w1 w2.
  assert (H1 : data !! "id" = Some (AString "1")) by reflexivity.
  assert (H2 : tempImageData one_pending !! "1"
               = Some (ABytes (String.list_byte_of_string "apple")))
    by (vm_compute; reflexivity).
  assert (H3 : forall k, tick one_pending <= k -> ExecContext_err small_env k = None)
    by reflexivity.
  split; [auto|].
  destruct (proj1 (proj2 (proj2 (confirm_scan_without_pending_entry small_env)))
              7 8 data data "1" _ one_pending H1 H1 H2) as (Hfirst & Hrest).
  split; [exact (Hfirst H3) | exact Hrest].
Defined.

(** C2. A [scan] whose image is valid base64 and whose weight is a positive
    number, when the model succeeds, writes exactly one message, a
    [scan_result]. Its id is the identifier just drawn from [uuid.New],
    whatever id the model returned; it was never sent in a [scan_result]
    before. Its total weight is the one submitted, its six values are the
    model's, and the decoded image is pending under that id. *)
Theorem scan_result_fresh_id (E : Env) nutritional_info0 scans0
    conn (data : gmap string any) s x img draft w :
  (forall j k, uuid_New E j = uuid_New E k -> j = k) ->
  reachable E nutritional_info0 scans0 w ->
  data !! "image" = Some (AString s) ->
  base64_DecodeString E s = Some img ->
  data !! "totalWeight" = Some (AFloat64 x) ->
  f64.ltb f64.zero x = true ->
  ProcessImage E (tick w) img = inl draft ->
  let w' := exec (handleScan E conn data) w in
  exists info,
    wire w' = wire w ++ [(conn, Envelope "scan_result" (data_info info))]
    /\ NutritionalInfo.ID info = uuid_New E (1 + tick w)
    /\ (NutritionalInfo.ID info ∉ issued w)
    /\ issued w' = issued w ++ [NutritionalInfo.ID info]
    /\ NutritionalInfo.TotalWeight info = x
    /\ (NutritionalInfo.Calories info, NutritionalInfo.Protein info,
        NutritionalInfo.Carbs info, NutritionalInfo.Fat info,
        NutritionalInfo.Fiber info, NutritionalInfo.Sugar info)
       = (NutritionalInfo.Calories draft, NutritionalInfo.Protein draft,
          NutritionalInfo.Carbs draft, NutritionalInfo.Fat draft,
          NutritionalInfo.Fiber draft, NutritionalInfo.Sugar draft)
    /\ tempImageData w !! (NutritionalInfo.ID info) = None
    /\ tempImageData w'
       = <[NutritionalInfo.ID info := ABytes img]> (tempImageData w).
Proof.
  intros Huniq Hreach Himg Hdec Hw _ Hmodel w'. subst w'. unfold exec.
  rewrite (handleScan_result E conn data s x img draft) by assumption.
  exists (scanned_info E x draft (tick w)). cbn [snd wire tempImageData].
  assert (Hfresh : uuid_New E (1 + tick w) ∉ issued w).
  { intros Hin.
    destruct (reachable_issued_drawn E _ _ w Hreach _ Hin) as (k & Hk & Heq).
    apply Huniq in Heq. lia. }
  repeat split; try assumption.
  - unfold issued. cbn [wire]. rewrite omap_app. reflexivity.
  - destruct (tempImageData w !! _) as [v|] eqn:Hlook; [|reflexivity].
    destruct (reachable_pending_issued E _ _ w Hreach _ v Hlook) as [_ Hin].
    contradiction.
Qed.

Lemma scan_result_fresh_id_example :
  exists info,
    wire one_pending = [(7, Envelope "scan_result" (data_info info))]
    /\ NutritionalInfo.ID info = "1"
    /\ NutritionalInfo.TotalWeight info = f64.of_Z 250
    /\ tempImageData one_pending
       = {[ "1" := ABytes (String.list_byte_of_string "apple") ]}.
Proof.
  destruct (scan_result_fresh_id small_env [] [] 7 scan_apple "YXBwbGU="
              (f64.of_Z 250) (String.list_byte_of_string "apple") apple
              (New [] []) small_env_uuid_unique)
    as (info & Hwire & Hid & _ & _ & Hweight & _ & _ & Hstore);
    try reflexivity.
  - now exists [].
  - exists info. repeat split; assumption.
Defined.

(** C3. When the id of a [confirm_scan] has a pending entry and the
    database refuses one of the two statements (that of
    [SaveNutritionalInfo], sent 3 ticks after the handler starts, or that
    of [SaveScan], sent 8 ticks after), the handler writes one error
    message, and the entry it removed stays removed: a second
    [confirm_scan] with the same id finds nothing, is answered with an
    error and writes to neither table. *)
Theorem confirm_scan_failure_loses_entry (E : Env)
    conn (data : gmap string any) id img w :
  data !! "id" = Some (AString id) ->
  tempImageData w !! id = Some (ABytes img) ->
  is_Some (ExecContext_err E (3 + tick w))
  \/ (ExecContext_err E (3 + tick w) = None
      /\ is_Some (ExecContext_err E (8 + tick w))) ->
  let w1 := exec (handleConfirmScan E conn data) w in
  (exists m, wire w1 = wire w ++ [(conn, ErrorEnvelope m)])
  /\ tempImageData w1 = delete id (tempImageData w)
  /\ scans w1 = scans w
  /\ forall conn2 (data2 : gmap string any),
       data2 !! "id" = Some (AString id) ->
       let w2 := exec (handleConfirmScan E conn2 data2) w1 in
       wire w2 = wire w1 ++ [(conn2, ErrorEnvelope "Image data not found")]
       /\ tempImageData w2 = tempImageData w1
       /\ nutritional_info w2 = nutritional_info w1
       /\ scans w2 = scans w1.
Proof.
  intros Hid Hhit Hfail w1.
  assert (Hw1 : (exists m, wire w1 = wire w ++ [(conn, ErrorEnvelope m)])
                /\ tempImageData w1 = delete id (tempImageData w)
                /\ scans w1 = scans w).
  { subst w1. unfold exec. destruct Hfail as [Hf|[Hok Hf]].
    - rewrite (handleConfirmScan_info_fails E conn data id img) by assumption.
      cbn [snd wire tempImageData scans]. eauto.
    - rewrite (handleConfirmScan_scan_fails E conn data id img) by assumption.
      cbn [snd wire tempImageData scans]. eauto. }
  destruct Hw1 as (Herr & Hstore & Hscans).
  repeat split; try assumption.
  all: intros; unfold exec;
    rewrite (handleConfirmScan_miss E conn2 data2 id)
      by (trivial; rewrite Hstore; apply lookup_delete_eq);
    reflexivity.
Qed.

Lemma confirm_scan_failure_loses_entry_example :
  let w1 := exec (handleConfirmScan scan_refused_env 7 confirm_apple) one_pending in
  let w2 := exec (handleConfirmScan scan_refused_env 7 confirm_apple) w1 in
  wire w1 = wire one_pending ++ [(7, ErrorEnvelope "Failed to save scan")]
  /\ tempImageData w1 = delete "1" (tempImageData one_pending)
  /\ wire w2 = wire w1 ++ [(7, ErrorEnvelope "Image data not found")]
  /\ scans w2 = [].
Proof.
  intros w1 w2.
  destruct (confirm_scan_failure_loses_entry scan_refused_env 7 confirm_apple
              "1" (String.list_byte_of_string "apple") one_pending)
    as (_ & Hstore & _ & Hagain).
  - reflexivity.
  - vm_compute. reflexivity.
  - right. split; [reflexivity | now exists "disk full"].
  - destruct (Hagain 7 confirm_apple) as (Hwire & _ & _ & Hscans);
      [reflexivity|].
    split; [reflexivity|]. split; [exact Hstore|].
    split; [exact Hwire | exact Hscans].
Defined.

(** C4, as the code has it. The comparisons are strict: a record created
    exactly at [startOfWeek], or before it, adds nothing to either total,
    wherever it stands in the list, and a record created exactly at
    [startOfDay], or before it, adds nothing to the day total. A record
    created after [startOfWeek] adds its four values to the week total,
    and to the day total as well when it was also created after
    [startOfDay]. *)
Theorem history_boundaries (E : Env) now infos rest (r : NutritionalInfo.t) :
  let created := NutritionalInfo.CreatedAt r in
  let before := history_totals E now infos in
  let after := history_totals E now (infos ++ [r]) in
  ((created <= startOfWeek E now)%Z ->
   history_totals E now (infos ++ r :: rest)
   = history_totals E now (infos ++ rest))
  /\ ((created <= startOfDay E now)%Z -> fst after = fst before)
  /\ ((startOfWeek E now < created)%Z ->
      snd after = Totals.add (snd before) r)
  /\ ((startOfWeek E now < created)%Z -> (startOfDay E now < created)%Z ->
      fst after = Totals.add (fst before) r).
Proof.
  intros created before after. subst after before.
  rewrite history_totals_app. unfold accumulate, time.After.
  fold created. destruct (history_totals E now infos) as [day week].
  split; [|split; [|split]].
  - intros Hle. unfold history_totals.
    rewrite !fold_left_app. cbn [fold_left].
    now rewrite accumulate_not_after.
  - intros Hle.
    destruct (Z.ltb_spec (startOfWeek E now) created); [|reflexivity].
    destruct (Z.ltb_spec (startOfDay E now) created); [lia | reflexivity].
  - intros Hlt.
    destruct (Z.ltb_spec (startOfWeek E now) created); [|lia].
    destruct (Z.ltb_spec (startOfDay E now) created); reflexivity.
  - intros Hlt Hlt'.
    destruct (Z.ltb_spec (startOfWeek E now) created); [|lia].
    destruct (Z.ltb_spec (startOfDay E now) created); [reflexivity | lia].
Qed.

Lemma history_boundaries_example :
  startOfWeek small_env noon = sunday_midnight
  /\ startOfDay small_env noon = wednesday_midnight
  /\ snd (history_totals small_env noon [apple_at (sunday_midnight + 1)%Z])
     = Totals.add Totals.zero apple
  /\ fst (history_totals small_env noon [apple_at (sunday_midnight + 1)%Z])
     = Totals.zero.
Proof.
  split; [reflexivity|]. split; [reflexivity|].
  destruct (history_boundaries small_env noon [] []
              (apple_at (sunday_midnight + 1)%Z)) as (_ & Hday & Hweek & _).
  split.
  - apply Hweek. reflexivity.
  - apply Hday. discriminate.
Defined.

(** C4, as the specification has it, fails at the boundary: a record
    created exactly at [startOfWeek] does not count toward the week total,
    and one created exactly at [startOfDay] does not count toward the day
    total (it counts toward the week total only). *)
Lemma record_at_boundary_not_counted :
  NutritionalInfo.CreatedAt (apple_at sunday_midnight) = startOfWeek small_env noon
  /\ NutritionalInfo.CreatedAt (apple_at wednesday_midnight)
     = startOfDay small_env noon
  /\ Totals.Calories (Totals.add Totals.zero apple) = f64.of_Z 52
  /\ history_totals small_env noon [apple_at sunday_midnight]
     = (Totals.zero, Totals.zero)
  /\ history_totals small_env noon [apple_at wednesday_midnight]
     = (Totals.zero, Totals.add Totals.zero apple).
Proof. repeat split. Qed.

(** C5. In a [confirm_scan] with a pending id, each of the seven nutrient
    fields is read on its own: a number is taken as it is, a missing or
    wrongly typed field becomes 100 for [total_weight] and 0 for the six
    others, and no field makes the request fail. When the database accepts
    the statement, the row stored under the id holds exactly these values;
    when it also accepts the scan, the answer is [scan_saved]. *)
Theorem confirm_scan_field_defaults (E : Env)
    conn (data : gmap string any) id img w :
  data !! "id" = Some (AString id) ->
  tempImageData w !! id = Some (ABytes img) ->
  ExecContext_err E (3 + tick w) = None ->
  let w' := exec (handleConfirmScan E conn data) w in
  (exists r,
     select_by_id id (nutritional_info w') = Some r
     /\ r ∈ nutritional_info w'
     /\ NutritionalInfo.ID r = id
     /\ supplied_or data "total_weight" (f64.of_Z 100) (NutritionalInfo.TotalWeight r)
     /\ supplied_or data "calories" f64.zero (NutritionalInfo.Calories r)
     /\ supplied_or data "protein" f64.zero (NutritionalInfo.Protein r)
     /\ supplied_or data "carbs" f64.zero (NutritionalInfo.Carbs r)
     /\ supplied_or data "fat" f64.zero (NutritionalInfo.Fat r)
     /\ supplied_or data "fiber" f64.zero (NutritionalInfo.Fiber r)
     /\ supplied_or data "sugar" f64.zero (NutritionalInfo.Sugar r))
  /\ (ExecContext_err E (8 + tick w) = None ->
      wire w' = wire w ++ [(conn, Envelope "scan_saved" data_nil)]).
Proof.
  intros Hid Hhit Hok w'.
  assert (Htbl : nutritional_info w'
                 = upsert_nutritional_info (confirmed_info E data id (tick w))
                     (nutritional_info w)).
  { subst w'. unfold exec.
    destruct (ExecContext_err E (8 + tick w)) eqn:Hscan.
    - rewrite (handleConfirmScan_scan_fails E conn data id img); eauto.
    - rewrite (handleConfirmScan_saved E conn data id img); eauto. }
  split.
  - rewrite Htbl.
    destruct (select_upsert (confirmed_info E data id (tick w))
                (nutritional_info w)) as (created & Hfind & _).
    cbn [confirmed_info NutritionalInfo.ID] in Hfind.
    eexists. split; [exact Hfind|].
    split; [now apply select_by_id_elem in Hfind|].
    cbn [NutritionalInfo.with_times NutritionalInfo.ID
         NutritionalInfo.TotalWeight NutritionalInfo.Calories
         NutritionalInfo.Protein NutritionalInfo.Carbs NutritionalInfo.Fat
         NutritionalInfo.Fiber NutritionalInfo.Sugar].
    repeat split; try apply float64_field_supplied_or.
  - intros Hok'. subst w'. unfold exec.
    rewrite (handleConfirmScan_saved E conn data id img) by assumption.
    reflexivity.
Qed.

Lemma confirm_scan_field_defaults_example :
  let w' := exec (handleConfirmScan small_env 7 confirm_apple) one_pending in
  exists r,
    select_by_id "1" (nutritional_info w') = Some r
    /\ NutritionalInfo.TotalWeight r = f64.of_Z 250
    /\ NutritionalInfo.Calories r = f64.of_Z 52
    /\ NutritionalInfo.Protein r = f64.zero
    /\ NutritionalInfo.Fat r = f64.zero.
Proof.
  intros w'.
  destruct (confirm_scan_field_defaults small_env 7 confirm_apple "1"
              (String.list_byte_of_string "apple") one_pending)
    as [(r & Hfind & _ & _ & Hweight & Hcal & Hprot & _ & Hfat & _) _].
  - reflexivity.
  - vm_compute. reflexivity.
  - reflexivity.
  - exists r. split; [exact Hfind|].
    split; [now apply (proj1 Hweight)|].
    split; [now apply (proj1 Hcal)|].
    split; [apply (proj2 Hprot) | apply (proj2 Hfat)];
      intros x; vm_compute; discriminate.
Defined.

(** C6, as the code has it. The day filter is nested in the week filter:
    the day total is the sum, in the order of the list, of the records
    that pass both filters, and the week total the sum of those that pass
    the week filter; since [startOfWeek] is never after [startOfDay], a
    record that passes the day filter passes the week filter too. When the
    four values of every record are well formed and not negative, each
    component of the day total is less than or equal to that of the week
    total. The totals read the creation time and the four primary values
    only: fiber and sugar (and every other field) do not enter them. *)
Theorem day_total_within_week_total (E : Env) now infos :
  let totals := history_totals E now infos in
  fst totals
  = fold_left Totals.add
      (List.filter (fun r => counts_week E now r && counts_day E now r) infos)
      Totals.zero
  /\ snd totals
     = fold_left Totals.add (List.filter (counts_week E now) infos) Totals.zero
  /\ (forall r, counts_day E now r = true -> counts_week E now r = true)
  /\ (Forall macros_nonneg infos -> totals_le (fst totals) (snd totals))
  /\ (forall infos',
        Forall2 same_macros infos infos' ->
        history_totals E now infos' = totals).
Proof.
  intros totals. subst totals. unfold history_totals.
  split; [|split; [|split; [|split]]].
  - rewrite accumulate_sums. reflexivity.
  - rewrite accumulate_sums. reflexivity.
  - intros r. unfold counts_day, counts_week, time.After.
    pose proof (startOfWeek_le_startOfDay E now).
    rewrite !Z.ltb_lt. lia.
  - intros Hall.
    apply (accumulate_le _ _ _ _ _ Hall);
      [apply totals_zero_nonneg | apply totals_zero_nonneg | apply totals_le_zero].
  - intros infos' Hsame. generalize (Totals.zero, Totals.zero).
    induction Hsame as [|a b infos infos' Hab Hrest IH]; intros acc.
    + reflexivity.
    + cbn [fold_left]. rewrite (accumulate_same_macros _ _ _ a b Hab).
      apply IH.
Qed.

Lemma day_total_within_week_total_example :
  let infos := [apple_at (wednesday_midnight + 1)%Z;
                apple_at (sunday_midnight + 1)%Z] in
  let totals := history_totals small_env noon infos in
  Forall macros_nonneg infos
  /\ Totals.Calories (fst totals) = f64.of_Z 52
  /\ Totals.Calories (snd totals) = f64.of_Z 104
  /\ totals_le (fst totals) (snd totals).
Proof.
  intros infos totals.
  assert (Hall : Forall macros_nonneg infos)
    by (repeat constructor).
  split; [exact Hall|]. split; [reflexivity|]. split; [reflexivity|].
  exact (proj1 (proj2 (proj2 (proj2
           (day_total_within_week_total small_env noon infos)))) Hall).
Defined.

(** C6, as it is stated, fails on a record with a negative value, which
    [confirm_scan] stores as the client sends it: with an apple today and
    a correction of -40 kcal earlier in the week, the day total is 52 kcal
    and the week total 12 kcal. *)
Lemma negative_record_breaks_order :
  let infos := [apple_at (wednesday_midnight + 1)%Z;
                refund_at (sunday_midnight + 1)%Z] in
  let totals := history_totals small_env noon infos in
  (startOfWeek small_env noon <=? startOfDay small_env noon)%Z = true
  /\ Totals.Calories (fst totals) = f64.of_Z 52
  /\ Totals.Calories (snd totals) = f64.of_Z 12
  /\ f64.leb (Totals.Calories (fst totals)) (Totals.Calories (snd totals))
     = false.
Proof. repeat split. Qed.

(** C7, as the code has it. [handleScan] requires [data.image] to be a
    string that decodes as base64 and [data.totalWeight] to be a number, of
    either sign. When the image is missing or is not a string, when the
    weight is missing or is not a number, or when the image does not
    decode, the handler writes one error message and does nothing else: the
    model is not called, nothing becomes pending, no identifier is drawn.
    When both fields are well formed the model is called with the decoded
    image, whatever the weight is. *)
Theorem scan_validation (E : Env) conn (data : gmap string any) w :
  let w' := exec (handleScan E conn data) w in
  ((forall s, data !! "image" <> Some (AString s))
   \/ (forall x, data !! "totalWeight" <> Some (AFloat64 x))
   \/ (exists s, data !! "image" = Some (AString s)
                 /\ base64_DecodeString E s = None) ->
   exists m, w' = with_wire w [(conn, ErrorEnvelope m)]
             /\ analyzed w' = analyzed w
             /\ tempImageData w' = tempImageData w
             /\ tick w' = tick w
             /\ sent_of_type "scan_result" w' = sent_of_type "scan_result" w)
  /\ (forall s x img,
        data !! "image" = Some (AString s) ->
        data !! "totalWeight" = Some (AFloat64 x) ->
        base64_DecodeString E s = Some img ->
        analyzed w' = analyzed w ++ [img]).
Proof.
  intros w'. split.
  - intros Hbad.
    assert (Herr : exists m, w' = with_wire w [(conn, ErrorEnvelope m)]).
    { subst w'. unfold exec.
      destruct (data !! "image") as [[| | |s| | |]|] eqn:Himg;
        try (rewrite handleScan_invalid_image by (intros s'; congruence);
             eauto).
      destruct (data !! "totalWeight") as [[| |x| | | |]|] eqn:Hw;
        try (rewrite (handleScan_invalid_weight E conn data s)
               by (trivial || intros x'; congruence);
             eauto).
      destruct Hbad as [Hbad|[Hbad|(s' & [= <-] & Hbad)]].
      - now destruct (Hbad s).
      - now destruct (Hbad x).
      - rewrite (handleScan_invalid_format E conn data s x) by trivial. eauto. }
    destruct Herr as [m ->]. exists m. repeat split.
    unfold sent_of_type, with_wire. cbn [wire]. rewrite filter_app.
    rewrite filter_cons_False, filter_nil by (cbn; discriminate).
    apply app_nil_r.
  - intros s x img Himg Hw Hdec. subst w'. unfold exec.
    destruct (ProcessImage E (tick w) img) as [draft|e] eqn:Hmodel.
    + rewrite (handleScan_result E conn data s x img draft) by trivial.
      reflexivity.
    + rewrite (handleScan_model_fails E conn data s x img e) by trivial.
      reflexivity.
Qed.

Lemma scan_validation_example :
  let data : gmap string any := {[ "image" := AString "YXBwbGU=" ]} in
  exec (handleScan small_env 7 data) (New [] [])
  = with_wire (New [] []) [(7, ErrorEnvelope "Invalid weight value")].
Proof.
  intros data.
  destruct (proj1 (scan_validation small_env 7 data (New [] [])))
    as (m & Heq & _).
  - right. left. intros x. vm_compute. discriminate.
  - reflexivity.
Defined.

(** C7, as the specification has it, fails: a negative weight is not
    refused. The scan below carries a valid image and the weight -1; the
    model is called, the image becomes pending and the answer is a
    [scan_result] with that weight. *)
Lemma scan_accepts_negative_weight :
  let data : gmap string any :=
    {[ "image" := AString "YXBwbGU="; "totalWeight" := AFloat64 (f64.of_Z (-1)) ]} in
  let w' := exec (handleScan small_env 7 data) (New [] []) in
  f64.ltb (f64.of_Z (-1)) f64.zero = true
  /\ sent_of_type "error" w' = []
  /\ (exists info,
        wire w' = [(7, Envelope "scan_result" (data_info info))]
        /\ NutritionalInfo.TotalWeight info = f64.of_Z (-1))
  /\ analyzed w' = [String.list_byte_of_string "apple"]
  /\ tempImageData w' !! "1" = Some (ABytes (String.list_byte_of_string "apple")).
Proof.
  intros data w'. split; [reflexivity|]. split; [reflexivity|].
  split; [eexists; split; reflexivity|]. split; reflexivity.
Qed.

(** C8, as the code has it. A message that does not parse is skipped: the
    handler writes nothing and changes nothing. A message that parses but
    whose [type] is missing or is not a string is answered
    ["Invalid message format"], and one whose [type] is a string other than
    [scan], [confirm_scan] and [get_history] (such as [ping]) is answered
    ["Unknown message type"]; neither changes anything else. In all three
    cases the loop goes on with the messages that follow. *)
Theorem bad_message_handling (E : Env) conn message w :
  (json_Unmarshal E message = None -> exec (serve E conn message) w = w)
  /\ (forall msg,
        json_Unmarshal E message = Some msg ->
        (forall t, msg !! "type" <> Some (AString t)) ->
        exec (serve E conn message) w
        = with_wire w [(conn, ErrorEnvelope "Invalid message format")])
  /\ (forall msg t,
        json_Unmarshal E message = Some msg ->
        msg !! "type" = Some (AString t) ->
        t <> "scan" -> t <> "confirm_scan" -> t <> "get_history" ->
        exec (serve E conn message) w
        = with_wire w [(conn, ErrorEnvelope "Unknown message type")])
  /\ (forall rest,
        exec (read_loop E conn (message :: rest)) w
        = exec (read_loop E conn rest) (exec (serve E conn message) w)).
Proof.
  split; [|split; [|split]].
  - intros Hbad. unfold exec, serve. now rewrite Hbad.
  - intros msg Hmsg Htype. unfold exec, serve, handleWebSocketMessage.
    rewrite Hmsg.
    destruct (msg !! "type") as [[]|]; try reflexivity.
    now destruct (Htype s).
  - intros msg t Hmsg Htype H1 H2 H3.
    unfold exec, serve, handleWebSocketMessage. rewrite Hmsg, Htype.
    apply String.eqb_neq in H1, H2, H3. now rewrite H1, H2, H3.
  - intros rest. unfold exec. cbn [read_loop]. unfold bind.
    now destruct (serve E conn message w).
Qed.

Lemma bad_message_handling_example :
  json_Unmarshal small_env (message_of_type "ping")
  = Some {[ "type" := AString "ping" ]}
  /\ exec (serve small_env 7 (message_of_type "ping")) (New [] [])
     = with_wire (New [] []) [(7, ErrorEnvelope "Unknown message type")].
Proof.
  split; [reflexivity|].
  apply (proj1 (proj2 (proj2 (bad_message_handling small_env 7
                                (message_of_type "ping") (New [] []))))
           {[ "type" := AString "ping" ]} "ping");
    (reflexivity || discriminate).
Defined.

(** C8, as the specification has it, fails on a message that does not
    parse: no error message is written for it (the two opening braces
    below are not a JSON text). *)
Lemma unparseable_message_gets_no_answer :
  let message := [Byte.x7b; Byte.x7b] in
  json_Unmarshal small_env message = None
  /\ wire (exec (serve small_env 7 message) (New [] [])) = []
  /\ sent_of_type "error" (exec (serve small_env 7 message) (New [] [])) = [].
Proof. repeat split. Qed.




(** C10. In a run of the server, a [confirm_scan] that is answered
    [scan_saved] has added one row to [nutrition_scans]. The row's id was
    just drawn from [uuid.New]: it is not the id the client confirmed
    (under which the nutritional record is stored), not the id of a row
    that was there, and not an id sent in a [scan_result]. The row's status
    is ["completed"], its error is empty, and its image is the byte slice
    that was pending under the confirmed id, which the model had been
    given. After it, as in every world of a run, no row of
    [nutrition_scans] has an id that was sent in a [scan_result]. *)
Theorem confirmed_scan_row (E : Env) nutritional_info0 scans0
    conn (data : gmap string any) w :
  (forall j k, uuid_New E j = uuid_New E k -> j = k) ->
  (forall r k, r ∈ scans0 -> nutrition_scans.id r <> uuid_New E k) ->
  reachable E nutritional_info0 scans0 w ->
  let w' := exec (handleConfirmScan E conn data) w in
  (wire w' = wire w ++ [(conn, Envelope "scan_saved" data_nil)] ->
   exists id img row,
     data !! "id" = Some (AString id)
     /\ tempImageData w !! id = Some (ABytes img)
     /\ img ∈ analyzed w
     /\ id ∈ issued w
     /\ scans w' = replace_scan row (scans w)
     /\ row ∈ scans w'
     /\ nutrition_scans.id row = uuid_New E (4 + tick w)
     /\ nutrition_scans.id row <> id
     /\ (nutrition_scans.id row ∉ scan_ids w)
     /\ (nutrition_scans.id row ∉ issued w')
     /\ nutrition_scans.status row = "completed"
     /\ nutrition_scans.error row = ""
     /\ nutrition_scans.image_data row = img
     /\ exists r, select_by_id id (nutritional_info w') = Some r
                  /\ NutritionalInfo.ID r = id)
  /\ (forall r id, r ∈ scans w' -> id ∈ issued w' ->
        nutrition_scans.id r <> id).
Proof.
  intros Huniq Hold Hreach w'.
  assert (Hok := reachable_ids_ok E _ _ Huniq Hold w Hreach).
  assert (Hok' : ids_ok E scans0 w').
  { eapply ids_ok_effect; try eassumption. apply handleConfirmScan_effect. }
  split; [|apply Hok'].
  intros Hsaved.
  destruct (handleConfirmScan_cases E conn data w)
    as [(m & Heq & _)|(id & img & Hid & Hhit & [Hf|[[Hdb Hf]|[Hdb Hdb']]])].
  - exfalso. subst w'. unfold exec in Hsaved. rewrite Heq in Hsaved.
    cbn in Hsaved. apply app_inv_head in Hsaved. discriminate.
  - exfalso. subst w'. unfold exec in Hsaved.
    rewrite (handleConfirmScan_info_fails E conn data id img) in Hsaved
      by trivial.
    cbn in Hsaved. apply app_inv_head in Hsaved. discriminate.
  - exfalso. subst w'. unfold exec in Hsaved.
    rewrite (handleConfirmScan_scan_fails E conn data id img) in Hsaved
      by trivial.
    cbn in Hsaved. apply app_inv_head in Hsaved. discriminate.
  - assert (Hw' : w' = snd (handleConfirmScan E conn data w)) by reflexivity.
    rewrite (handleConfirmScan_saved E conn data id img) in Hw' by trivial.
    cbn [snd] in Hw'.
    destruct (reachable_pending_issued E _ _ w Hreach id _ Hhit)
      as [(img' & [= <-] & Hanalyzed) Hissued].
    assert (Hrow : confirmed_scan E img (tick w) ∈ scans w').
    { rewrite Hw'. cbn [scans]. unfold replace_scan. apply elem_of_app.
      right. now apply list_elem_of_singleton. }
    assert (Hiss' : issued w' = issued w).
    { rewrite Hw'. unfold issued. cbn [wire]. rewrite omap_app.
      apply app_nil_r. }
    exists id, img, (confirmed_scan E img (tick w)).
    split; [assumption|]. split; [assumption|]. split; [assumption|].
    split; [assumption|]. split; [now rewrite Hw'|]. split; [assumption|].
    split; [reflexivity|].
    split.
    { destruct (ids_issued_drawn _ _ _ Hok id Hissued) as (k & Hk & ->).
      cbn [confirmed_scan nutrition_scans.id]. intros Heq%Huniq. lia. }
    split.
    { unfold scan_ids. intros (r & Heq & Hin)%list_elem_of_fmap.
      cbn [confirmed_scan nutrition_scans.id] in Heq.
      destruct (scans_drawn _ _ _ Hok r Hin) as [Hr|(_ & _ & k & Hk & Hr)].
      - now apply (Hold r (4 + tick w)).
      - rewrite Hr in Heq. apply Huniq in Heq. lia. }
    split.
    { intros Hin. now apply (scans_not_issued _ _ _ Hok' _ _ Hrow Hin). }
    split; [reflexivity|]. split; [reflexivity|]. split; [reflexivity|].
    rewrite Hw'. cbn [nutritional_info].
    destruct (select_upsert (confirmed_info E data id (tick w))
                (nutritional_info w)) as (created & Hfind & _).
    cbn [confirmed_info NutritionalInfo.ID] in Hfind.
    eexists. split; [exact Hfind | reflexivity].
Qed.

Lemma confirmed_scan_row_example :
  let w' := exec (handleConfirmScan small_env 7 confirm_apple) one_pending in
  exists row,
    scans w' = [row]
    /\ nutrition_scans.id row = "8"
    /\ nutrition_scans.status row = "completed"
    /\ nutrition_scans.error row = ""
    /\ nutrition_scans.image_data row = String.list_byte_of_string "apple"
    /\ issued w' = ["1"].
Proof.
  intros w'.
  destruct (confirmed_scan_row small_env [] [] 7 confirm_apple one_pending
              small_env_uuid_unique)
    as [Hrow _].
  - intros r k Hin. now apply elem_of_nil in Hin.
  - exact one_pending_reachable.
  - destruct Hrow
      as (id & img & row & Hid & Hhit & _ & _ & Hscans & _ & Hrid & _ & _ & _
          & Hstatus & Herr & Himg & _); [reflexivity|].
    assert (Hpending : tempImageData one_pending !! "1"
                       = Some (ABytes (String.list_byte_of_string "apple")))
      by (vm_compute; reflexivity).
    vm_compute in Hid. injection Hid as <-.
    rewrite Hpending in Hhit. injection Hhit as <-.
    exists row. split; [exact Hscans|]. split; [exact Hrid|].
    split; [exact Hstatus|]. split; [exact Herr|]. split; [exact Himg|].
    reflexivity.
Defined.

(** * Further properties of the code *)

(** ** What was written, after one more message *)

Lemma issued_snoc w w' cm :
  wire w' = wire w ++ [cm] ->
  issued w' = issued w ++ option_list (scan_result_id cm).
Proof.
  intros Hwire. unfold issued. rewrite Hwire, omap_app. cbn.
  now destruct (scan_result_id cm).
Qed.

Lemma saved_snoc w w' cm :
  wire w' = wire w ++ [cm] ->
  saved w'
  = saved w + (if decide (message_type (snd cm) = "scan_saved") then 1 else 0).
Proof.
  intros Hwire. unfold saved, sent_of_type. rewrite Hwire, filter_app.
  rewrite length_app. f_equal.
  destruct (decide (message_type (snd cm) = "scan_saved")) as [Heq|Hne].
  - now rewrite filter_cons_True.
  - now rewrite filter_cons_False.
Qed.

Ltac issued_same :=
  erewrite issued_snoc by reflexivity; apply app_nil_r.

Ltac saved_same :=
  erewrite saved_snoc by reflexivity;
  destruct (decide _) as [Heq|Hne]; [discriminate Heq | lia].

(** ** The handlers, every outcome *)

Section Handlers.
Context (E : Env).

(** Every way a [scan] can end. *)
Lemma handleScan_cases conn (data : gmap string any) w :
  (exists m, handleScan E conn data w
             = (tt, with_wire w [(conn, ErrorEnvelope m)]))
  \/ exists s x img,
       data !! "image" = Some (AString s)
       /\ data !! "totalWeight" = Some (AFloat64 x)
       /\ base64_DecodeString E s = Some img
       /\ ((exists e, ProcessImage E (tick w) img = inr e)
           \/ exists draft, ProcessImage E (tick w) img = inl draft).
Proof.
  destruct (data !! "image") as [[| | |s| | |]|] eqn:Himg;
    try (left; eexists; apply handleScan_invalid_image; intros s';
         congruence).
  destruct (data !! "totalWeight") as [[| |x| | | |]|] eqn:Hw;
    try (left; eexists; apply (handleScan_invalid_weight E conn data s);
         [assumption | intros x'; congruence]).
  destruct (base64_DecodeString E s) as [img|] eqn:Hdec.
  2:{ left. eexists. now apply (handleScan_invalid_format E conn data s x). }
  right. exists s, x, img. repeat split; try assumption.
  destruct (ProcessImage E (tick w) img); eauto.
Qed.

Lemma change_with_wire_error w conn m :
  change E w (with_wire w [(conn, ErrorEnvelope m)]).
Proof.
  apply change_none; try reflexivity.
  - apply issued_with_wire_error.
  - saved_same.
Qed.

Lemma handleScan_change conn (data : gmap string any) w :
  change E w (exec (handleScan E conn data) w).
Proof.
  unfold exec.
  destruct (handleScan_cases conn data w)
    as [[m ->]|(s & x & img & Himg & Hw & Hdec & [[e He]|[draft Hd]])].
  - apply change_with_wire_error.
  - rewrite (handleScan_model_fails E conn data s x img e) by trivial.
    apply change_none; try reflexivity.
    + issued_same.
    + saved_same.
  - rewrite (handleScan_result E conn data s x img draft) by trivial.
    apply (change_scanned E _ _ img draft); try reflexivity; try assumption.
    + now rewrite (issued_snoc w _ (conn, Envelope "scan_result"
                      (data_info (scanned_info E x draft (tick w)))))
        by reflexivity.
    + saved_same.
Qed.

Lemma handleConfirmScan_change conn (data : gmap string any) w :
  change E w (exec (handleConfirmScan E conn data) w).
Proof.
  unfold exec.
  destruct (handleConfirmScan_cases E conn data w)
    as [(m & -> & _)|(id & img & Hid & Hhit & [Hf|[[Hok Hf]|[Hok Hok']]])].
  - apply change_with_wire_error.
  - rewrite (handleConfirmScan_info_fails E conn data id img) by trivial.
    apply (change_refused E _ _ data id img); try reflexivity;
      try assumption.
    + now left.
    + issued_same.
    + saved_same.
  - rewrite (handleConfirmScan_scan_fails E conn data id img) by trivial.
    apply (change_refused E _ _ data id img); try reflexivity;
      try assumption.
    + now right.
    + issued_same.
    + saved_same.
  - rewrite (handleConfirmScan_saved E conn data id img) by trivial.
    apply (change_saved E _ _ data id img); try reflexivity; try assumption.
    + issued_same.
    + erewrite saved_snoc by reflexivity.
      destruct (decide _) as [Heq|Hne]; [lia | now destruct Hne].
Qed.

Lemma handleGetHistory_change conn w :
  change E w (exec (handleGetHistory E conn) w).
Proof.
  unfold exec.
  destruct (handleGetHistory_cases E conn w) as [[_ ->]|[_ ->]];
    apply change_none; try reflexivity.
  - issued_same.
  - saved_same.
  - issued_same.
  - saved_same.
Qed.

Lemma handleWebSocketMessage_change conn (message : gmap string any) w :
  change E w (exec (handleWebSocketMessage E conn message) w).
Proof.
  unfold handleWebSocketMessage.
  destruct (message !! "type") as [[| | |messageType| | |]|];
    try apply change_with_wire_error.
  destruct (String.eqb messageType "scan"); [apply handleScan_change|].
  destruct (String.eqb messageType "confirm_scan");
    [apply handleConfirmScan_change|].
  destruct (String.eqb messageType "get_history");
    [apply handleGetHistory_change|].
  apply change_with_wire_error.
Qed.

Lemma step_change w ev : change E w (step E w ev).
Proof.
  destruct ev as [conn|conn message|clientID]; cbn [step].
  - now apply change_none.
  - unfold serve. destruct (json_Unmarshal E message).
    + apply handleWebSocketMessage_change.
    + now apply change_none.
  - now apply change_none.
Qed.

End Handlers.

(** ** Whom a handler answers *)

Section Answers.
Context (E : Env).

Lemma answers_with_wire conn m w : answers conn w (with_wire w [(conn, m)]).
Proof. split; [now exists m | reflexivity]. Qed.

Lemma handleScan_answers conn (data : gmap string any) w :
  answers conn w (exec (handleScan E conn data) w).
Proof.
  unfold exec.
  destruct (handleScan_cases E conn data w)
    as [[m ->]|(s & x & img & Himg & Hw & Hdec & [[e He]|[draft Hd]])].
  - apply answers_with_wire.
  - rewrite (handleScan_model_fails E conn data s x img e) by trivial.
    split; [eexists|]; reflexivity.
  - rewrite (handleScan_result E conn data s x img draft) by trivial.
    split; [eexists|]; reflexivity.
Qed.

Lemma handleConfirmScan_answers conn (data : gmap string any) w :
  answers conn w (exec (handleConfirmScan E conn data) w).
Proof.
  unfold exec.
  destruct (handleConfirmScan_cases E conn data w)
    as [(m & -> & _)|(id & img & Hid & Hhit & [Hf|[[Hok Hf]|[Hok Hok']]])].
  - apply answers_with_wire.
  - rewrite (handleConfirmScan_info_fails E conn data id img) by trivial.
    split; [eexists|]; reflexivity.
  - rewrite (handleConfirmScan_scan_fails E conn data id img) by trivial.
    split; [eexists|]; reflexivity.
  - rewrite (handleConfirmScan_saved E conn data id img) by trivial.
    split; [eexists|]; reflexivity.
Qed.

Lemma handleGetHistory_answers conn w :
  answers conn w (exec (handleGetHistory E conn) w).
Proof.
  unfold exec.
  destruct (handleGetHistory_cases E conn w) as [[_ ->]|[_ ->]];
    (split; [eexists|]; reflexivity).
Qed.

Lemma handleWebSocketMessage_answers conn (message : gmap string any) w :
  answers conn w (exec (handleWebSocketMessage E conn message) w).
Proof.
  unfold handleWebSocketMessage.
  destruct (message !! "type") as [[| | |messageType| | |]|];
    try apply answers_with_wire.
  destruct (String.eqb messageType "scan"); [apply handleScan_answers|].
  destruct (String.eqb messageType "confirm_scan");
    [apply handleConfirmScan_answers|].
  destruct (String.eqb messageType "get_history");
    [apply handleGetHistory_answers|].
  apply answers_with_wire.
Qed.

Lemma read_loop_cons conn message rest w :
  exec (read_loop E conn (message :: rest)) w
  = exec (read_loop E conn rest) (exec (serve E conn message) w).
Proof.
  unfold exec. cbn [read_loop]. unfold bind.
  now destruct (serve E conn message w).
Qed.

Lemma read_loop_clients conn messages w :
  clients (exec (read_loop E conn messages) w) = clients w.
Proof.
  revert w. induction messages as [|message rest IH]; intros w; [reflexivity|].
  rewrite read_loop_cons, IH. unfold serve.
  destruct (json_Unmarshal E message); [|reflexivity].
  apply handleWebSocketMessage_answers.
Qed.

End Answers.


(** X2. A connection is registered under a fresh identifier when it is
    accepted and unregistered when its loop ends, whatever its messages
    were and whatever the handlers answered: no handler touches the
    registry, and after [handleWebSocket] the registry is the one it found,
    without the identifier it drew. *)
Theorem connection_unregistered_at_end (E : Env) conn messages w :
  let clientID := uuid_New E (tick w) in
  let registered := exec (clientID <- uuid_New_String E;;
                          clients_Store clientID conn) w in
  clients registered = <[clientID := conn]> (clients w)
  /\ clients (exec (read_loop E conn messages) registered)
     = <[clientID := conn]> (clients w)
  /\ clients (exec (handleWebSocket E conn messages) w)
     = delete clientID (clients w).
Proof.
  intros clientID registered. split; [reflexivity|]. split.
  - now rewrite read_loop_clients.
  - rewrite handleWebSocket_run.
    change (run E w (Accept conn :: (Read conn <$> messages)
                     ++ [Hangup (uuid_New E (tick w))]))
      with (run E registered
              ((Read conn <$> messages) ++ [Hangup clientID])).
    unfold run. rewrite fold_left_app.
    fold (run E registered (Read conn <$> messages)).
    rewrite <- read_loop_run. cbn [fold_left step].
    change (clients (exec (clients_Delete clientID)
                       (exec (read_loop E conn messages) registered)))
      with (delete clientID
              (clients (exec (read_loop E conn messages) registered))).
    rewrite read_loop_clients. apply delete_insert_eq.
Qed.

(** ** The primary key of [nutritional_info] *)

Section Keys.

(** The upsert keeps the keys in place, and adds the new one at the end
    when the table does not have it. *)
Lemma info_ids_upsert (info : NutritionalInfo.t) tbl :
  info_ids (upsert_nutritional_info info tbl)
  = if decide (NutritionalInfo.ID info ∈ info_ids tbl) then info_ids tbl
    else info_ids tbl ++ [NutritionalInfo.ID info].
Proof.
  unfold info_ids.
  induction tbl as [|r tbl IH]; cbn [upsert_nutritional_info fmap list_fmap].
  - rewrite decide_False by apply not_elem_of_nil. reflexivity.
  - destruct (String.eqb_spec (NutritionalInfo.ID r) (NutritionalInfo.ID info))
      as [Heq|Hne].
    + rewrite decide_True by (rewrite Heq; apply elem_of_cons; now left).
      cbn [fmap list_fmap]. now rewrite Heq.
    + cbn [fmap list_fmap]. fold (@fmap list _ _ _ NutritionalInfo.ID).
      rewrite IH.
      destruct (decide (NutritionalInfo.ID info ∈ NutritionalInfo.ID <$> tbl))
        as [Hin|Hout].
      * rewrite decide_True by (apply elem_of_cons; now right). reflexivity.
      * rewrite decide_False; [reflexivity|].
        intros [Heq|Hin]%elem_of_cons; [now destruct Hne | contradiction].
Qed.

Lemma elem_of_info_ids_upsert id (info : NutritionalInfo.t) tbl :
  id ∈ info_ids (upsert_nutritional_info info tbl) ->
  id ∈ info_ids tbl \/ id = NutritionalInfo.ID info.
Proof.
  rewrite info_ids_upsert. destruct (decide _); [now left|].
  intros [Hin|Heq%list_elem_of_singleton]%elem_of_app; [now left | now right].
Qed.

(** Rows under another key are not touched by the upsert. *)
Lemma select_upsert_ne id (info : NutritionalInfo.t) tbl :
  id <> NutritionalInfo.ID info ->
  select_by_id id (upsert_nutritional_info info tbl) = select_by_id id tbl.
Proof.
  intros Hne. unfold select_by_id.
  induction tbl as [|r tbl IH]; cbn [upsert_nutritional_info List.find].
  - destruct (String.eqb_spec (NutritionalInfo.ID info) id); [|reflexivity].
    now destruct Hne.
  - destruct (String.eqb_spec (NutritionalInfo.ID r) (NutritionalInfo.ID info))
      as [Heq|Hne'].
    + cbn [List.find NutritionalInfo.with_times NutritionalInfo.ID].
      destruct (String.eqb_spec (NutritionalInfo.ID info) id) as [Heq'|_];
        [now destruct Hne|].
      destruct (String.eqb_spec (NutritionalInfo.ID r) id) as [Heq'|_];
        [|reflexivity].
      destruct Hne. now rewrite <- Heq', Heq.
    + cbn [List.find]. now rewrite IH.
Qed.

End Keys.

(** ** More invariants of a run *)

Section MoreInvariants.
Context (E : Env).
Context (nutritional_info0 : list NutritionalInfo.t).
Context (scans0 : list nutrition_scans.row).
Local Abbreviation reachable := (reachable E nutritional_info0 scans0).

Lemma effect_analyzed w w' img :
  effect E w w' -> img ∈ analyzed w -> img ∈ analyzed w'.
Proof.
  intros [_ _ _ _ [more ->] _|img' _ _ _ _ -> _|id0 img' _ _ _ _ _ -> _] Hin;
    try assumption; apply elem_of_app; now left.
Qed.

Lemma change_issued w w' id :
  change E w w' -> id ∈ issued w -> id ∈ issued w'.
Proof.
  intros [_ _ _ -> _|? ? _ _ _ _ -> _|? ? ? _ _ _ _ -> _|? ? ? _ _ _ _ -> _] Hin;
    try assumption; apply elem_of_app; now left.
Qed.

Lemma stored_keys_issued w :
  reachable w ->
  forall id, id ∈ info_ids (nutritional_info w) ->
    id ∈ info_ids nutritional_info0 \/ id ∈ issued w.
Proof.
  intros Hreach. pattern w. revert w Hreach.
  apply reachable_ind; [now left|].
  intros w ev Hreach IH id Hin.
  pose proof (step_change E w ev) as Hch.
  assert (Hold : id ∈ info_ids (nutritional_info w) ->
                 id ∈ info_ids nutritional_info0 \/ id ∈ issued (step E w ev)).
  { intros Hin'. destruct (IH id Hin') as [?|?]; [now left|].
    right. eapply change_issued; eassumption. }
  assert (Hnew : forall data id' img,
            tempImageData w !! id' = Some (ABytes img) ->
            id ∈ info_ids (upsert_nutritional_info
                             (confirmed_info E data id' (tick w))
                             (nutritional_info w)) ->
            id ∈ info_ids nutritional_info0 \/ id ∈ issued (step E w ev)).
  { intros data id' img Hhit [Hin'| ->]%elem_of_info_ids_upsert; [auto|].
    right. eapply change_issued; [eassumption|].
    now apply (reachable_pending_issued E _ _ w Hreach id' _ Hhit). }
  destruct Hch as [_ Hni _ _ _|? ? _ _ Hni _ _ _
                   |data id' img Hhit _ [Hni|Hni] _ _ _
                   |data id' img Hhit _ Hni _ _ _];
    rewrite Hni in Hin; eauto.
Qed.

Lemma stored_scans_analyzed w :
  reachable w ->
  forall r, r ∈ scans w ->
    r ∈ scans0
    \/ (nutrition_scans.status r = "completed"
        /\ nutrition_scans.image_data r ∈ analyzed w).
Proof.
  intros Hreach. pattern w. revert w Hreach.
  apply reachable_ind; [now left|].
  intros w ev Hreach IH r Hin.
  pose proof (step_change E w ev) as Hch.
  pose proof (step_effect E w ev) as Heff.
  assert (Hold : r ∈ scans w ->
                 r ∈ scans0
                 \/ (nutrition_scans.status r = "completed"
                     /\ nutrition_scans.image_data r ∈ analyzed (step E w ev))).
  { intros Hin'. destruct (IH r Hin') as [?|[? ?]]; [now left|].
    right. split; [assumption|]. eapply effect_analyzed; eassumption. }
  destruct Hch as [_ _ Hsc _ _|? ? _ _ _ Hsc _ _
                   |data id' img Hhit _ _ Hsc _ _
                   |data id' img Hhit _ _ Hsc _ _];
    rewrite Hsc in Hin; auto.
  apply elem_of_replace_scan in Hin as [Hin| ->]; [auto|].
  right. split; [reflexivity|]. cbn [confirmed_scan nutrition_scans.image_data].
  eapply effect_analyzed; [eassumption|].
  destruct (reachable_pending_issued E _ _ w Hreach id' _ Hhit)
    as [(img' & [= <-] & Himg) _].
  exact Himg.
Qed.

Lemma saved_bound w :
  reachable w -> saved w + size (tempImageData w) <= length (issued w).
Proof.
  revert w. apply reachable_ind; [cbn; rewrite map_size_empty; lia|].
  intros w ev _ IH.
  destruct (step_change E w ev)
    as [-> _ _ -> ->|img draft _ -> _ _ -> ->
        |data id img Hhit -> _ _ -> ->|data id img Hhit -> _ _ -> ->].
  - exact IH.
  - rewrite length_app. cbn [length].
    pose proof (map_size_insert (uuid_New E (1 + tick w)) (ABytes img)
                  (tempImageData w)) as Hsize.
    destruct (tempImageData w !! uuid_New E (1 + tick w));
      rewrite Hsize; unfold id; lia.
  - rewrite map_size_delete_Some by eauto. lia.
  - rewrite map_size_delete_Some by eauto.
    assert (size (tempImageData w) <> 0).
    { intros Hz%map_size_empty_inv. rewrite Hz, lookup_empty in Hhit.
      discriminate. }
    lia.
Qed.

(** With the local model nothing is ever stored. *)
Lemma local_model_idle w :
  runs_LocalModel E -> reachable w ->
  tempImageData w = ∅ /\ issued w = [] /\ saved w = 0
  /\ nutritional_info w = nutritional_info0 /\ scans w = scans0.
Proof.
  intros Hlocal. revert w. apply reachable_ind; [repeat split|].
  intros w ev _ (Hstore & Hiss & Hsaved & Hni & Hsc).
  destruct (step_change E w ev)
    as [-> -> -> -> ->|img draft Hmodel _ _ _ _ _
        |data id img Hhit _ _ _ _ _|data id img Hhit _ _ _ _ _].
  - repeat split; assumption.
  - rewrite Hlocal in Hmodel. discriminate.
  - rewrite Hstore, lookup_empty in Hhit. discriminate.
  - rewrite Hstore, lookup_empty in Hhit. discriminate.
Qed.

End MoreInvariants.

(** ** The handlers *)

(** X3. [get_history] only reads: whatever the database answers, the
    pending scans, the registry, both tables and the record of analyzed
    images are as they were. When the query fails, the one message written
    is the error ["Failed to retrieve history"]. *)
Theorem get_history_only_reads (E : Env) conn w :
  let w' := exec (handleGetHistory E conn) w in
  tempImageData w' = tempImageData w
  /\ clients w' = clients w
  /\ nutritional_info w' = nutritional_info w
  /\ scans w' = scans w
  /\ analyzed w' = analyzed w
  /\ (is_Some (QueryContext_err E (tick w)) ->
      wire w' = wire w ++ [(conn, ErrorEnvelope "Failed to retrieve history")]).
Proof.
  intros w'. subst w'. unfold exec.
  destruct (handleGetHistory_cases E conn w) as [[_ ->]|[Hok ->]];
    repeat split.
  intros [e He]. congruence.
Qed.

Lemma get_history_only_reads_example :
  let w' := exec (handleGetHistory query_refused_env 7) one_saved in
  wire w' = wire one_saved ++ [(7, ErrorEnvelope "Failed to retrieve history")]
  /\ nutritional_info w' = nutritional_info one_saved.
Proof.
  intros w'.
  destruct (get_history_only_reads query_refused_env 7 one_saved)
    as (_ & _ & Hni & _ & _ & Hwire).
  split; [apply Hwire; now exists "database is locked" | exact Hni].
Defined.

Section Sorted.
Context (E : Env).

Lemma StronglySorted_take_drop n (l : list NutritionalInfo.t) r r' :
  StronglySorted (not_after E) l ->
  r ∈ take n l -> r' ∈ drop n l -> not_after E r r'.
Proof.
  intros Hsorted. revert n.
  induction Hsorted as [|a l Hsorted IH Hall]; intros n Hr Hr'.
  - rewrite take_nil in Hr. now apply elem_of_nil in Hr.
  - destruct n as [|n]; [now apply elem_of_nil in Hr|].
    cbn [take drop] in Hr, Hr'. apply elem_of_cons in Hr as [->|Hr].
    + rewrite List.Forall_forall in Hall. apply Hall.
      apply list_elem_of_In.
      apply list_elem_of_lookup_1 in Hr' as [i Hi].
      rewrite lookup_drop in Hi.
      now apply (list_elem_of_lookup_2 l (n + i)).
    + now apply (IH n).
Qed.

Lemma StronglySorted_take n (l : list NutritionalInfo.t) :
  StronglySorted (not_after E) l -> StronglySorted (not_after E) (take n l).
Proof.
  intros Hsorted. revert n.
  induction Hsorted as [|a l Hsorted IH Hall]; intros n.
  - rewrite take_nil. constructor.
  - destruct n as [|n]; [constructor|]. cbn [take].
    constructor; [apply IH|].
    rewrite List.Forall_forall in *. intros x Hx. apply Hall.
    apply list_elem_of_In. apply list_elem_of_In in Hx.
    apply elem_of_take in Hx as (i & Hi & _).
    now apply (list_elem_of_lookup_2 l i).
Qed.

(** A time that the driver stored as a text that does not parse is read
    back as the zero time. *)
Lemma scan_row_unreadable (r : NutritionalInfo.t) :
  times_unreadable E ->
  NutritionalInfo.CreatedAt (scan_row E r) = time.zero
  /\ NutritionalInfo.UpdatedAt (scan_row E r) = time.zero.
Proof.
  intros Hno. unfold scan_row, parse_time.
  cbn [NutritionalInfo.with_times NutritionalInfo.CreatedAt
       NutritionalInfo.UpdatedAt].
  now rewrite !Hno.
Qed.

End Sorted.

(** X4. When the query succeeds, [get_history] answers with one [history]
    message. Its items are the first 20 records of the table in descending
    order of the stored [created_at] text, or all of them when there are
    fewer, as they are read back: each item is a row of the table but for
    its two times, which are parsed from the stored text and are the zero
    time when the text is not RFC 3339. No row that was left out has a
    greater [created_at] text than one that is listed. The two totals are
    those of the items as read back, at the time read after the query:
    when the driver stores no time as a text that parses, every item
    carries the zero time and, the start of the week not being before the
    zero time, both totals are zero. *)
Theorem history_lists_most_recent (E : Env) conn w :
  QueryContext_err E (tick w) = None ->
  let w' := exec (handleGetHistory E conn) w in
  let now := time_Now E (1 + tick w) in
  exists rows others day_total week_total,
    wire w' = wire w ++ [(conn, Envelope "history"
                                  (data_history (scan_row E <$> rows)
                                     day_total week_total))]
    /\ length rows = Nat.min 20 (length (nutritional_info w))
    /\ StronglySorted (not_after E) rows
    /\ rows ++ others ≡ₚ nutritional_info w
    /\ (forall r r', r ∈ rows -> r' ∈ others -> not_after E r r')
    /\ (length (nutritional_info w) <= 20 -> rows ≡ₚ nutritional_info w)
    /\ (day_total, week_total) = history_totals E now (scan_row E <$> rows)
    /\ (times_unreadable E ->
        (time.zero <= startOfWeek E now)%Z ->
        Forall (fun item =>
                  NutritionalInfo.CreatedAt item = time.zero
                  /\ NutritionalInfo.UpdatedAt item = time.zero)
          (scan_row E <$> rows)
        /\ day_total = Totals.zero
        /\ week_total = Totals.zero).
Proof.
  intros Hok w' now. subst w'. unfold exec.
  destruct (handleGetHistory_cases E conn w) as [[[e He] _]|[_ ->]];
    [congruence|].
  cbn [snd wire]. fold now.
  pose proof (order_by_created_at_desc_sorted E (nutritional_info w))
    as Hsorted.
  pose proof (order_by_created_at_desc_Permutation E (nutritional_info w))
    as Hperm.
  exists (select_recent E 20 (nutritional_info w)),
    (drop 20 (order_by_created_at_desc E (nutritional_info w))).
  do 2 eexists. split; [reflexivity|]. unfold select_recent.
  split; [now rewrite length_take, Hperm|].
  split; [now apply StronglySorted_take|].
  split; [now rewrite take_drop|].
  split; [intros r r'; now apply StronglySorted_take_drop|].
  split.
  { intros Hlen. rewrite take_ge; [exact Hperm|]. now rewrite Hperm. }
  split; [now destruct (history_totals E _ _)|].
  intros Hno Hweek.
  assert (Hzero : Forall (fun item =>
                            NutritionalInfo.CreatedAt item = time.zero
                            /\ NutritionalInfo.UpdatedAt item = time.zero)
                    (scan_row E <$>
                     take 20 (order_by_created_at_desc E (nutritional_info w)))).
  { apply Forall_fmap, Forall_forall. intros r _.
    now apply scan_row_unreadable. }
  split; [exact Hzero|].
  rewrite history_totals_old; [now split|].
  eapply Forall_impl; [exact Hzero|]. cbn beta. intros item [-> _].
  exact Hweek.
Qed.

Lemma history_lists_most_recent_example :
  exists rows day_total week_total,
    wire (exec (handleGetHistory small_env 7) one_saved)
    = wire one_saved ++ [(7, Envelope "history"
                                (data_history (scan_row small_env <$> rows)
                                   day_total week_total))]
    /\ rows ≡ₚ nutritional_info one_saved
    /\ NutritionalInfo.ID <$> rows = ["1"]
    /\ created_at_text small_env <$> rows = ["2024-01-03 12:04:00 +0000 UTC"]
    /\ NutritionalInfo.CreatedAt <$> (scan_row small_env <$> rows)
       = [time.zero]
    /\ day_total = Totals.zero
    /\ week_total = Totals.zero.
Proof.
  destruct (history_lists_most_recent small_env 7 one_saved)
    as (rows & others & day_total & week_total & Hwire & _ & _ & _ & _ & Hall
        & _ & Hzero).
  - reflexivity.
  - exists rows, day_total, week_total. split; [exact Hwire|].
    assert (Hrows : rows ≡ₚ nutritional_info one_saved)
      by (apply Hall; vm_compute; lia).
    split; [exact Hrows|].
    destruct Hzero as (_ & Hday & Hweek);
      [intros t; reflexivity | vm_compute; discriminate|].
    assert (Hone : exists r, nutritional_info one_saved = [r]
                             /\ NutritionalInfo.ID r = "1"
                             /\ created_at_text small_env r
                                = "2024-01-03 12:04:00 +0000 UTC")
      by (eexists; split; [vm_compute; reflexivity|]; split; reflexivity).
    destruct Hone as (r & Htbl & Hid & Htext). rewrite Htbl in Hrows.
    apply Permutation_singleton_r in Hrows. subst rows.
    cbn [fmap list_fmap]. rewrite Hid, Htext.
    repeat split; assumption.
Defined.

(** X5. [scan] never writes to the database: whatever the payload is and
    whatever the model answers, both tables and the registry are as they
    were and no [scan_saved] is written. It removes no pending scan: only
    the entry under the identifier drawn for the result can change. *)
Theorem scan_writes_no_table (E : Env) conn (data : gmap string any) w :
  let w' := exec (handleScan E conn data) w in
  nutritional_info w' = nutritional_info w
  /\ scans w' = scans w
  /\ clients w' = clients w
  /\ saved w' = saved w
  /\ forall id, id <> uuid_New E (1 + tick w) ->
       tempImageData w' !! id = tempImageData w !! id.
Proof.
  intros w'. subst w'. unfold exec.
  destruct (handleScan_cases E conn data w)
    as [[m ->]|(s & x & img & Himg & Hw & Hdec & [[e He]|[draft Hd]])].
  - repeat split. saved_same.
  - rewrite (handleScan_model_fails E conn data s x img e) by trivial.
    repeat split. saved_same.
  - rewrite (handleScan_result E conn data s x img draft) by trivial.
    repeat split; [saved_same|].
    intros id Hne. cbn [snd tempImageData]. now apply lookup_insert_ne.
Qed.

Lemma scan_writes_no_table_example :
  let w' := exec (handleScan small_env 8 scan_apple) one_pending in
  nutritional_info w' = []
  /\ tempImageData w' !! "1" = tempImageData one_pending !! "1"
  /\ is_Some (tempImageData w' !! "5").
Proof.
  intros w'.
  destruct (scan_writes_no_table small_env 8 scan_apple one_pending)
    as (Hni & _ & _ & _ & Hkeep).
  split; [exact Hni|]. split; [now apply Hkeep | vm_compute; eauto].
Defined.

(** X6. A [confirm_scan] touches nothing but what belongs to the id it
    names: it does not call the model, it sends no [scan_result], it leaves
    the registry alone, and for every other id the pending entry and the
    stored record are as they were. No scan row is lost, unless it has the
    very identifier drawn for the new row. *)
Theorem confirm_touches_its_id_only (E : Env) conn (data : gmap string any) w :
  let w' := exec (handleConfirmScan E conn data) w in
  analyzed w' = analyzed w
  /\ clients w' = clients w
  /\ issued w' = issued w
  /\ (forall id, data !! "id" <> Some (AString id) ->
        tempImageData w' !! id = tempImageData w !! id
        /\ select_by_id id (nutritional_info w')
           = select_by_id id (nutritional_info w))
  /\ (forall r, r ∈ scans w ->
        nutrition_scans.id r <> uuid_New E (4 + tick w) -> r ∈ scans w').
Proof.
  intros w'. subst w'. unfold exec.
  destruct (handleConfirmScan_cases E conn data w)
    as [(m & -> & _)|(id & img & Hid & Hhit & [Hf|[[Hok Hf]|[Hok Hok']]])].
  - split; [reflexivity|]. split; [reflexivity|].
    split; [apply issued_with_wire_error|]. split; [now split|].
    intros r Hin _. exact Hin.
  - rewrite (handleConfirmScan_info_fails E conn data id img) by trivial.
    cbn [snd analyzed clients tempImageData nutritional_info scans].
    split; [reflexivity|]. split; [reflexivity|]. split; [issued_same|].
    split; [|intros r Hin _; exact Hin].
    intros id' Hne. split; [|reflexivity].
    apply lookup_delete_ne. congruence.
  - rewrite (handleConfirmScan_scan_fails E conn data id img) by trivial.
    cbn [snd analyzed clients tempImageData nutritional_info scans].
    split; [reflexivity|]. split; [reflexivity|]. split; [issued_same|].
    split; [|intros r Hin _; exact Hin].
    intros id' Hne. split.
    + apply lookup_delete_ne. congruence.
    + apply select_upsert_ne. cbn [confirmed_info NutritionalInfo.ID].
      congruence.
  - rewrite (handleConfirmScan_saved E conn data id img) by trivial.
    cbn [snd analyzed clients tempImageData nutritional_info scans].
    split; [reflexivity|]. split; [reflexivity|]. split; [issued_same|].
    split.
    + intros id' Hne. split.
      * apply lookup_delete_ne. congruence.
      * apply select_upsert_ne. cbn [confirmed_info NutritionalInfo.ID].
        congruence.
    + intros r Hin Hne. unfold replace_scan. apply elem_of_app. left.
      apply list_elem_of_filter. split; assumption.
Qed.

Lemma confirm_touches_its_id_only_example :
  let w := exec (handleScan small_env 8 scan_apple) one_pending in
  let w' := exec (handleConfirmScan small_env 7 confirm_apple) w in
  tempImageData w' !! "5" = tempImageData w !! "5"
  /\ is_Some (tempImageData w' !! "5")
  /\ tempImageData w' !! "1" = None.
Proof.
  intros w w'.
  destruct (confirm_touches_its_id_only small_env 7 confirm_apple w)
    as (_ & _ & _ & Hother & _).
  destruct (Hother "5") as [Hkeep _]; [vm_compute; discriminate|].
  split; [exact Hkeep|]. split; vm_compute; eauto.
Defined.

(** X7. The id of a [confirm_scan] is checked before anything is looked
    up: a payload without the key [id] is answered ["Missing nutrition
    info ID"], one whose [id] is anything but a string (a number, or a JSON
    null) is answered ["Invalid nutrition info ID format"], and a pending
    entry that is not a byte slice is answered ["Invalid stored image
    data"] and stays where it is. In all three cases the one message is
    all that happens. *)
Theorem confirm_scan_id_validation (E : Env) conn (data : gmap string any) w :
  let w' := exec (handleConfirmScan E conn data) w in
  (data !! "id" = None ->
   w' = with_wire w [(conn, ErrorEnvelope "Missing nutrition info ID")])
  /\ (forall v, data !! "id" = Some v -> (forall id, v <> AString id) ->
        w' = with_wire w
               [(conn, ErrorEnvelope "Invalid nutrition info ID format")])
  /\ (forall id v, data !! "id" = Some (AString id) ->
        tempImageData w !! id = Some v -> (forall img, v <> ABytes img) ->
        w' = with_wire w [(conn, ErrorEnvelope "Invalid stored image data")]).
Proof.
  intros w'. subst w'. unfold exec, handleConfirmScan.
  split; [|split].
  - intros ->. reflexivity.
  - intros v -> Hv. destruct v; try reflexivity. now destruct (Hv s).
  - intros id v -> Hhit Hv. run_monad. rewrite Hhit.
    destruct v; try reflexivity. now destruct (Hv b).
Qed.

Lemma confirm_scan_id_validation_example :
  let data : gmap string any :=
    {[ "id" := ANil; "calories" := AFloat64 (f64.of_Z 52) ]} in
  exec (handleConfirmScan small_env 7 data) one_pending
  = with_wire one_pending
      [(7, ErrorEnvelope "Invalid nutrition info ID format")].
Proof.
  intros data.
  apply (proj1 (proj2 (confirm_scan_id_validation small_env 7 data one_pending))
           ANil); [reflexivity | discriminate].
Defined.

(** ** The calendar of the history *)

(** X8. The two instants the history totals are cut at: [startOfDay] is
    the local midnight at or before now, less than a day back;
    [startOfWeek] is a local midnight too, it falls on a Sunday, and it
    lies as many whole days before [startOfDay] as the weekday of now
    counts from Sunday, so less than seven days before now. *)
Theorem week_starts_on_sunday (E : Env) now :
  let sod := startOfDay E now in
  let sow := startOfWeek E now in
  (local_midnight (Local E) sod
   /\ local_midnight (Local E) sow
   /\ time.Weekday (Local E) sow = 0
   /\ sod = sow + time.Weekday (Local E) now * time.nsPerDay
   /\ 0 <= time.Weekday (Local E) now <= 6
   /\ sod <= now < sod + time.nsPerDay
   /\ sow <= now < sow + 7 * time.nsPerDay)%Z.
Proof.
  intros sod sow. subst sod sow.
  unfold startOfWeek, startOfDay, local_midnight, time.Date_midnight,
    time.AddDate_days, time.Weekday, time.civil_day.
  set (off := (Local E * time.nsPerSecond)%Z).
  assert (Hday : (0 < time.nsPerDay)%Z) by reflexivity.
  set (d := ((now + off) / time.nsPerDay)%Z).
  assert (Hwd : (0 <= (d + 4) mod 7 < 7)%Z) by (apply Z.mod_pos_bound; lia).
  replace (now + - ((d + 4) mod 7) * time.nsPerDay + off)%Z
    with ((now + off) + - ((d + 4) mod 7) * time.nsPerDay)%Z by lia.
  rewrite Z.div_add by lia. fold d.
  replace (d * time.nsPerDay - off + off)%Z with (d * time.nsPerDay)%Z by lia.
  replace ((d + - ((d + 4) mod 7)) * time.nsPerDay - off + off)%Z
    with ((d + - ((d + 4) mod 7)) * time.nsPerDay)%Z by lia.
  rewrite !Z.div_mul, !Z.mod_mul by lia.
  pose proof (Z.mul_div_le (now + off) time.nsPerDay Hday) as Hle.
  pose proof (Z.mul_succ_div_gt (now + off) time.nsPerDay Hday) as Hgt.
  fold d in Hle, Hgt.
  assert (Hsun : ((d + - ((d + 4) mod 7) + 4) mod 7 = 0)%Z).
  { replace (d + - ((d + 4) mod 7) + 4)%Z with ((d + 4) - (d + 4) mod 7)%Z
      by lia.
    rewrite Zminus_mod_idemp_r, Z.sub_diag. reflexivity. }
  repeat split; try assumption; try lia. nia.
Qed.

(** ** Runs of the server, once more *)

(** X9. In a run of the server, the only way into the database is a
    confirmed scan: every record of [nutritional_info] that was not there
    when the server started is stored under an identifier that was sent in
    a [scan_result], and every row of [nutrition_scans] that was not there
    is ["completed"] and holds an image that the model was given. *)
Theorem stored_rows_come_from_scans (E : Env) nutritional_info0 scans0 w :
  reachable E nutritional_info0 scans0 w ->
  (forall r, r ∈ nutritional_info w ->
     NutritionalInfo.ID r ∈ info_ids nutritional_info0
     \/ NutritionalInfo.ID r ∈ issued w)
  /\ (forall r, r ∈ scans w ->
        r ∈ scans0
        \/ (nutrition_scans.status r = "completed"
            /\ nutrition_scans.image_data r ∈ analyzed w)).
Proof.
  intros Hreach. split.
  - intros r Hin. apply (stored_keys_issued E _ scans0 w Hreach).
    unfold info_ids. apply list_elem_of_fmap. now exists r.
  - now apply (stored_scans_analyzed E nutritional_info0).
Qed.

Lemma stored_rows_come_from_scans_example :
  let w := run chat_env (New [] []) (Read 7 <$> chat) in
  info_ids (nutritional_info w) = ["1"]
  /\ issued w = ["1"]
  /\ forall r, r ∈ nutritional_info w ->
       NutritionalInfo.ID r ∈ info_ids [] \/ NutritionalInfo.ID r ∈ issued w.
Proof.
  intros w. split; [reflexivity|]. split; [reflexivity|].
  apply (stored_rows_come_from_scans chat_env [] [] w).
  now exists (Read 7 <$> chat).
Defined.

(** X10. In a run of the server whose handler calls do not overlap (a run
    as it is taken here), a scan result is saved at most once: the number
    of [scan_saved] answers, together with the number of scans still
    pending, never exceeds the number of [scan_result] answers. *)
Theorem saved_at_most_once_per_result (E : Env) nutritional_info0 scans0 w :
  reachable E nutritional_info0 scans0 w ->
  saved w + size (tempImageData w) <= length (issued w).
Proof. apply saved_bound. Qed.

Lemma saved_at_most_once_per_result_example :
  let w := run chat_env (New [] []) (Read 7 <$> chat) in
  saved w = 1 /\ length (issued w) = 1
  /\ saved w + size (tempImageData w) <= length (issued w).
Proof.
  intros w. split; [reflexivity|]. split; [reflexivity|].
  apply (saved_at_most_once_per_result chat_env [] [] w).
  now exists (Read 7 <$> chat).
Defined.

(** X11. With the local model behind [model.ProcessImage], which fails on
    every image, a [scan] whose fields are well formed is answered
    ["Failed to process image"], and in every run of the server nothing is
    ever stored: no scan becomes pending, no [scan_result] and no
    [scan_saved] is written, and both tables stay as they were found. *)
Theorem local_model_stores_nothing (E : Env) nutritional_info0 scans0 :
  runs_LocalModel E ->
  (forall conn (data : gmap string any) s x img w,
     data !! "image" = Some (AString s) ->
     data !! "totalWeight" = Some (AFloat64 x) ->
     base64_DecodeString E s = Some img ->
     wire (exec (handleScan E conn data) w)
     = wire w ++ [(conn, ErrorEnvelope "Failed to process image")])
  /\ (forall w,
        reachable E nutritional_info0 scans0 w ->
        tempImageData w = ∅
        /\ issued w = []
        /\ sent_of_type "scan_saved" w = []
        /\ nutritional_info w = nutritional_info0
        /\ scans w = scans0).
Proof.
  intros Hlocal. split.
  - intros conn data s x img w Himg Hw Hdec. unfold exec.
    rewrite (handleScan_model_fails E conn data s x img
               "unimplemented: local model processing not yet implemented");
      [reflexivity| | | |]; try assumption.
    apply Hlocal.
  - intros w Hreach.
    destruct (local_model_idle E _ _ w Hlocal Hreach)
      as (Hst & Hiss & Hsaved & Hni & Hsc).
    repeat split; try assumption.
    now apply length_zero_iff_nil.
Qed.

Lemma local_model_stores_nothing_example :
  let w := run local_env (New [] []) [Read 7 scan_apple_text] in
  runs_LocalModel local_env
  /\ wire w = [(7, ErrorEnvelope "Failed to process image")]
  /\ tempImageData w = ∅
  /\ issued w = [].
Proof.
  intros w.
  assert (Hlocal : runs_LocalModel local_env) by (intros k img; reflexivity).
  split; [exact Hlocal|]. split; [reflexivity|].
  destruct (proj2 (local_model_stores_nothing local_env [] [] Hlocal) w)
    as (Hst & Hiss & _); [now exists [Read 7 scan_apple_text]|].
  split; assumption.
Defined.

(** ** The repository *)

Section Rows.

Lemma select_upsert_created (info old : NutritionalInfo.t) tbl :
  select_by_id (NutritionalInfo.ID info) tbl = Some old ->
  select_by_id (NutritionalInfo.ID info) (upsert_nutritional_info info tbl)
  = Some (NutritionalInfo.with_times (NutritionalInfo.CreatedAt old)
            (NutritionalInfo.UpdatedAt info) info).
Proof.
  unfold select_by_id.
  induction tbl as [|r tbl IH]; cbn [upsert_nutritional_info List.find];
    [discriminate|].
  destruct (String.eqb (NutritionalInfo.ID r) (NutritionalInfo.ID info))
    eqn:Heq.
  - intros [= ->]. cbn [List.find NutritionalInfo.with_times NutritionalInfo.ID].
    now rewrite String.eqb_refl.
  - intros Hold. cbn [List.find]. rewrite Heq. now apply IH.
Qed.

Lemma select_by_id_None id tbl :
  select_by_id id tbl = None <-> id ∉ info_ids tbl.
Proof.
  unfold select_by_id, info_ids. split.
  - intros Hnone (r & -> & Hin)%list_elem_of_fmap.
    apply list_elem_of_In in Hin.
    pose proof (List.find_none _ _ Hnone r Hin) as Hneq. cbn in Hneq.
    now rewrite String.eqb_refl in Hneq.
  - intros Hout.
    destruct (List.find _ tbl) as [r|] eqn:Hfind; [|reflexivity].
    apply List.find_some in Hfind as [Hin Heq%String.eqb_eq].
    destruct Hout. apply list_elem_of_fmap. exists r.
    split; [now symmetry | now apply list_elem_of_In].
Qed.

Lemma NoDup_info_ids_upsert (info : NutritionalInfo.t) tbl :
  NoDup (info_ids tbl) -> NoDup (info_ids (upsert_nutritional_info info tbl)).
Proof.
  intros Hnodup. rewrite info_ids_upsert.
  destruct (decide _) as [Hin|Hout]; [assumption|].
  apply NoDup_app. split; [assumption|]. split; [|apply NoDup_singleton].
  intros id Hin ->%list_elem_of_singleton. contradiction.
Qed.

Lemma filter_replace_scan_eq (row : nutrition_scans.row) tbl :
  filter (fun r => nutrition_scans.id r = nutrition_scans.id row)
    (replace_scan row tbl) = [row].
Proof.
  unfold replace_scan. rewrite filter_app.
  rewrite filter_cons_True, filter_nil by reflexivity.
  replace (filter _ (filter _ tbl)) with (@nil nutrition_scans.row);
    [reflexivity|].
  symmetry. induction tbl as [|r tbl IH]; [reflexivity|].
  rewrite (filter_cons (fun r => nutrition_scans.id r <> _)).
  destruct (decide (nutrition_scans.id r <> nutrition_scans.id row))
    as [Hne|Heq]; [|exact IH].
  rewrite filter_cons. destruct (decide _) as [Heq|_]; [contradiction|].
  exact IH.
Qed.

Lemma filter_replace_scan_ne (row : nutrition_scans.row) tbl :
  filter (fun r => nutrition_scans.id r <> nutrition_scans.id row)
    (replace_scan row tbl)
  = filter (fun r => nutrition_scans.id r <> nutrition_scans.id row) tbl.
Proof.
  unfold replace_scan. rewrite filter_app.
  rewrite filter_cons_False, filter_nil by (intros H; now apply H).
  rewrite app_nil_r. apply list_filter_filter_l. auto.
Qed.

Lemma NoDup_replace_scan (row : nutrition_scans.row) tbl :
  NoDup (nutrition_scans.id <$> tbl) ->
  NoDup (nutrition_scans.id <$> replace_scan row tbl).
Proof.
  intros Hnodup. unfold replace_scan. rewrite fmap_app.
  apply NoDup_app. split; [|split; [|apply NoDup_singleton]].
  - eapply sublist_NoDup; [exact Hnodup|].
    apply fmap_sublist, sublist_filter.
  - intros id (r & -> & [Hne _]%list_elem_of_filter)%list_elem_of_fmap
      Heq%list_elem_of_singleton.
    contradiction.
Qed.

End Rows.

(** X12. [SaveNutritionalInfo] stamps the caller's record (the creation
    time only if it was zero) whether or not the statement is accepted. A
    refused statement leaves the table as it was. An accepted one keeps
    the primary key a key: the list of ids is the same when the id was
    there and one longer, with the id last, when it was not; records under
    other ids are untouched; the record found under the id holds the new
    values, but an existing row keeps its [created_at], whatever creation
    time the caller's record now shows. *)
Theorem SaveNutritionalInfo_upsert (E : Env) (info : NutritionalInfo.t) w :
  let now := time_Now E (tick w) in
  let stamped :=
    NutritionalInfo.with_times
      (if time.IsZero (NutritionalInfo.CreatedAt info) then now
       else NutritionalInfo.CreatedAt info) now info in
  let r := SaveNutritionalInfo E info w in
  let tbl := nutritional_info w in
  let tbl' := nutritional_info (snd r) in
  fst (fst r) = stamped
  /\ snd (fst r) = ExecContext_err E (1 + tick w)
  /\ scans (snd r) = scans w
  /\ (is_Some (ExecContext_err E (1 + tick w)) -> tbl' = tbl)
  /\ (ExecContext_err E (1 + tick w) = None ->
      info_ids tbl'
      = (if decide (NutritionalInfo.ID info ∈ info_ids tbl) then info_ids tbl
         else info_ids tbl ++ [NutritionalInfo.ID info])
      /\ (NoDup (info_ids tbl) -> NoDup (info_ids tbl'))
      /\ (forall id, id <> NutritionalInfo.ID info ->
            select_by_id id tbl' = select_by_id id tbl)
      /\ (NutritionalInfo.ID info ∉ info_ids tbl ->
          select_by_id (NutritionalInfo.ID info) tbl' = Some stamped)
      /\ (forall old,
            select_by_id (NutritionalInfo.ID info) tbl = Some old ->
            select_by_id (NutritionalInfo.ID info) tbl'
            = Some (NutritionalInfo.with_times
                      (NutritionalInfo.CreatedAt old) now info))).
Proof.
  intros now stamped r tbl tbl'. subst r tbl tbl'.
  unfold SaveNutritionalInfo. run_monad. fold now. fold stamped.
  cbn [Nat.add].
  destruct (ExecContext_err E (S (tick w))) as [e|] eqn:Hexec; run_monad.
  - split; [reflexivity|]. split; [reflexivity|]. split; [reflexivity|].
    split; [reflexivity | discriminate].
  - split; [reflexivity|]. split; [reflexivity|]. split; [reflexivity|].
    split; [intros [? [=]]|]. intros _.
    assert (Hid : NutritionalInfo.ID stamped = NutritionalInfo.ID info)
      by reflexivity.
    split; [now rewrite info_ids_upsert, Hid|].
    split; [apply NoDup_info_ids_upsert|].
    split; [intros id Hne; apply select_upsert_ne; now rewrite Hid|].
    split.
    + intros Hnew%select_by_id_None. rewrite <- Hid in Hnew |- *.
      destruct (select_upsert stamped (nutritional_info w))
        as (created & -> & Hcreated).
      rewrite (Hcreated Hnew). now rewrite with_times_same.
    + intros old Hold. rewrite <- Hid in Hold |- *.
      now rewrite (select_upsert_created stamped old).
Qed.

Lemma SaveNutritionalInfo_upsert_example :
  let r := SaveNutritionalInfo small_env apple_again one_saved in
  exists old,
    select_by_id "1" (nutritional_info one_saved) = Some old
    /\ NutritionalInfo.CreatedAt (fst (fst r)) = time_Now small_env 13
    /\ select_by_id "1" (nutritional_info (snd r))
       = Some (NutritionalInfo.with_times (NutritionalInfo.CreatedAt old)
                 (time_Now small_env 13) apple_again)
    /\ NutritionalInfo.CreatedAt old = time_Now small_env 4
    /\ info_ids (nutritional_info (snd r)) = ["1"].
Proof.
  intros r.
  destruct (SaveNutritionalInfo_upsert small_env apple_again one_saved)
    as (Hstamped & _ & _ & _ & Hok).
  destruct Hok as (Hids & _ & _ & _ & Hold); [reflexivity|].
  destruct (select_by_id "1" (nutritional_info one_saved)) as [old|] eqn:Hsel;
    [|vm_compute in Hsel; discriminate].
  exists old. split; [reflexivity|]. fold r in Hstamped.
  split; [now rewrite Hstamped|]. split; [now apply Hold|].
  split; [|exact Hids].
  vm_compute in Hsel. injection Hsel as <-. reflexivity.
Defined.

(** X13. An accepted [SaveScan] leaves exactly one row under the id of
    the scan, the one it was given (with the time of the call as
    [updated_at], and as [created_at] too if the scan had none), placed
    last; a row that was there under that id is gone, creation time
    included. Every other row is kept, in order, and ids that were
    distinct stay distinct. The [Result] of the scan and the [UpdatedAt]
    the caller set are not stored: they make no difference. *)
Theorem SaveScan_replaces (E : Env) (scan : NutritionScan.t) w :
  ExecContext_err E (1 + tick w) = None ->
  let now := time_Now E (tick w) in
  let row :=
    nutrition_scans.mk (NutritionScan.ID scan) (NutritionScan.ImageData scan)
      (NutritionScan.Status scan) (NutritionScan.Error scan)
      (if time.IsZero (NutritionScan.CreatedAt scan) then now
       else NutritionScan.CreatedAt scan) now in
  let w' := exec (SaveScan E scan) w in
  nutritional_info w' = nutritional_info w
  /\ filter (fun r => nutrition_scans.id r = NutritionScan.ID scan) (scans w')
     = [row]
  /\ filter (fun r => nutrition_scans.id r <> NutritionScan.ID scan) (scans w')
     = filter (fun r => nutrition_scans.id r <> NutritionScan.ID scan)
         (scans w)
  /\ last (scans w') = Some row
  /\ (NoDup (scan_ids w) -> NoDup (scan_ids w'))
  /\ (forall result updated,
        exec (SaveScan E
                (NutritionScan.mk (NutritionScan.ID scan)
                   (NutritionScan.ImageData scan) (NutritionScan.Status scan)
                   result (NutritionScan.Error scan)
                   (NutritionScan.CreatedAt scan) updated)) w
        = w').
Proof.
  intros Hok now row w'. cbn [Nat.add] in Hok.
  assert (Hw' : w' = mkWorld (tempImageData w) (clients w)
                       (nutritional_info w) (replace_scan row (scans w))
                       (wire w) (analyzed w) (2 + tick w)).
  { subst w'. unfold SaveScan. run_monad. rewrite Hok. reflexivity. }
  rewrite Hw'. cbn [nutritional_info scans]. unfold scan_ids. cbn [scans].
  split; [reflexivity|].
  split; [apply (filter_replace_scan_eq row)|].
  split; [apply (filter_replace_scan_ne row)|].
  split; [apply last_snoc|].
  split; [apply NoDup_replace_scan|].
  intros result updated. unfold SaveScan. run_monad. rewrite Hok.
  reflexivity.
Qed.

Lemma SaveScan_replaces_example :
  let w' := exec (SaveScan small_env failed_scan) one_processing in
  exists row,
    filter (fun r => nutrition_scans.id r = "s1") (scans w') = [row]
    /\ scans w' = [row]
    /\ nutrition_scans.status row = "failed"
    /\ nutrition_scans.image_data row = String.list_byte_of_string "pear"
    /\ nutrition_scans.created_at row = noon
    /\ nutrition_scans.created_at processing_row = wednesday_midnight.
Proof.
  intros w'.
  destruct (SaveScan_replaces small_env failed_scan one_processing)
    as (_ & Hrow & _); [reflexivity|].
  eexists. split; [exact Hrow|]. repeat split.
Defined.

Section Status.

Lemma existsb_scan_id id (tbl : list nutrition_scans.row) :
  existsb (fun r => String.eqb (nutrition_scans.id r) id) tbl = true
  <-> id ∈ nutrition_scans.id <$> tbl.
Proof.
  rewrite existsb_exists, list_elem_of_fmap. split.
  - intros (r & Hin & Heq%String.eqb_eq).
    exists r. split; [now symmetry | now apply list_elem_of_In].
  - intros (r & -> & Hin). exists r.
    split; [now apply list_elem_of_In | apply String.eqb_refl].
Qed.

Lemma update_scan_status_absent id status errMsg now tbl :
  id ∉ nutrition_scans.id <$> tbl ->
  update_scan_status id status errMsg now tbl = tbl.
Proof.
  unfold update_scan_status.
  induction tbl as [|r tbl IH]; intros Hout; [reflexivity|].
  cbn [fmap list_fmap] in *. fold (@fmap list _ _ _ nutrition_scans.id) in *.
  destruct (String.eqb_spec (nutrition_scans.id r) id) as [Heq|Hne].
  - destruct Hout. apply elem_of_cons. now left.
  - f_equal. apply IH. intros Hin. apply Hout, elem_of_cons. now right.
Qed.

End Status.

Lemma update_scan_status_same id status errMsg now tbl :
  Forall2 (same_scan id) tbl (update_scan_status id status errMsg now tbl).
Proof.
  unfold update_scan_status. apply Forall2_fmap_r, Forall_Forall2_diag.
  apply Forall_forall. intros r _. unfold same_scan, compose.
  destruct (String.eqb_spec (nutrition_scans.id r) id) as [Heq|Hne];
    repeat split; try reflexivity.
  intros Hne. contradiction.
Qed.

Lemma Forall2_same_scan_refl id tbl : Forall2 (same_scan id) tbl tbl.
Proof.
  apply Forall_Forall2_diag, Forall_forall. intros r _. repeat split.
Qed.

(** X14. [UpdateScanStatus] adds no row and removes none: row by row,
    the id, the image and the creation time are kept, and a row under
    another id is kept as a whole. When it reports no error, every row
    under the id carries the new status, which is one of the four the
    schema allows, the new error text and the time of the call. An id
    that no row has is not an error: the call succeeds and changes
    nothing, whatever the status. A status outside the four, for an id
    that a row has, is refused by the [CHECK] of the schema, and a
    refused call changes nothing. *)
Theorem UpdateScanStatus_updates (E : Env) check_failed id status errMsg w :
  let now := time_Now E (tick w) in
  let r := UpdateScanStatus E check_failed id status errMsg w in
  let w' := snd r in
  nutritional_info w' = nutritional_info w
  /\ Forall2 (same_scan id) (scans w) (scans w')
  /\ (fst r = None ->
      forall row, row ∈ scans w' -> nutrition_scans.id row = id ->
        nutrition_scans.status row = status
        /\ schema.status_allowed status = true
        /\ nutrition_scans.error row = errMsg
        /\ nutrition_scans.updated_at row = now)
  /\ (ExecContext_err E (1 + tick w) = None -> id ∉ scan_ids w ->
      fst r = None /\ scans w' = scans w)
  /\ (ExecContext_err E (1 + tick w) = None -> id ∈ scan_ids w ->
      schema.status_allowed status = false ->
      fst r = Some check_failed)
  /\ (is_Some (fst r) -> scans w' = scans w).
Proof.
  intros now r w'. subst r w'. unfold UpdateScanStatus, scan_ids.
  run_monad. fold now. cbn [Nat.add].
  destruct (ExecContext_err E (S (tick w))) as [e|] eqn:Hexec; run_monad.
  { split; [reflexivity|]. split; [apply Forall2_same_scan_refl|].
    split; [discriminate|]. split; [discriminate|].
    split; [discriminate | reflexivity]. }
  destruct (existsb _ (scans w)) eqn:Hex.
  - apply existsb_scan_id in Hex.
    destruct (schema.status_allowed status) eqn:Hstatus; cbn [andb negb];
      run_monad.
    + split; [reflexivity|]. split; [apply update_scan_status_same|].
      split.
      { intros _ row (old & -> & Hin)%list_elem_of_fmap Hid.
        destruct (String.eqb_spec (nutrition_scans.id old) id) as [Heq|Hne];
          [repeat split | contradiction]. }
      split; [intros _ Hout; contradiction|].
      split; [discriminate | intros [? [=]]].
    + split; [reflexivity|]. split; [apply Forall2_same_scan_refl|].
      split; [discriminate|]. split; [intros _ Hout; contradiction|].
      split; reflexivity.
  - assert (Hout : id ∉ nutrition_scans.id <$> scans w).
    { intros Hin%existsb_scan_id. congruence. }
    cbn [andb]. run_monad.
    rewrite update_scan_status_absent by exact Hout.
    split; [reflexivity|]. split; [apply Forall2_same_scan_refl|].
    split.
    { intros _ row Hin Hid. destruct Hout. apply list_elem_of_fmap.
      now exists row. }
    split; [now split|]. split; [intros _ Hin; contradiction|].
    intros [? [=]].
Qed.

Lemma UpdateScanStatus_updates_example :
  let unknown :=
    UpdateScanStatus small_env "refused" "s2" "done" "" one_processing in
  let refused :=
    UpdateScanStatus small_env "refused" "s1" "done" "" one_processing in
  let updated :=
    UpdateScanStatus small_env "refused" "s1" "failed" "no label found"
      one_processing in
  (fst unknown = None /\ scans (snd unknown) = [processing_row])
  /\ fst refused = Some "refused"
  /\ scans (snd refused) = [processing_row]
  /\ fst updated = None
  /\ nutrition_scans.status <$> scans (snd updated) = ["failed"].
Proof.
  intros unknown refused updated.
  destruct (UpdateScanStatus_updates small_env "refused" "s2" "done" ""
              one_processing) as (_ & _ & _ & Hunknown & _).
  destruct (UpdateScanStatus_updates small_env "refused" "s1" "done" ""
              one_processing) as (_ & _ & _ & _ & Hrefused & Hkept).
  split.
  { apply Hunknown; [reflexivity|]. vm_compute.
    intros [Heq|Hin]%elem_of_cons; [discriminate|].
    now apply elem_of_nil in Hin. }
  assert (Hr : fst refused = Some "refused").
  { apply Hrefused; try reflexivity. vm_compute. apply elem_of_cons. now left. }
  split; [exact Hr|]. split; [apply Hkept; exists "refused"; exact Hr|].
  split; reflexivity.
Defined.

(** X15. [GetNutritionalInfo] for an id that no record has is not an
    error: when the query itself succeeds the answer is [(nil, nil)]. A
    record that is returned is a row of the table and has the id that was
    asked for; an error of the query is passed on. The call changes
    neither table. For an id that a record has, no record is returned:
    the [created_at] text cannot be scanned into a [time.Time], and the
    answer is that error. *)
Theorem GetNutritionalInfo_missing (E : Env) scan_failed id w :
  let r := GetNutritionalInfo E scan_failed id w in
  nutritional_info (snd r) = nutritional_info w
  /\ scans (snd r) = scans w
  /\ (QueryContext_err E (tick w) = None ->
      id ∉ info_ids (nutritional_info w) -> fst r = inl None)
  /\ (forall err, QueryContext_err E (tick w) = Some err -> fst r = inr err)
  /\ (forall info, fst r = inl (Some info) ->
        NutritionalInfo.ID info = id /\ info ∈ nutritional_info w)
  /\ (QueryContext_err E (tick w) = None ->
      id ∈ info_ids (nutritional_info w) -> fst r = inr scan_failed).
Proof.
  intros r. subst r. unfold GetNutritionalInfo. run_monad.
  destruct (QueryContext_err E (tick w)) as [e|]; run_monad.
  - split; [reflexivity|]. split; [reflexivity|]. split; [discriminate|].
    split; [now intros err [= <-]|]. split; discriminate.
  - destruct (select_by_id id (nutritional_info w)) as [row|] eqn:Hsel;
      run_monad.
    + split; [reflexivity|]. split; [reflexivity|]. split.
      { intros _ Hout%select_by_id_None. congruence. }
      split; [discriminate|]. split; [discriminate | reflexivity].
    + split; [reflexivity|]. split; [reflexivity|]. split; [reflexivity|].
      split; [discriminate|]. split; [discriminate|].
      intros _ Hin. now apply select_by_id_None in Hsel.
Qed.

Lemma GetNutritionalInfo_missing_example :
  fst (GetNutritionalInfo small_env "unsupported Scan" "2" one_saved)
  = inl None
  /\ info_ids (nutritional_info one_saved) = ["1"]
  /\ fst (GetNutritionalInfo small_env "unsupported Scan" "1" one_saved)
     = inr "unsupported Scan".
Proof.
  destruct (GetNutritionalInfo_missing small_env "unsupported Scan" "2"
              one_saved) as (_ & _ & Hmissing & _).
  split; [|split; reflexivity]. apply Hmissing; [reflexivity|].
  vm_compute. intros [Heq|Hin]%elem_of_cons; [discriminate|].
  now apply elem_of_nil in Hin.
Defined.

(** ** internal/ml *)

Section Fences.
Lemma strip_prefix_app prefix s :
  GoogleModel.strip_prefix prefix (prefix +:+ s) = Some s.
Proof.
  induction prefix as [|c prefix IH]; [reflexivity|].
  simpl. now rewrite Ascii.eqb_refl.
Qed.

Lemma TrimPrefix_app prefix s :
  GoogleModel.TrimPrefix (prefix +:+ s) prefix = s.
Proof. unfold GoogleModel.TrimPrefix. now rewrite strip_prefix_app. Qed.

Lemma length_append (s t : string) :
  String.length (s +:+ t) = String.length s + String.length t.
Proof.
  induction s as [|c s IH]; simpl; [reflexivity | now f_equal].
Qed.

Lemma TrimSuffix_app s suffix :
  GoogleModel.TrimSuffix (s +:+ suffix) suffix = s.
Proof.
  induction s as [|c s IH].
  - change ("" +:+ suffix) with suffix.
    destruct suffix as [|c suffix]; [reflexivity|].
    cbn [GoogleModel.TrimSuffix]. now rewrite String.eqb_refl.
  - change (String c s +:+ suffix) with (String c (s +:+ suffix)).
    cbn [GoogleModel.TrimSuffix].
    destruct (String.eqb_spec (String c (s +:+ suffix)) suffix) as [Heq|_].
    + apply (f_equal String.length) in Heq. cbn [String.length] in Heq.
      rewrite length_append in Heq. lia.
    + now rewrite IH.
Qed.

Lemma TrimSuffix_brace s :
  GoogleModel.TrimSuffix (s +:+ "}") GoogleModel.fence_close = s +:+ "}".
Proof.
  induction s as [|c s IH]; [reflexivity|].
  change (String c s +:+ "}") with (String c (s +:+ "}")).
  cbn [GoogleModel.TrimSuffix].
  destruct (String.eqb_spec (String c (s +:+ "}")) GoogleModel.fence_close)
    as [Heq|_].
  - exfalso. destruct s as [|c1 [|c2 [|c3 [|c4 s]]]]; discriminate Heq.
  - now rewrite IH.
Qed.

End Fences.

(** X16. [ProcessImage] of the Google model takes the fences off the
    answer before it parses it: from an answer that is [" ```json"] and a
    newline, a text, a newline and ["```"], the text is what is left,
    whatever it is, and an answer that is the bare text is left as it is
    when the text is a JSON object. The opening fence starts with a
    blank: the same answer without that blank keeps its first line, and
    loses the closing fence only. *)
Theorem fences_removed (body : string) :
  let unfence text :=
    GoogleModel.TrimSuffix
      (GoogleModel.TrimPrefix text GoogleModel.fence_open)
      GoogleModel.fence_close in
  unfence (GoogleModel.fence_open +:+ body +:+ GoogleModel.fence_close) = body
  /\ unfence ("{" +:+ body +:+ "}") = "{" +:+ body +:+ "}"
  /\ unfence ("```json" +:+ GoogleModel.newline +:+ body
              +:+ GoogleModel.fence_close)
     = "```json" +:+ GoogleModel.newline +:+ body.
Proof.
  intros unfence. subst unfence. cbn beta. split; [|split].
  - now rewrite TrimPrefix_app, TrimSuffix_app.
  - change (GoogleModel.TrimPrefix ("{" +:+ body +:+ "}") GoogleModel.fence_open)
      with (("{" +:+ body) +:+ "}").
    apply TrimSuffix_brace.
  - change (GoogleModel.TrimPrefix
              ("```json" +:+ GoogleModel.newline +:+ body
               +:+ GoogleModel.fence_close) GoogleModel.fence_open)
      with ("```json" +:+ GoogleModel.newline +:+ body
            +:+ GoogleModel.fence_close).
    replace ("```json" +:+ GoogleModel.newline +:+ body
             +:+ GoogleModel.fence_close)
      with (("```json" +:+ GoogleModel.newline +:+ body)
            +:+ GoogleModel.fence_close).
    + apply TrimSuffix_app.
    + reflexivity.
Qed.

(** X17. [ProcessImage] of the Google model returns a record only when
    the model was loaded, the first candidate has a part, the text of that
    part (fences taken off) parses as an object whose [success] member is
    an object with all of [calories], [protein], [carbs] and [fat], and
    parses into the struct with an empty error reason. The record then
    carries a new identifier, the six values read into the struct, and
    neither a weight nor a time. Fiber and sugar are not required. *)
Theorem google_success_needs_all_four (G : GoogleModel.Gemini) loaded
    new_uuid imageData info :
  GoogleModel.ProcessImage G loaded new_uuid imageData
  = GoogleModel.returned (inl info) ->
  loaded = true
  /\ exists part parts candidates rawMap successObj output,
       GoogleModel.GenerateContent G imageData
       = inl (Some (part :: parts) :: candidates)
       /\ let text :=
            GoogleModel.TrimSuffix
              (GoogleModel.TrimPrefix part GoogleModel.fence_open)
              GoogleModel.fence_close in
          GoogleModel.Unmarshal_map G text = inl rawMap
          /\ rawMap !! "success" = Some (AMap successObj)
          /\ (forall field, field ∈ GoogleModel.requiredFields ->
                is_Some (successObj !! field))
          /\ GoogleModel.Unmarshal_output G text = inl output
          /\ GoogleModel.Error_ErrorReason output = ""
          /\ info = NutritionalInfo.mk new_uuid f64.zero
                      (GoogleModel.Success_Calories output)
                      (GoogleModel.Success_Protein output)
                      (GoogleModel.Success_Carbs output)
                      (GoogleModel.Success_Fat output)
                      (GoogleModel.Success_Fiber output)
                      (GoogleModel.Success_Sugar output)
                      "" time.zero time.zero.
Proof.
  unfold GoogleModel.ProcessImage.
  destruct loaded; cbn [negb]; [|discriminate]. intros Hret.
  split; [reflexivity|].
  destruct (GoogleModel.GenerateContent G imageData)
    as [[|[[|part parts]|] candidates]|err]; try discriminate.
  cbv zeta in Hret.
  destruct (GoogleModel.Unmarshal_map G _) as [rawMap|err] eqn:Hmap;
    [|discriminate].
  destruct (rawMap !! "success") as [[| | | | |successObj|]|] eqn:Hsuccess;
    try discriminate.
  destruct (GoogleModel.missing_field successObj) as [field|] eqn:Hmissing;
    [discriminate|].
  destruct (GoogleModel.Unmarshal_output G _) as [output|err] eqn:Hout;
    [|discriminate].
  destruct (String.eqb_spec (GoogleModel.Error_ErrorReason output) "")
    as [Hreason|Hreason]; cbn [negb] in Hret; [|discriminate].
  injection Hret as <-.
  exists part, parts, candidates, rawMap, successObj, output.
  split; [reflexivity|]. cbv zeta.
  split; [exact Hmap|]. split; [exact Hsuccess|].
  split; [|split; [exact Hout|split; [exact Hreason|reflexivity]]].
  intros field Hin. unfold GoogleModel.missing_field in Hmissing.
  apply list_elem_of_In in Hin.
  pose proof (List.find_none _ _ Hmissing field Hin) as Hfield.
  cbn beta in Hfield. destruct (successObj !! field); [eauto|discriminate].
Qed.

Lemma google_success_needs_all_four_example :
  exists info successObj,
    GoogleModel.ProcessImage apple_gemini true "0c3e" []
    = GoogleModel.returned (inl info)
    /\ NutritionalInfo.Calories info = f64.of_Z 52
    /\ GoogleModel.Unmarshal_map apple_gemini apple_body
       = inl {[ "success" := AMap successObj ]}
    /\ is_Some (successObj !! "fat")
    /\ successObj !! "fiber" = None.
Proof.
  eexists. exists apple_success.
  assert (Hrun : GoogleModel.ProcessImage apple_gemini true "0c3e" []
                 = GoogleModel.returned
                     (inl (NutritionalInfo.mk "0c3e" f64.zero (f64.of_Z 52)
                             (f64.of_Z 1) (f64.of_Z 14) (f64.of_Z 0)
                             f64.zero f64.zero "" time.zero time.zero)))
    by (vm_compute; reflexivity).
  split; [exact Hrun|]. split; [reflexivity|]. split; [reflexivity|].
  destruct (google_success_needs_all_four _ _ _ _ _ Hrun)
    as (_ & part & parts & candidates & rawMap & successObj & output & Hgen
        & Hmap & Hsuccess & Hfields & _).
  split; [|reflexivity].
  injection Hgen as <- _ _.
  change (GoogleModel.Unmarshal_map apple_gemini _)
    with (@inl (gmap string any) error {[ "success" := AMap apple_success ]})
    in Hmap.
  injection Hmap as <-.
  change (Some (AMap apple_success) = Some (AMap successObj)) in Hsuccess.
  injection Hsuccess as <-.
  apply Hfields. vm_compute. repeat constructor.
Defined.

(** X18. The error reason of the model is looked at last. An answer whose
    [success] member is missing or is not an object, which is what the
    prompt asks for when the picture cannot be read, is reported as
    ["missing or invalid success object in response"]: the reason and the
    suggestion it carries are not read. *)
Theorem google_error_needs_success_object (G : GoogleModel.Gemini) new_uuid
    imageData part parts candidates rawMap :
  GoogleModel.GenerateContent G imageData
  = inl (Some (part :: parts) :: candidates) ->
  GoogleModel.Unmarshal_map G
    (GoogleModel.TrimSuffix
       (GoogleModel.TrimPrefix part GoogleModel.fence_open)
       GoogleModel.fence_close) = inl rawMap ->
  (forall successObj, rawMap !! "success" <> Some (AMap successObj)) ->
  GoogleModel.ProcessImage G true new_uuid imageData
  = GoogleModel.returned
      (inr "missing or invalid success object in response").
Proof.
  intros Hgen Hmap Hsuccess. unfold GoogleModel.ProcessImage.
  cbn [negb]. rewrite Hgen. cbv zeta. rewrite Hmap.
  destruct (rawMap !! "success") as [[]|]; try reflexivity.
  now destruct (Hsuccess m).
Qed.

Lemma google_error_needs_success_object_example :
  GoogleModel.Unmarshal_output blurred_gemini blurred_body = inl blurred_output
  /\ GoogleModel.Error_ErrorReason blurred_output = "image is blurred"
  /\ GoogleModel.ProcessImage blurred_gemini true "0c3e" []
     = GoogleModel.returned
         (inr "missing or invalid success object in response").
Proof.
  split; [reflexivity|]. split; [reflexivity|].
  eapply (google_error_needs_success_object blurred_gemini "0c3e" []
            blurred_body [] []); [reflexivity | reflexivity |].
  intros successObj. vm_compute. discriminate.
Defined.

(** ** internal/config *)

(** X19. A configuration that [LoadConfig] returns was read from the file
    and parsed, and it has a port, a static directory and a database
    path: the port is the one of the file and is not empty, the two others
    are those of the file or, where the file leaves them empty,
    ["./static"] and ["nutritional.db"]. The debug flag and the model type
    are passed on as they are; the model type has no default. A file
    without a port is an error. *)
Theorem LoadConfig_defaults ReadFile Unmarshal configPath :
  (forall cfg,
     config.LoadConfig ReadFile Unmarshal configPath = inl cfg ->
     exists data raw,
       ReadFile configPath = inl data
       /\ Unmarshal data = inl raw
       /\ config.Server_Port cfg = config.Server_Port raw
       /\ config.Server_Port cfg <> ""
       /\ config.Server_StaticDir cfg <> ""
       /\ config.Database_Path cfg <> ""
       /\ (config.Server_StaticDir raw <> "" ->
           config.Server_StaticDir cfg = config.Server_StaticDir raw)
       /\ (config.Server_StaticDir raw = "" ->
           config.Server_StaticDir cfg = "./static")
       /\ (config.Database_Path raw <> "" ->
           config.Database_Path cfg = config.Database_Path raw)
       /\ (config.Database_Path raw = "" ->
           config.Database_Path cfg = "nutritional.db")
       /\ config.Server_Debug cfg = config.Server_Debug raw
       /\ config.ML_Type cfg = config.ML_Type raw)
  /\ (forall data raw,
        ReadFile configPath = inl data -> Unmarshal data = inl raw ->
        config.Server_Port raw = "" ->
        config.LoadConfig ReadFile Unmarshal configPath
        = inr "server port is not set in config file").
Proof.
  unfold config.LoadConfig. split.
  - intros cfg.
    destruct (ReadFile configPath) as [data|err] eqn:Hread; [|discriminate].
    destruct (Unmarshal data) as [raw|err] eqn:Hparse; [|discriminate].
    destruct (String.eqb_spec (config.Server_Port raw) "") as [|Hport];
      [discriminate|].
    intros [= <-]. exists data, raw.
    split; [reflexivity|]. split; [exact Hparse|].
    destruct (String.eqb_spec (config.Server_StaticDir raw) "")
      as [Hstatic|Hstatic];
      cbn [config.Database_Path config.Server_StaticDir config.Server_Port
           config.Server_Debug config.ML_Type];
      destruct (String.eqb_spec (config.Database_Path raw) "") as [Hdb|Hdb];
      cbn [config.Database_Path config.Server_StaticDir config.Server_Port
           config.Server_Debug config.ML_Type];
      repeat split; try assumption; try discriminate; try contradiction;
      try reflexivity; intros; congruence.
  - intros data raw -> -> ->. reflexivity.
Qed.

Lemma LoadConfig_defaults_example :
  exists cfg,
    config.LoadConfig one_file read_port_only "config.json" = inl cfg
    /\ config.Server_Port cfg = "8080"
    /\ config.Server_StaticDir cfg = "./static"
    /\ config.Database_Path cfg = "nutritional.db"
    /\ config.ML_Type cfg = "".
Proof.
  eexists. split; [reflexivity|].
  destruct (proj1 (LoadConfig_defaults one_file read_port_only "config.json")
              _ eq_refl)
    as (data & raw & _ & Hraw & Hport & _ & _ & _ & _ & Hstatic & _ & Hdb & _
        & Htype).
  injection Hraw as <-.
  split; [exact Hport|]. split; [now apply Hstatic|].
  split; [now apply Hdb | exact Htype].
Defined.

(** ** A scan and its confirmation *)

Ltac payload_lookup :=
  unfold confirm_payload;
  repeat (rewrite lookup_insert_ne by discriminate);
  first [apply lookup_insert_eq | apply lookup_singleton_eq].

Lemma confirm_payload_info (E : Env) (info : NutritionalInfo.t) k :
  confirmed_info E (confirm_payload info) (NutritionalInfo.ID info) k
  = NutritionalInfo.mk (NutritionalInfo.ID info)
      (NutritionalInfo.TotalWeight info) (NutritionalInfo.Calories info)
      (NutritionalInfo.Protein info) (NutritionalInfo.Carbs info)
      (NutritionalInfo.Fat info) (NutritionalInfo.Fiber info)
      (NutritionalInfo.Sugar info) ""
      (if time.IsZero (time_Now E k) then time_Now E (2 + k)
       else time_Now E k)
      (time_Now E (2 + k)).
Proof.
  unfold confirmed_info, float64_field.
  replace (confirm_payload info !! "total_weight")
    with (Some (AFloat64 (NutritionalInfo.TotalWeight info)))
    by (symmetry; payload_lookup).
  replace (confirm_payload info !! "calories")
    with (Some (AFloat64 (NutritionalInfo.Calories info)))
    by (symmetry; payload_lookup).
  replace (confirm_payload info !! "protein")
    with (Some (AFloat64 (NutritionalInfo.Protein info)))
    by (symmetry; payload_lookup).
  replace (confirm_payload info !! "carbs")
    with (Some (AFloat64 (NutritionalInfo.Carbs info)))
    by (symmetry; payload_lookup).
  replace (confirm_payload info !! "fat")
    with (Some (AFloat64 (NutritionalInfo.Fat info)))
    by (symmetry; payload_lookup).
  replace (confirm_payload info !! "fiber")
    with (Some (AFloat64 (NutritionalInfo.Fiber info)))
    by (symmetry; payload_lookup).
  replace (confirm_payload info !! "sugar")
    with (Some (AFloat64 (NutritionalInfo.Sugar info)))
    by (symmetry; payload_lookup).
  reflexivity.
Qed.

(** X20. A scan that the model answers, followed by the confirmation the
    page sends for it (the id and the seven values of the result, as they
    came), with a database that accepts both statements: the confirmation
    is answered [scan_saved], the pending entry of the scan is consumed,
    and the record stored under the id has the id, the weight and the six
    values that the [scan_result] showed. Its image path is empty and its
    times are those of the confirmation, not those of the result. *)
Theorem scan_then_confirm_round_trip (E : Env) conn (data : gmap string any)
    s x img draft w :
  data !! "image" = Some (AString s) ->
  data !! "totalWeight" = Some (AFloat64 x) ->
  base64_DecodeString E s = Some img ->
  ProcessImage E (tick w) img = inl draft ->
  ExecContext_err E (7 + tick w) = None ->
  ExecContext_err E (12 + tick w) = None ->
  let w1 := exec (handleScan E conn data) w in
  exists info,
    wire w1 = wire w ++ [(conn, Envelope "scan_result" (data_info info))]
    /\ let w2 := exec (handleConfirmScan E conn (confirm_payload info)) w1 in
       wire w2 = wire w1 ++ [(conn, Envelope "scan_saved" data_nil)]
       /\ tempImageData w2 !! NutritionalInfo.ID info = None
       /\ exists stored,
            select_by_id (NutritionalInfo.ID info) (nutritional_info w2)
            = Some stored
            /\ NutritionalInfo.with_times (NutritionalInfo.CreatedAt info)
                 (NutritionalInfo.UpdatedAt info) stored
               = NutritionalInfo.mk (NutritionalInfo.ID info)
                   (NutritionalInfo.TotalWeight info)
                   (NutritionalInfo.Calories info)
                   (NutritionalInfo.Protein info)
                   (NutritionalInfo.Carbs info) (NutritionalInfo.Fat info)
                   (NutritionalInfo.Fiber info) (NutritionalInfo.Sugar info)
                   "" (NutritionalInfo.CreatedAt info)
                   (NutritionalInfo.UpdatedAt info)
            /\ NutritionalInfo.UpdatedAt stored = time_Now E (6 + tick w).
Proof.
  intros Himg Hw Hdec Hmodel Hok Hok' w1.
  assert (Hw1 : w1 = snd (handleScan E conn data w)) by reflexivity.
  rewrite (handleScan_result E conn data s x img draft) in Hw1 by assumption.
  cbn [snd] in Hw1.
  set (info := scanned_info E x draft (tick w)) in *.
  exists info. split; [now rewrite Hw1|]. intros w2.
  assert (Hid : confirm_payload info !! "id"
                = Some (AString (NutritionalInfo.ID info)))
    by payload_lookup.
  assert (Hhit : tempImageData w1 !! NutritionalInfo.ID info
                 = Some (ABytes img))
    by (rewrite Hw1; apply lookup_insert_eq).
  assert (Htick : tick w1 = 4 + tick w) by now rewrite Hw1.
  assert (Hw2 : w2 = snd (handleConfirmScan E conn (confirm_payload info) w1))
    by reflexivity.
  rewrite (handleConfirmScan_saved E conn _ (NutritionalInfo.ID info) img)
    in Hw2; try assumption; try (rewrite Htick; assumption).
  cbn [snd] in Hw2. rewrite Hw2. cbn [wire tempImageData nutritional_info].
  split; [reflexivity|]. split; [apply lookup_delete_eq|].
  destruct (select_upsert
              (confirmed_info E (confirm_payload info)
                 (NutritionalInfo.ID info) (tick w1))
              (nutritional_info w1)) as (created & Hsel & _).
  rewrite confirm_payload_info in Hsel. cbn [NutritionalInfo.ID] in Hsel.
  rewrite confirm_payload_info.
  eexists. split; [exact Hsel|]. rewrite Htick. split; reflexivity.
Qed.

Lemma scan_then_confirm_round_trip_example :
  exists info stored,
    wire one_pending = [(7, Envelope "scan_result" (data_info info))]
    /\ NutritionalInfo.Calories info = f64.of_Z 52
    /\ select_by_id (NutritionalInfo.ID info)
         (nutritional_info
            (exec (handleConfirmScan small_env 7 (confirm_payload info))
               one_pending))
       = Some stored
    /\ NutritionalInfo.Calories stored = f64.of_Z 52
    /\ NutritionalInfo.TotalWeight stored = f64.of_Z 250.
Proof.
  destruct (scan_then_confirm_round_trip small_env 7 scan_apple "YXBwbGU="
              (f64.of_Z 250) (String.list_byte_of_string "apple") apple
              (New [] []))
    as (info & Hwire & _ & _ & stored & Hsel & Hsame & _); try reflexivity.
  exists info, stored. split; [exact Hwire|].
  vm_compute in Hwire. injection Hwire as <-.
  split; [reflexivity|]. split; [exact Hsel|].
  apply (f_equal NutritionalInfo.Calories) in Hsame as Hcal.
  apply (f_equal NutritionalInfo.TotalWeight) in Hsame as Hweight.
  destruct stored. split; [exact Hcal | exact Hweight].
Defined.

(** X21. The [data] of a message is optional: when it is missing, or is
    anything but an object, the handlers are given an empty payload. A
    [scan] is then answered ["Invalid image data"] and a [confirm_scan]
    ["Missing nutrition info ID"], with nothing else done; a
    [get_history] does not look at its payload at all. *)
Theorem message_without_data (E : Env) conn (message : gmap string any) w :
  let w' := exec (handleWebSocketMessage E conn message) w in
  (message !! "type" = Some (AString "get_history") ->
   w' = exec (handleGetHistory E conn) w)
  /\ ((forall d, message !! "data" <> Some (AMap d)) ->
      (message !! "type" = Some (AString "scan") ->
       w' = with_wire w [(conn, ErrorEnvelope "Invalid image data")])
      /\ (message !! "type" = Some (AString "confirm_scan") ->
          w' = with_wire w [(conn, ErrorEnvelope "Missing nutrition info ID")])).
Proof.
  intros w'. subst w'. unfold handleWebSocketMessage. split.
  - intros ->. reflexivity.
  - intros Hdata.
    assert (Hempty : match message !! "data" with
                     | Some (AMap d) => d
                     | _ => ∅
                     end = (∅ : gmap string any)).
    { destruct (message !! "data") as [[]|]; try reflexivity.
      now destruct (Hdata m). }
    rewrite Hempty. split; intros ->; reflexivity.
Qed.

Lemma message_without_data_example :
  let message : gmap string any :=
    {[ "type" := AString "confirm_scan"; "data" := AString "1" ]} in
  exec (handleWebSocketMessage small_env 7 message) one_pending
  = with_wire one_pending [(7, ErrorEnvelope "Missing nutrition info ID")].
Proof.
  intros message.
  apply (proj2 (message_without_data small_env 7 message one_pending));
    [|reflexivity].
  intros d. vm_compute. discriminate.
Defined.
